(** * opalloc: an object-pool allocator

    A shallow embedding of [opalloc.c] (the pool engine behind
    [opalloc.h]) together with the properties of its growth policy, of its
    slot directory and of the way backing storage is handed back.

    The C code works on three kinds of heap objects: the handle record
    ([struct _op_allocator]), the directory ([_ab_t **pool]) and the blocks
    of [_ab_t] records obtained from [calloc].  The embedding keeps them in
    an explicit heap and threads it, together with a log of the calls made
    to [calloc], [realloc], [free] and [op_error_handler], through a small
    state monad whose computations may also end in undefined behaviour. *)

From stdpp Require Import base numbers list strings.

Local Open Scope string_scope.
Local Open Scope list_scope.
Local Open Scope Z_scope.

(** ** Machine integers *)

(** [size_t] is a 64-bit unsigned integer: arithmetic on it wraps. *)
Definition SIZE_MAX : Z := 2 ^ 64 - 1.
Definition wrap (z : Z) : Z := z mod 2 ^ 64.

(** No allocation request above [PTRDIFF_MAX] bytes is ever granted. *)
Definition PTRDIFF_MAX : Z := 2 ^ 63 - 1.

(** [sizeof(_ab_t)]: the [in_use] enum followed by a flexible array member;
    [sizeof(_ab_t * )]; [sizeof(struct _op_allocator)]. *)
Definition sizeof_ab_t : Z := 4.
Definition sizeof_ptr : Z := 8.
Definition sizeof_op_allocator : Z := 40.

(** ** Data model *)

(** Heap blocks are numbered. *)
Abbreviation block := nat (only parsing).

(** A pointer is null, or designates record [k] of heap block [b] ([Ptr b 0]
    is the address [calloc] returned for [b]), or the payload ([data]) of
    that record, or it is an indeterminate value (the contents of storage
    that [realloc] added and nobody wrote yet). *)
Inductive ptr :=
| NULL
| Ptr (b : block) (k : nat)
| Data (b : block) (k : nat)
| Wild.

Global Instance ptr_eq_dec : EqDecision ptr.
Proof. solve_decision. Defined.

Inductive _active := NOT_IN_USE | IN_USE.

Global Instance _active_eq_dec : EqDecision _active.
Proof. solve_decision. Defined.

(** [struct _ab_t]: the usage flag and the payload bytes. *)
Record _ab_t := mk_ab { in_use : _active; data : list Z }.

Global Instance _ab_t_eq_dec : EqDecision _ab_t.
Proof. solve_decision. Defined.

(** [struct _op_allocator]. *)
Record _op_allocator := mk_allocator {
  object_size : Z;
  initial_count : Z;
  maximum_objects : Z;
  use_chunks : bool;
  use_linear : bool;
  initialized : bool;
  pool : ptr
}.

Global Instance _op_allocator_eq_dec : EqDecision _op_allocator.
Proof. solve_decision. Defined.

Definition set_maximum_objects (n : Z) (a : _op_allocator) : _op_allocator :=
  mk_allocator (object_size a) (initial_count a) n (use_chunks a)
               (use_linear a) (initialized a) (pool a).

Definition set_initialized (v : bool) (a : _op_allocator) : _op_allocator :=
  mk_allocator (object_size a) (initial_count a) (maximum_objects a)
               (use_chunks a) (use_linear a) v (pool a).

Definition set_pool (p : ptr) (a : _op_allocator) : _op_allocator :=
  mk_allocator (object_size a) (initial_count a) (maximum_objects a)
               (use_chunks a) (use_linear a) (initialized a) p.

Inductive op_ll_allocator_mode :=
| OP_DOUBLING_INDIVIDUAL
| OP_DOUBLING_CHUNK
| OP_LINEAR_INDIVIDUAL
| OP_LINEAR_CHUNK.

Record op_allocator_stats := mk_stats {
  st_object_size : Z;
  st_maximum_objects : Z;
  st_active_objects : Z
}.

Global Instance op_allocator_stats_eq_dec : EqDecision op_allocator_stats.
Proof. solve_decision. Defined.

(** ** The heap and the calls to the C library *)

Inductive obj :=
| OHandle (a : _op_allocator)
| OPool (slots : list ptr)
| OBlock (bytes : Z) (entries : list _ab_t).

Global Instance obj_eq_dec : EqDecision obj.
Proof. solve_decision. Defined.

Inductive event :=
| EvCalloc (nmemb size : Z) (r : ptr)
| EvRealloc (p : ptr) (size : Z) (r : ptr)
| EvFree (p : ptr)
| EvError (msg : string).

Global Instance event_eq_dec : EqDecision event.
Proof. solve_decision. Defined.

(** The state of the world: the heap (block [b] is entry [b] of the list, a
    released block leaves [None] behind and its number is never reused), the
    fate of the coming allocation requests ([false]: the request is refused;
    when the list is used up every request of admissible size is granted)
    and the log of the library calls made so far, oldest first. *)
Record sys := mk_sys {
  heap : list (option obj);
  plan : list bool;
  trace : list event
}.

Global Instance sys_eq_dec : EqDecision sys.
Proof. solve_decision. Defined.

(** A computation returns a value and a new state, or runs into undefined
    behaviour ([Fault]: a null, dangling or out-of-range access, an invalid
    [free]), or never returns ([Spin]). *)
Inductive outcome (A : Type) :=
| Ret (a : A) (s : sys)
| Fault
| Spin.
Arguments Ret {A} a s.
Arguments Fault {A}.
Arguments Spin {A}.

Definition M (A : Type) : Type := sys → outcome A.

Definition ret {A} (a : A) : M A := λ s, Ret a s.
Definition fault {A} : M A := λ _, Fault.
Definition spin {A} : M A := λ _, Spin.

Definition bind {A B} (m : M A) (f : A → M B) : M B :=
  λ s, match m s with
       | Ret a s' => f a s'
       | Fault => Fault
       | Spin => Spin
       end.

Declare Scope op_scope.
Delimit Scope op_scope with op.
Notation "'do' x <- m ; k" := (bind m (λ x, k))
  (at level 10, x name, m at level 100, k at level 200) : op_scope.
Notation "m ;; k" := (bind m (λ _, k))
  (at level 100, k at level 200, right associativity) : op_scope.
Local Open Scope op_scope.

Definition log (e : event) (s : sys) : sys :=
  mk_sys (heap s) (plan s) (trace s ++ [e]).

(** [op_error_handler(__FILE__, __LINE__, msg)]: the weak default does
    nothing; the log keeps the message. *)
Definition op_error_handler (msg : string) : M unit :=
  λ s, Ret tt (log (EvError msg) s).

Definition granted (s : sys) (bytes : Z) : bool :=
  hd true (plan s) && bool_decide (bytes ≤ PTRDIFF_MAX).

(** [calloc(nmemb, size)], the zeroed storage being read as [o]. *)
Definition calloc (nmemb size : Z) (o : obj) : M ptr :=
  λ s, if granted s (nmemb * size)
       then let p := Ptr (length (heap s)) 0 in
            Ret p (mk_sys (heap s ++ [Some o]) (tail (plan s))
                          (trace s ++ [EvCalloc nmemb size p]))
       else Ret NULL (mk_sys (heap s) (tail (plan s))
                             (trace s ++ [EvCalloc nmemb size NULL])).

Definition zero_allocator : _op_allocator :=
  mk_allocator 0 0 0 false false false NULL.

Definition zero_ab (object_size : Z) : _ab_t :=
  mk_ab NOT_IN_USE (replicate (Z.to_nat object_size) 0).

(** [calloc(nmemb, size)] for storage in which the caller lays out [count]
    records of [sizeof(_ab_t) + object_size] bytes each.  Laying out more
    records than the block can hold is undefined behaviour. *)
Definition calloc_ab (nmemb size : Z) (count : Z) (object_size : Z) : M ptr :=
  do p <- calloc nmemb size
            (OBlock (nmemb * size) (replicate (Z.to_nat count) (zero_ab object_size)));
  match p with
  | NULL => ret NULL
  | _ => if bool_decide (count * (sizeof_ab_t + object_size) ≤ nmemb * size)
         then ret p else fault
  end.

(** [realloc(p, size)] on a directory: a granted request moves the slots
    to a new block of [size / sizeof(_ab_t * )] slots, the added ones
    indeterminate; a refused one returns null and leaves [p] alone. *)
Definition realloc (p : ptr) (size : Z) : M ptr :=
  λ s,
    let resize (old : list ptr) (h : list (option obj)) :=
      if granted s size
      then let n := Z.to_nat (size / sizeof_ptr) in
           let r := Ptr (length (heap s)) 0 in
           Ret r (mk_sys (h ++ [Some (OPool (take n old ++ replicate (n - length old)%nat Wild))])
                         (tail (plan s))
                         (trace s ++ [EvRealloc p size r]))
      else Ret NULL (mk_sys (heap s) (tail (plan s))
                            (trace s ++ [EvRealloc p size NULL])) in
    match p with
    | NULL => resize [] (heap s)
    | Ptr d O =>
        match heap s !! d with
        | Some (Some (OPool slots)) => resize slots (<[d := None]> (heap s))
        | _ => Fault
        end
    | _ => Fault
    end.

(** [free(p)]. *)
Definition free (p : ptr) : M unit :=
  λ s, match p with
       | NULL => Ret tt (log (EvFree NULL) s)
       | Ptr b O =>
           match heap s !! b with
           | Some (Some _) =>
               Ret tt (mk_sys (<[b := None]> (heap s)) (plan s)
                              (trace s ++ [EvFree p]))
           | _ => Fault
           end
       | _ => Fault
       end.

(** Reading and writing the handle record [*allocator]. *)
Definition load (allocator : ptr) : M _op_allocator :=
  λ s, match allocator with
       | Ptr h O =>
           match heap s !! h with
           | Some (Some (OHandle a)) => Ret a s
           | _ => Fault
           end
       | _ => Fault
       end.

Definition store (allocator : ptr) (a : _op_allocator) : M unit :=
  λ s, match allocator with
       | Ptr h O =>
           match heap s !! h with
           | Some (Some (OHandle _)) =>
               Ret tt (mk_sys (<[h := Some (OHandle a)]> (heap s)) (plan s) (trace s))
           | _ => Fault
           end
       | _ => Fault
       end.

(** [pool[i]] as an rvalue and as an lvalue. *)
Definition pool_get (pool : ptr) (i : Z) : M ptr :=
  λ s, match pool with
       | Ptr d O =>
           match heap s !! d with
           | Some (Some (OPool slots)) =>
               if bool_decide (0 ≤ i)
               then match slots !! Z.to_nat i with
                    | Some p => Ret p s
                    | None => Fault
                    end
               else Fault
           | _ => Fault
           end
       | _ => Fault
       end.

Definition pool_set (pool : ptr) (i : Z) (v : ptr) : M unit :=
  λ s, match pool with
       | Ptr d O =>
           match heap s !! d with
           | Some (Some (OPool slots)) =>
               if bool_decide (0 ≤ i ∧ (Z.to_nat i < length slots)%nat)
               then Ret tt (mk_sys (<[d := Some (OPool (<[Z.to_nat i := v]> slots))]> (heap s))
                                   (plan s) (trace s))
               else Fault
           | _ => Fault
           end
       | _ => Fault
       end.

(** The record [*p]. *)
Definition ab_get (p : ptr) : M _ab_t :=
  λ s, match p with
       | Ptr b k =>
           match heap s !! b with
           | Some (Some (OBlock _ es)) =>
               match es !! k with
               | Some e => Ret e s
               | None => Fault
               end
           | _ => Fault
           end
       | _ => Fault
       end.

Definition ab_set (p : ptr) (e : _ab_t) : M unit :=
  λ s, match p with
       | Ptr b k =>
           match heap s !! b with
           | Some (Some (OBlock n es)) =>
               match es !! k with
               | Some _ =>
                   Ret tt (mk_sys (<[b := Some (OBlock n (<[k := e]> es))]> (heap s))
                                  (plan s) (trace s))
               | None => Fault
               end
           | _ => Fault
           end
       | _ => Fault
       end.

(** [p->in_use = v]. *)
Definition set_in_use (p : ptr) (v : _active) : M unit :=
  do e <- ab_get p; ab_set p (mk_ab v (data e)).

(** [p->data]: the address of the payload of the record [p] points to.
    There is no such record when [p] is null: the member access is
    undefined. *)
Definition data_of (p : ptr) : M ptr :=
  match p with
  | Ptr b k => ret (Data b k)
  | _ => fault
  end.

(** [memset(rv, 0, n)] on a payload address. *)
Definition memset0 (rv : ptr) (n : Z) : M unit :=
  match rv with
  | Data b k =>
      do e <- ab_get (Ptr b k);
      if bool_decide (Z.to_nat n ≤ length (data e))%nat
      then ab_set (Ptr b k)
             (mk_ab (in_use e) (replicate (Z.to_nat n) 0 ++ drop (Z.to_nat n) (data e)))
      else fault
  | _ => fault
  end.

(** ** The pool engine *)

(** [fill_chunks]: one block for [object_count] records, whose addresses go
    to the directory slots [offset .. offset + object_count - 1].  The loop
    [for (i = 0; i < object_count; i++)] is unrolled on its trip count;
    [&chunk[i * entry_size]] is record [i] of the block. *)
Fixpoint fill_loop (n : nat) (i : Z) (allocator : ptr) (chunk : block) (offset : Z)
  : M unit :=
  match n with
  | O => ret tt
  | S n' =>
      do a <- load allocator;
      pool_set (pool a) (wrap (i + offset)) (Ptr chunk (Z.to_nat i));;
      fill_loop n' (i + 1) allocator chunk offset
  end.

Definition fill_chunks (allocator : ptr) (offset object_count : Z) : M bool :=
  do a <- load allocator;
  let entry_size := wrap (sizeof_ab_t + object_size a) in
  let chunk_size := wrap (object_count * entry_size) in
  do chunk <- calloc_ab object_count chunk_size object_count (object_size a);
  match chunk with
  | Ptr b _ =>
      fill_loop (Z.to_nat object_count) 0 allocator b offset;;
      ret true
  | _ =>
      op_error_handler "Could not fill chunks when initializing or expanding.";;
      ret false
  end.

(** The loop [for (i = old_size; i < new_size; i++) pool[i] = NULL]. *)
Fixpoint null_loop (n : nat) (i : Z) (allocator : ptr) : M unit :=
  match n with
  | O => ret tt
  | S n' =>
      do a <- load allocator;
      pool_set (pool a) i NULL;;
      null_loop n' (i + 1) allocator
  end.

Definition grow_pool (allocator : ptr) : M bool :=
  do a <- load allocator;
  let old_size := maximum_objects a in
  let grow_size := if use_linear a then initial_count a else old_size in
  let new_size := if use_linear a then wrap (old_size + grow_size)
                  else wrap (old_size * 2) in
  do p <- realloc (pool a) (wrap (sizeof_ptr * new_size));
  store allocator (set_pool p a);;
  match p with
  | NULL =>
      op_error_handler "Could not realloc while growing pool.";;
      ret false
  | _ =>
      null_loop (Z.to_nat (new_size - old_size)) old_size allocator;;
      do a' <- load allocator;
      store allocator (set_maximum_objects new_size a');;
      if use_chunks a' then fill_chunks allocator old_size grow_size
      else ret true
  end.

(** The scan of [op_ll_allocate_object], from slot [i] on, [n] slots left:
    the result is the payload handed out, or [NULL] when the loop ran to
    its end. *)
Fixpoint allocate_scan (n : nat) (i : Z) (allocator : ptr) : M ptr :=
  match n with
  | O => ret NULL
  | S n' =>
      do a <- load allocator;
      do p <- pool_get (pool a) i;
      match p with
      | NULL =>
          do q <- calloc_ab 1 (wrap (sizeof_ab_t + object_size a)) 1 (object_size a);
          pool_set (pool a) i q;;
          match q with
          | NULL =>
              op_error_handler "Could not allocate desired object.";;
              allocate_scan n' (i + 1) allocator
          | _ =>
              do rv <- data_of q;
              memset0 rv (object_size a);;
              set_in_use q IN_USE;;
              ret rv
          end
      | _ =>
          do e <- ab_get p;
          match in_use e with
          | NOT_IN_USE =>
              do rv <- data_of p;
              memset0 rv (object_size a);;
              set_in_use p IN_USE;;
              ret rv
          | IN_USE => allocate_scan n' (i + 1) allocator
          end
      end
  end.

(** The part of [op_ll_allocate_object] between the label [retry] and the
    end of the guarded block.  Every [goto retry] follows a [grow_pool] that
    returned true; [fuel] bounds the number of passes and [Spin] stands for
    a run that keeps growing for ever. *)
Fixpoint allocate_retry (fuel : nat) (allocator : ptr) : M ptr :=
  match fuel with
  | O => spin
  | S fuel' =>
      do a <- load allocator;
      do rv <- allocate_scan (Z.to_nat (maximum_objects a)) 0 allocator;
      match rv with
      | NULL =>
          do grown <- grow_pool allocator;
          if grown : bool then allocate_retry fuel' allocator
          else (op_error_handler "Unable to grow allocation pool.";; ret NULL)
      | _ => ret rv
      end
  end.

(** A pass that comes back empty-handed after a successful growth has seen
    a refused [calloc]: two passes more than there are planned refusals are
    enough for every handle whose growth step is not zero. *)
Definition retry_fuel (s : sys) : nat := S (S (length (plan s))).

Definition op_ll_allocate_object (allocator : ptr) : M ptr :=
  do rv <-
    (match allocator with
     | NULL =>
         op_error_handler "Attempted to allocate from uninitialized allocator.";;
         ret NULL
     | _ =>
         do a <- load allocator;
         if initialized a
         then λ s, allocate_retry (retry_fuel s) allocator s
         else (op_error_handler "Attempted to allocate from uninitialized allocator.";;
               ret NULL)
     end);
  match rv with
  | NULL => op_error_handler "Could not allocate desired object.";; ret rv
  | _ => ret rv
  end.

(** The scan of [op_ll_deallocate_object]. *)
Fixpoint deallocate_scan (n : nat) (i : Z) (allocator object : ptr) : M unit :=
  match n with
  | O => ret tt
  | S n' =>
      do a <- load allocator;
      do p <- pool_get (pool a) i;
      do d <- data_of p;
      if bool_decide (d = object)
      then set_in_use p NOT_IN_USE
      else deallocate_scan n' (i + 1) allocator object
  end.

Definition op_ll_deallocate_object (allocator object : ptr) : M unit :=
  if bool_decide (allocator ≠ NULL) && bool_decide (object ≠ NULL)
  then do a <- load allocator;
       deallocate_scan (Z.to_nat (maximum_objects a)) 0 allocator object
  else op_error_handler "Invalid allocator or object while deallocating.".

(** The three [free] loops of [op_ll_deinitialize_allocator] differ by
    their start and by their step ([i++], [i += initial_count], [i <<= 1]).
    A loop whose index never reaches [maximum_objects] does not end. *)
Fixpoint free_groups (fuel : nat) (step : Z → Z) (i : Z) (allocator : ptr) : M unit :=
  do a <- load allocator;
  if bool_decide (i < maximum_objects a)
  then match fuel with
       | O => spin
       | S fuel' =>
           do p <- pool_get (pool a) i;
           free p;;
           free_groups fuel' step (step i) allocator
       end
  else ret tt.

Definition op_ll_deinitialize_allocator (allocator : ptr) : M unit :=
  match allocator with
  | NULL =>
      op_error_handler "Attempted to deinitialize an allocator that was not initialized."
  | _ =>
      do a <- load allocator;
      if initialized a
      then
        store allocator (set_initialized false a);;
        let fuel := Z.to_nat (maximum_objects a) in
        (if use_chunks a
         then if use_linear a
              then free_groups fuel (λ i, wrap (i + initial_count a)) 0 allocator
              else (do p <- pool_get (pool a) 0;
                    free p;;
                    free_groups fuel (λ i, wrap (Z.shiftl i 1)) (initial_count a) allocator)
         else free_groups fuel (λ i, wrap (i + 1)) 0 allocator);;
        free (pool a);;
        free allocator
      else
        op_error_handler "Attempted to deinitialize an allocator that was not initialized."
  end.

(** The counting loop of [op_ll_get_allocator_stats]:
    [for (i = 0; i < maximum_objects && pool[i] != NULL; i++)]. *)
Fixpoint stats_scan (n : nat) (i : Z) (allocator : ptr) (active : Z) : M Z :=
  match n with
  | O => ret active
  | S n' =>
      do a <- load allocator;
      do p <- pool_get (pool a) i;
      match p with
      | NULL => ret active
      | _ =>
          do e <- ab_get p;
          stats_scan n' (i + 1) allocator
            (match in_use e with IN_USE => wrap (active + 1) | NOT_IN_USE => active end)
      end
  end.

Definition op_ll_get_allocator_stats (allocator : ptr) : M op_allocator_stats :=
  match allocator with
  | NULL => ret (mk_stats 0 0 0)
  | _ =>
      do a <- load allocator;
      if initialized a
      then do n <- stats_scan (Z.to_nat (maximum_objects a)) 0 allocator 0;
           ret (mk_stats (object_size a) (maximum_objects a) n)
      else ret (mk_stats 0 0 0)
  end.

Definition mode_flags (mode : op_ll_allocator_mode) : bool * bool :=
  match mode with
  | OP_DOUBLING_INDIVIDUAL => (false, false)
  | OP_DOUBLING_CHUNK => (true, false)
  | OP_LINEAR_INDIVIDUAL => (false, true)
  | OP_LINEAR_CHUNK => (true, true)
  end.

Definition op_ll_initialize_allocator (object_size initial_count : Z)
    (mode : op_ll_allocator_mode) : M ptr :=
  let '(use_chunks, use_linear) := mode_flags mode in
  do rv <- calloc 1 sizeof_op_allocator (OHandle zero_allocator);
  match rv with
  | NULL =>
      op_error_handler "Could not allocate space for allocator handle.";;
      ret NULL
  | _ =>
      let a := mk_allocator object_size initial_count initial_count
                            use_chunks use_linear true NULL in
      store rv a;;
      do p <- calloc initial_count sizeof_ptr
                (OPool (replicate (Z.to_nat initial_count) NULL));
      store rv (set_pool p a);;
      match p with
      | NULL =>
          free rv;;
          op_error_handler "Could not allocate internal space for allocator.";;
          ret NULL
      | _ =>
          if use_chunks
          then do filled <- fill_chunks rv 0 initial_count;
               if filled : bool then ret rv
               else (free p;; free rv;; ret NULL)
          else ret rv
      end
  end.

(** ** Running the engine *)

Definition boot (pl : list bool) : sys := mk_sys [] pl [].

(** The state and the handle after [n] further calls to
    [op_ll_allocate_object]. *)
Fixpoint allocate_many (n : nat) (allocator : ptr) : M (list ptr) :=
  match n with
  | O => ret []
  | S n' =>
      do p <- op_ll_allocate_object allocator;
      do ps <- allocate_many n' allocator;
      ret (p :: ps)
  end.

(** ** The high-level interface *)

(** [OP_HL_DECLARE_ALLOCATOR(TYPE, COUNT, MODE)] declares the static handle
    [TYPE##_allocator] and four functions over it; [allocate_##TYPE] has a
    static flag [initialized] of its own.  Both statics start out zeroed. *)
Record statics := mk_statics {
  TYPE_allocator : ptr;
  allocate_TYPE_initialized : bool
}.

Definition statics_0 : statics := mk_statics NULL false.

Section OP_HL_DECLARE_ALLOCATOR.

Variables (sizeof_TYPE COUNT : Z) (MODE : op_ll_allocator_mode).

Definition initialize_TYPE_allocator (g : statics) : M statics :=
  do h <- op_ll_initialize_allocator sizeof_TYPE COUNT MODE;
  ret (mk_statics h (allocate_TYPE_initialized g)).

Definition allocate_TYPE (g : statics) : M (ptr * statics) :=
  do g1 <- (if allocate_TYPE_initialized g then ret g
            else do g' <- initialize_TYPE_allocator g;
                 ret (mk_statics (TYPE_allocator g') true));
  do rv <- op_ll_allocate_object (TYPE_allocator g1);
  ret (rv, g1).

Definition deallocate_TYPE (g : statics) (object : ptr) : M unit :=
  op_ll_deallocate_object (TYPE_allocator g) object.

Definition deinitialize_TYPE_allocator (g : statics) : M unit :=
  op_ll_deinitialize_allocator (TYPE_allocator g).

(** A caller that allocates [n] objects in a row. *)
Fixpoint allocate_TYPE_many (n : nat) (g : statics) : M (list ptr * statics) :=
  match n with
  | O => ret ([], g)
  | S n' =>
      do r <- allocate_TYPE g;
      do rs <- allocate_TYPE_many n' r.2;
      ret (r.1 :: rs.1, rs.2)
  end.

End OP_HL_DECLARE_ALLOCATOR.

(** ** Observations on states and logs *)

(** The library calls that the log keeps apart. *)
Definition is_error (e : event) : bool :=
  match e with EvError _ => true | _ => false end.
Definition is_realloc (e : event) : bool :=
  match e with EvRealloc _ _ _ => true | _ => false end.
Definition is_free (e : event) : bool :=
  match e with EvFree _ => true | _ => false end.

Definition tally (f : event → bool) (s : sys) : nat :=
  length (List.filter f (trace s)).


(** The record a slot value points to, if it points to one. *)
Definition record_at (hp : list (option obj)) (p : ptr) : option _ab_t :=
  match p with
  | Ptr b k =>
      match hp !! b with
      | Some (Some (OBlock _ es)) => es !! k
      | _ => None
      end
  | _ => None
  end.

(** The payload address [p->data] of a slot value. *)
Definition payload (p : ptr) : ptr :=
  match p with
  | Ptr b k => Data b k
  | _ => NULL
  end.

Definition in_use_at (hp : list (option obj)) (p : ptr) : bool :=
  match record_at hp p with
  | Some e => bool_decide (in_use e = IN_USE)
  | None => false
  end.

(** The slots of a directory that are in use. *)
Definition active (hp : list (option obj)) (slots : list ptr) : list ptr :=
  filter (λ p, in_use_at hp p = true) slots.

(** A slot with backing storage: it points to a record whose payload has
    [object_size] bytes. *)
Definition backed_slot (hp : list (option obj)) (os : Z) (p : ptr) : Prop :=
  ∃ e, record_at hp p = Some e ∧ length (data e) = Z.to_nat os.

(** The shape of an initialized handle (the invariants of the data model):
    block [h] holds the handle record [a], whose directory [d] has
    [maximum_objects] slots; the slots with backing storage come first,
    without gaps, they point to distinct records, and the rest is null. *)
Record pool_inv (hp : list (option obj)) (h : block) (a : _op_allocator)
    (d : block) (backed : list ptr) (m : nat) : Prop := {
  inv_handle : hp !! h = Some (Some (OHandle a));
  inv_initialized : initialized a = true;
  inv_pool : pool a = Ptr d 0;
  inv_dir : hp !! d = Some (Some (OPool (backed ++ replicate m NULL)));
  inv_len : Z.of_nat (length backed + m) = maximum_objects a;
  inv_cap : sizeof_ptr * maximum_objects a ≤ PTRDIFF_MAX;
  inv_step : 0 < initial_count a ≤ maximum_objects a;
  inv_size : 0 ≤ object_size a;
  inv_backed : Forall (backed_slot hp (object_size a)) backed;
  inv_nodup : NoDup backed
}.

Definition initialized_handle (s : sys) (allocator : ptr) : Prop :=
  ∃ h a d backed m, allocator = Ptr h 0 ∧ pool_inv (heap s) h a d backed m.

(** The slots of the directory of a handle, and its record. *)
Definition handle_of (s : sys) (allocator : ptr) : option _op_allocator :=
  match load allocator s with
  | Ret a _ => Some a
  | _ => None
  end.

Definition slots_of (s : sys) (allocator : ptr) : list ptr :=
  match handle_of s allocator with
  | Some a =>
      match pool a with
      | Ptr d O =>
          match heap s !! d with
          | Some (Some (OPool slots)) => slots
          | _ => []
          end
      | _ => []
      end
  | None => []
  end.

(** The payload addresses of the objects a handle has out. *)
Definition live_objects (s : sys) (allocator : ptr) : list ptr :=
  payload <$> active (heap s) (slots_of s allocator).

(** A call was successful when it returned and the error hook, the only
    failure signal of the engine, was not invoked in its course. *)
Definition quiet (s s' : sys) : Prop := tally is_error s' = tally is_error s.

Definition le_errors (s s' : sys) : Prop :=
  (tally is_error s ≤ tally is_error s')%nat.

(** The records of a chunk, as [fill_chunks] stores them. *)
Definition chunk_slots (b : block) (n : nat) : list ptr := Ptr b <$> seq 0 n.

(** What a scan of [op_ll_allocate_object] that hands a record out has
    done: the record [p] was not in use and is now, no other record has
    changed its flag, and the directory is the same, or has [p] in its
    first null slot when [p] is a record that [calloc] just returned. *)
Definition found (s s' : sys) (h : block) (a : _op_allocator) (d : block)
    (backed : list ptr) (m : nat) (rv : ptr) : Prop :=
  ∃ p backed' m',
    rv = payload p ∧ p ∈ backed' ∧ pool_inv (heap s') h a d backed' m' ∧
    in_use_at (heap s') p = true ∧ in_use_at (heap s) p = false ∧
    (∀ q, q ≠ p → in_use_at (heap s') q = in_use_at (heap s) q) ∧
    ((backed' = backed ∧ m' = m ∧ trace s' = trace s) ∨
     (backed' = backed ++ [p] ∧ m = S m' ∧
      ∃ nm sz, trace s' = trace s ++ [EvCalloc nm sz p])).

(** The handle record after one growth step that moved the directory to
    block [nd]. *)
Definition grown (a : _op_allocator) (nd : block) : _op_allocator :=
  set_maximum_objects
    (maximum_objects a + if use_linear a then initial_count a else maximum_objects a)
    (set_pool (Ptr nd 0) a).

(** ** Callers *)

(** A caller that allocates objects and releases objects it holds. *)
Inductive call :=
| Allocate
| Deallocate (object : ptr).

Global Instance call_eq_dec : EqDecision call.
Proof. solve_decision. Defined.

(** Running a sequence of calls that all succeed: every allocation returns
    an object and reports nothing through the error hook, and every release
    is that of an object the caller holds.  The result is the list of the
    objects allocated and not yet released, with the final state. *)
Fixpoint run_successful (allocator : ptr) (cs : list call) (held : list ptr) (s : sys)
  : option (list ptr * sys) :=
  match cs with
  | [] => Some (held, s)
  | Allocate :: cs' =>
      match op_ll_allocate_object allocator s with
      | Ret rv s1 =>
          if bool_decide (rv ≠ NULL ∧ tally is_error s1 = tally is_error s)
          then run_successful allocator cs' (rv :: held) s1
          else None
      | _ => None
      end
  | Deallocate object :: cs' =>
      if bool_decide (object ∈ held)
      then match op_ll_deallocate_object allocator object s with
           | Ret _ s1 =>
               run_successful allocator cs' (filter (λ q, q ≠ object) held) s1
           | _ => None
           end
      else None
  end.

Definition allocations (cs : list call) : nat :=
  length (filter (λ c, c = Allocate) cs).

Definition deallocations (cs : list call) : nat :=
  length (filter (λ c, c ≠ Allocate) cs).

(** The caller's list and the directory agree: the objects held are, without
    repetition, the payloads of the slots in use. *)
Definition tracks (s : sys) (allocator : ptr) (held : list ptr) : Prop :=
  ∃ h a d backed m,
    allocator = Ptr h 0 ∧ pool_inv (heap s) h a d backed m ∧
    NoDup held ∧ ∀ x, x ∈ held ↔ x ∈ payload <$> active (heap s) backed.

(** [n] growth steps in a row; the result tells whether all succeeded. *)
Fixpoint grow_times (n : nat) (allocator : ptr) : M bool :=
  match n with
  | O => ret true
  | S n' =>
      do ok <- grow_pool allocator;
      if ok : bool then grow_times n' allocator else ret false
  end.

(** A caller that allocates nine objects, releases two of them and
    allocates once more. *)
Definition nine_then_two : list call :=
  replicate 9 Allocate ++ [Deallocate (Data 4 0); Deallocate (Data 9 0); Allocate].

(** A handle that is not in the initialized state: a null handle, or a
    handle whose record says so. *)
Definition not_initialized (s : sys) (allocator : ptr) : Prop :=
  allocator = NULL ∨ ∃ a, handle_of s allocator = Some a ∧ initialized a = false.

(** ** Groups of slots *)

(** A group is a block and the number of its records; the slots of a list
    of groups, and the directory offsets at which the groups start. *)
Definition group_slots (groups : list (block * nat)) : list ptr :=
  concat ((λ g, chunk_slots g.1 g.2) <$> groups).

Fixpoint group_starts (off : Z) (groups : list (block * nat)) : list Z :=
  match groups with
  | [] => []
  | g :: r => off :: group_starts (off + Z.of_nat g.2) r
  end.

Definition group_bases (groups : list (block * nat)) : list ptr :=
  (λ g, Ptr g.1 0) <$> groups.

(** The expected group offsets: [0, C, 2C, ..., nC] under linear growth,
    [0] and then [C, 2C, 4C, ..., 2^(n-1) C] under doubling growth. *)
Definition linear_starts (C : Z) (n : nat) : list Z :=
  (λ k, Z.of_nat k * C) <$> seq 0 (S n).

Definition doubling_starts (C : Z) (n : nat) : list Z :=
  0 :: ((λ k, C * 2 ^ Z.of_nat k) <$> seq 0 n).

Definition expected_starts (linear : bool) (C : Z) (n : nat) : list Z :=
  if linear then linear_starts C n else doubling_starts C n.

Definition capacity_after (linear : bool) (C : Z) (n : nat) : Z :=
  if linear then C + Z.of_nat n * C else C * 2 ^ Z.of_nat n.

(** The pointers [calloc] returned, in the order of a log. *)
Definition callocs (tr : list event) : list ptr :=
  omap (λ e, match e with EvCalloc _ _ r => Some r | _ => None end) tr.

(** The heap after the blocks [bs] were released one after the other. *)
Definition release (bs : list block) (hp : list (option obj)) : list (option obj) :=
  foldl (λ hp b, <[b := None]> hp) hp bs.

(** The offsets a [free] loop visits: it starts at [i], goes from an offset
    to the next by [step] and stops at the first one that is not below
    [max]. *)
Fixpoint walk (step : Z → Z) (max : Z) (i : Z) (offs : list Z) : Prop :=
  match offs with
  | [] => ¬ i < max
  | o :: r => o = i ∧ 0 ≤ i < max ∧ walk step max (step i) r
  end.

(** A handle of capacity one and two allocations: the second one has to
    grow the pool. *)
Definition two_allocations : M (ptr * ptr * ptr) :=
  do h <- op_ll_initialize_allocator 8 1 OP_DOUBLING_INDIVIDUAL;
  do p1 <- op_ll_allocate_object h;
  do p2 <- op_ll_allocate_object h;
  ret (h, p1, p2).

(** A handle of capacity four, one allocation, and the release of a pointer
    that is no payload of the directory. *)
Definition foreign_deallocate (mode : op_ll_allocator_mode) : M unit :=
  do h <- op_ll_initialize_allocator 8 4 mode;
  op_ll_allocate_object h;;
  op_ll_deallocate_object h (Data 7 0).

(** A handle is created and released at once. *)
Definition released_handle : M ptr :=
  do h <- op_ll_initialize_allocator 8 4 OP_DOUBLING_INDIVIDUAL;
  op_ll_deinitialize_allocator h;;
  ret h.

(** The shape of a chunked pool after initialization and [n] growth steps:
    the directory is made of [n + 1] groups, one per call to [fill_chunks],
    each group being the records of one block in their order; the groups
    start at the expected offsets, their blocks are what [calloc]
    returned after the handle and the first directory, and [n] is the number
    of times [realloc] was called. *)
Record groups_inv (s0 s : sys) (C : Z) (h : block) (a : _op_allocator) (d : block)
    (groups : list (block * nat)) (n : nat) : Prop := {
  gi_pool : pool_inv (heap s) h a d (group_slots groups) 0;
  gi_chunks : use_chunks a = true;
  gi_count : initial_count a = C;
  gi_max : maximum_objects a = capacity_after (use_linear a) C n;
  gi_pos : Forall (λ g, 0 < g.2)%nat groups;
  gi_len : length groups = S n;
  gi_starts : group_starts 0 groups = expected_starts (use_linear a) C n;
  gi_callocs : ∃ d0 tr, trace s = trace s0 ++ tr ∧
                        callocs tr = Ptr h 0 :: d0 :: group_bases groups;
  gi_reallocs : tally is_realloc s = (tally is_realloc s0 + n)%nat
}.

(** The groups with the offsets at which they start. *)
Fixpoint located (off : Z) (groups : list (block * nat)) : list (Z * block) :=
  match groups with
  | [] => []
  | g :: r => (off, g.1) :: located (off + Z.of_nat g.2) r
  end.
(** ** Allocation requests that are all granted *)

(** No refusal is planned: every request of admissible size is granted. *)
Definition never_refused (s : sys) : Prop := Forall (λ b, b = true) (plan s).

(** The state in which a record sits after it was handed out. *)
Definition handed_out (allocator : ptr) (s' : sys) (rv : ptr) : Prop :=
  ∃ p a e,
    rv = payload p ∧ handle_of s' allocator = Some a ∧
    p ∈ slots_of s' allocator ∧
    record_at (heap s') p = Some e ∧ in_use e = IN_USE ∧
    take (Z.to_nat (object_size a)) (data e) = replicate (Z.to_nat (object_size a)) 0.

(** A pool of one record that was used and released: its payload still
    holds what the caller wrote. *)
Definition used_pool : sys :=
  mk_sys [Some (OHandle (mk_allocator 8 1 1 false false true (Ptr 1 0)));
          Some (OPool [Ptr 2 0]);
          Some (OBlock 12 [mk_ab NOT_IN_USE [1; 2; 3; 4; 5; 6; 7; 8]])]
         [] [].

(** The slots that come before the first null slot of a directory. *)
Fixpoint leading (slots : list ptr) : list ptr :=
  match slots with
  | [] => []
  | NULL :: _ => []
  | p :: r => p :: leading r
  end.

(** A pool in which a refused request has left a null slot in front of a
    record in use: the state after one allocation on a handle of capacity
    two when the first request for a record is refused and the second is
    granted. *)
Definition gapped_pool : sys :=
  match (do h <- op_ll_initialize_allocator 8 2 OP_DOUBLING_INDIVIDUAL;
         op_ll_allocate_object h) (boot [true; true; false]) with
  | Ret _ s => s
  | _ => boot []
  end.

(** ** What a call leaves alone *)

(** Every record other than the one behind [rv] is as it was. *)
Definition records_kept (rv : ptr) (s s' : sys) : Prop :=
  ∀ q e, payload q ≠ rv → record_at (heap s) q = Some e → record_at (heap s') q = Some e.

Definition is_record_block (o : obj) : bool :=
  match o with OBlock _ _ => true | _ => false end.

(** Every handle record and every directory outside [P] is as it was, and
    no block has gone. *)
Definition dirs_kept (P : block → Prop) (s s' : sys) : Prop :=
  (length (heap s) ≤ length (heap s'))%nat ∧
  ∀ b o, ¬ P b → heap s !! b = Some (Some o) → is_record_block o = false →
         heap s' !! b = Some (Some o).

Definition untouched (rv : ptr) (P : block → Prop) (s s' : sys) : Prop :=
  records_kept rv s s' ∧ dirs_kept P s s'.


(** ** Pools with individual layout *)




(** ** Requests that are refused *)

(** A handle with individual layout and capacity [C], and one allocation. *)
Definition first_allocation (C : Z) : M (ptr * ptr) :=
  do h <- op_ll_initialize_allocator 8 C OP_DOUBLING_INDIVIDUAL;
  do p <- op_ll_allocate_object h;
  ret (h, p).

(** A handle of capacity two and [n] allocations in a row. *)
Definition allocations_of_two (mode : op_ll_allocator_mode) (n : nat)
  : M (ptr * list ptr) :=
  do h <- op_ll_initialize_allocator 8 2 mode;
  do ps <- allocate_many n h;
  ret (h, ps).
(** ** Reasoning about runs *)

Lemma bind_Ret {A B} (m : M A) (f : A → M B) s b s' :
  bind m f s = Ret b s' → ∃ a s1, m s = Ret a s1 ∧ f a s1 = Ret b s'.
Proof.
  unfold bind. destruct (m s) as [a s1| |]; [|done..]. intros H. eauto.
Qed.

Lemma bind_run {A B} (m : M A) (f : A → M B) s a s1 :
  m s = Ret a s1 → bind m f s = f a s1.
Proof. unfold bind. by intros ->. Qed.

Lemma ret_Ret {A} (a b : A) s s' : ret a s = Ret b s' → a = b ∧ s = s'.
Proof. unfold ret. by intros [= -> ->]. Qed.

(** *** The primitives, read backwards *)

Lemma load_Ret p s a s' :
  load p s = Ret a s' →
  ∃ h, p = Ptr h 0 ∧ heap s !! h = Some (Some (OHandle a)) ∧ s' = s.
Proof.
  unfold load. destruct p as [|h [|k]| |]; try done.
  destruct (heap s !! h) as [[[a'| |]|]|] eqn:E; try done.
  intros [= -> ->]. eauto.
Qed.

Lemma load_run s h a :
  heap s !! h = Some (Some (OHandle a)) → load (Ptr h 0) s = Ret a s.
Proof. unfold load. by intros ->. Qed.

Lemma store_Ret p a s u s' :
  store p a s = Ret u s' →
  ∃ h a0, p = Ptr h 0 ∧ heap s !! h = Some (Some (OHandle a0)) ∧
          s' = mk_sys (<[h := Some (OHandle a)]> (heap s)) (plan s) (trace s).
Proof.
  unfold store. destruct p as [|h [|k]| |]; try done.
  destruct (heap s !! h) as [[[a'| |]|]|] eqn:E; try done.
  intros [= <-]. eauto.
Qed.

Lemma store_run s h a0 a :
  heap s !! h = Some (Some (OHandle a0)) →
  store (Ptr h 0) a s = Ret tt (mk_sys (<[h := Some (OHandle a)]> (heap s)) (plan s) (trace s)).
Proof. unfold store. by intros ->. Qed.

Lemma pool_get_Ret pl i s p s' :
  pool_get pl i s = Ret p s' →
  ∃ d slots, pl = Ptr d 0 ∧ heap s !! d = Some (Some (OPool slots)) ∧
             0 ≤ i ∧ slots !! Z.to_nat i = Some p ∧ s' = s.
Proof.
  unfold pool_get. destruct pl as [|d [|k]| |]; try done.
  destruct (heap s !! d) as [[[|slots|]|]|] eqn:E; try done.
  case_bool_decide; [|done].
  destruct (slots !! Z.to_nat i) eqn:E'; [|done].
  intros [= -> ->]. eauto 10.
Qed.

Lemma pool_get_run s d slots i p :
  heap s !! d = Some (Some (OPool slots)) → 0 ≤ i →
  slots !! Z.to_nat i = Some p →
  pool_get (Ptr d 0) i s = Ret p s.
Proof.
  unfold pool_get. intros -> Hi ->. by rewrite bool_decide_true.
Qed.

Lemma pool_set_Ret pl i v s u s' :
  pool_set pl i v s = Ret u s' →
  ∃ d slots, pl = Ptr d 0 ∧ heap s !! d = Some (Some (OPool slots)) ∧
             0 ≤ i ∧ (Z.to_nat i < length slots)%nat ∧
             s' = mk_sys (<[d := Some (OPool (<[Z.to_nat i := v]> slots))]> (heap s))
                         (plan s) (trace s).
Proof.
  unfold pool_set. destruct pl as [|d [|k]| |]; try done.
  destruct (heap s !! d) as [[[|slots|]|]|] eqn:E; try done.
  case_bool_decide as Hi; [|done].
  intros [= <-]. destruct Hi. eauto 10.
Qed.

Lemma pool_set_run s d slots i v :
  heap s !! d = Some (Some (OPool slots)) → 0 ≤ i →
  (Z.to_nat i < length slots)%nat →
  pool_set (Ptr d 0) i v s =
    Ret tt (mk_sys (<[d := Some (OPool (<[Z.to_nat i := v]> slots))]> (heap s))
                   (plan s) (trace s)).
Proof.
  unfold pool_set. intros -> Hi Hl. by rewrite bool_decide_true.
Qed.

Lemma ab_get_Ret p s e s' :
  ab_get p s = Ret e s' →
  ∃ b k n es, p = Ptr b k ∧ heap s !! b = Some (Some (OBlock n es)) ∧
              es !! k = Some e ∧ s' = s.
Proof.
  unfold ab_get. destruct p as [|b k| |]; try done.
  destruct (heap s !! b) as [[[| |n es]|]|] eqn:E; try done.
  destruct (es !! k) eqn:E'; [|done].
  intros [= -> ->]. eauto 10.
Qed.

Lemma ab_get_run s b k n es e :
  heap s !! b = Some (Some (OBlock n es)) → es !! k = Some e →
  ab_get (Ptr b k) s = Ret e s.
Proof. unfold ab_get. by intros -> ->. Qed.

Lemma ab_set_Ret p e s u s' :
  ab_set p e s = Ret u s' →
  ∃ b k n es e0, p = Ptr b k ∧ heap s !! b = Some (Some (OBlock n es)) ∧
                 es !! k = Some e0 ∧
                 s' = mk_sys (<[b := Some (OBlock n (<[k := e]> es))]> (heap s))
                             (plan s) (trace s).
Proof.
  unfold ab_set. destruct p as [|b k| |]; try done.
  destruct (heap s !! b) as [[[| |n es]|]|] eqn:E; try done.
  destruct (es !! k) eqn:E'; [|done].
  intros [= <-]. eauto 10.
Qed.

Lemma ab_set_run s b k n es e0 e :
  heap s !! b = Some (Some (OBlock n es)) → es !! k = Some e0 →
  ab_set (Ptr b k) e s =
    Ret tt (mk_sys (<[b := Some (OBlock n (<[k := e]> es))]> (heap s)) (plan s) (trace s)).
Proof. unfold ab_set. by intros -> ->. Qed.

Lemma data_of_Ret p s q s' :
  data_of p s = Ret q s' → ∃ b k, p = Ptr b k ∧ q = Data b k ∧ s' = s.
Proof.
  destruct p as [|b k| |]; try done. intros [= <- <-]. eauto.
Qed.

Lemma op_error_handler_Ret msg s u s' :
  op_error_handler msg s = Ret u s' → s' = log (EvError msg) s.
Proof. by intros [= <-]. Qed.

Lemma calloc_Ret nmemb size o s p s' :
  calloc nmemb size o s = Ret p s' →
  (p = Ptr (length (heap s)) 0 ∧ nmemb * size ≤ PTRDIFF_MAX ∧
   s' = mk_sys (heap s ++ [Some o]) (tail (plan s)) (trace s ++ [EvCalloc nmemb size p])) ∨
  (p = NULL ∧
   s' = mk_sys (heap s) (tail (plan s)) (trace s ++ [EvCalloc nmemb size NULL])).
Proof.
  unfold calloc, granted. destruct (hd true (plan s)); simpl.
  - case_bool_decide; intros [= <- <-]; eauto.
  - intros [= <- <-]; eauto.
Qed.

Lemma calloc_run nmemb size o s :
  hd true (plan s) = true → nmemb * size ≤ PTRDIFF_MAX →
  calloc nmemb size o s =
    Ret (Ptr (length (heap s)) 0)
        (mk_sys (heap s ++ [Some o]) (tail (plan s))
                (trace s ++ [EvCalloc nmemb size (Ptr (length (heap s)) 0)])).
Proof.
  intros Hp Hn. unfold calloc, granted. rewrite Hp. simpl.
  by rewrite bool_decide_true.
Qed.

Lemma calloc_ab_Ret nmemb size count os s p s' :
  calloc_ab nmemb size count os s = Ret p s' →
  (p = Ptr (length (heap s)) 0 ∧ nmemb * size ≤ PTRDIFF_MAX ∧
   count * (sizeof_ab_t + os) ≤ nmemb * size ∧
   s' = mk_sys (heap s ++ [Some (OBlock (nmemb * size)
                                     (replicate (Z.to_nat count) (zero_ab os)))])
               (tail (plan s)) (trace s ++ [EvCalloc nmemb size p])) ∨
  (p = NULL ∧
   s' = mk_sys (heap s) (tail (plan s)) (trace s ++ [EvCalloc nmemb size NULL])).
Proof.
  unfold calloc_ab. intros H. apply bind_Ret in H as (q & s1 & Hc & H).
  apply calloc_Ret in Hc as [(-> & Hn & ->)|(-> & ->)].
  - case_bool_decide; [|done]. apply ret_Ret in H as [<- <-]. left. eauto.
  - apply ret_Ret in H as [<- <-]. right. eauto.
Qed.

Lemma calloc_ab_run nmemb size count os s :
  hd true (plan s) = true → nmemb * size ≤ PTRDIFF_MAX →
  count * (sizeof_ab_t + os) ≤ nmemb * size →
  calloc_ab nmemb size count os s =
    Ret (Ptr (length (heap s)) 0)
        (mk_sys (heap s ++ [Some (OBlock (nmemb * size)
                                      (replicate (Z.to_nat count) (zero_ab os)))])
                (tail (plan s))
                (trace s ++ [EvCalloc nmemb size (Ptr (length (heap s)) 0)])).
Proof.
  intros Hp Hn Hc. unfold calloc_ab.
  erewrite bind_run by (by apply calloc_run).
  by rewrite bool_decide_true.
Qed.

Lemma free_Ret p s u s' :
  free p s = Ret u s' →
  (p = NULL ∧ s' = log (EvFree NULL) s) ∨
  (∃ b o, p = Ptr b 0 ∧ heap s !! b = Some (Some o) ∧
          s' = mk_sys (<[b := None]> (heap s)) (plan s) (trace s ++ [EvFree p])).
Proof.
  unfold free. destruct p as [|b [|k]| |]; try done.
  - intros [= <-]. by left.
  - destruct (heap s !! b) as [[o|]|] eqn:E; try done.
    intros [= <-]. right. eauto.
Qed.

Lemma free_run s b o :
  heap s !! b = Some (Some o) →
  free (Ptr b 0) s =
    Ret tt (mk_sys (<[b := None]> (heap s)) (plan s) (trace s ++ [EvFree (Ptr b 0)])).
Proof. unfold free. by intros ->. Qed.

(** *** The loops that write the directory *)

Lemma sys_eta s : mk_sys (heap s) (plan s) (trace s) = s.
Proof. by destruct s. Qed.

Lemma wrap_small z : 0 ≤ z ≤ SIZE_MAX → wrap z = z.
Proof. unfold wrap, SIZE_MAX. intros ?. apply Z.mod_small. lia. Qed.

Lemma null_loop_run n : ∀ pre ws i s h a d,
  heap s !! h = Some (Some (OHandle a)) →
  pool a = Ptr d 0 →
  heap s !! d = Some (Some (OPool (pre ++ ws))) →
  length ws = n → i = Z.of_nat (length pre) →
  null_loop n i (Ptr h 0) s =
    Ret tt (mk_sys (<[d := Some (OPool (pre ++ replicate n NULL))]> (heap s))
                   (plan s) (trace s)).
Proof.
  induction n as [|n IH]; intros pre ws i s h a d Hh Hp Hd Hn Hi.
  - destruct ws; [|done]. simpl. unfold ret.
    rewrite list_insert_id by done. by rewrite sys_eta.
  - destruct ws as [|w ws]; [done|]. simpl in Hn. simpl.
    rewrite (bind_run _ _ _ _ _ (load_run _ _ _ Hh)). rewrite Hp.
    assert (Z.to_nat i = length pre) as Hi' by lia.
    erewrite bind_run; last first.
    { eapply pool_set_run; [exact Hd|lia|]. rewrite length_app. simpl. lia. }
    rewrite Hi'.
    replace (<[length pre := NULL]> (pre ++ w :: ws)) with ((pre ++ [NULL]) ++ ws); last first.
    { rewrite <- (Nat.add_0_r (length pre)) at 1. rewrite insert_app_r. simpl.
      by rewrite <- app_assoc. }
    erewrite (IH (pre ++ [NULL]) ws); [| |exact Hp| | |]; simpl.
    + rewrite list_insert_insert_eq. by rewrite <- app_assoc.
    + rewrite list_lookup_insert_ne; [exact Hh|].
      intros ->. congruence.
    + apply list_lookup_insert_eq. by eapply lookup_lt_Some.
    + lia.
    + rewrite length_app. simpl. lia.
Qed.

Lemma fill_loop_run n : ∀ pre done ws i s h a d b offset,
  heap s !! h = Some (Some (OHandle a)) →
  pool a = Ptr d 0 →
  heap s !! d = Some (Some (OPool (pre ++ done ++ ws))) →
  length ws = n → offset = Z.of_nat (length pre) → i = Z.of_nat (length done) →
  offset + i + Z.of_nat n ≤ SIZE_MAX →
  fill_loop n i (Ptr h 0) b offset s =
    Ret tt (mk_sys (<[d := Some (OPool (pre ++ done ++ (Ptr b <$> seq (length done) n)))]>
                      (heap s))
                   (plan s) (trace s)).
Proof.
  induction n as [|n IH]; intros pre dn ws i s h a d b offset Hh Hp Hd Hn Ho Hi Hb.
  - destruct ws; [|done]. simpl. unfold ret.
    rewrite list_insert_id by done. by rewrite sys_eta.
  - destruct ws as [|w ws]; [done|]. simpl in Hn. simpl.
    rewrite (bind_run _ _ _ _ _ (load_run _ _ _ Hh)). rewrite Hp.
    rewrite wrap_small by lia.
    assert (Z.to_nat (i + offset) = (length (pre ++ dn) + 0)%nat) as Hi'.
    { rewrite length_app. lia. }
    erewrite bind_run; last first.
    { eapply pool_set_run; [exact Hd|lia|]. rewrite !length_app. simpl. lia. }
    rewrite Hi'. rewrite (app_assoc pre dn (w :: ws)), insert_app_r. simpl.
    replace (Z.to_nat i) with (length dn) by lia.
    erewrite (IH pre (dn ++ [Ptr b (length dn)]) ws); [| |exact Hp| | | | |]; simpl.
    + rewrite list_insert_insert_eq. rewrite length_app. simpl.
      rewrite <- !app_assoc. simpl. by rewrite Nat.add_1_r.
    + rewrite list_lookup_insert_ne; [exact Hh|]. intros ->. congruence.
    + rewrite list_lookup_insert_eq by (by eapply lookup_lt_Some).
      by rewrite <- !app_assoc.
    + lia.
    + done.
    + rewrite length_app. simpl. lia.
    + lia.
Qed.

(** *** Error reports only accumulate *)

Global Instance le_errors_preorder : PreOrder le_errors.
Proof. split; unfold le_errors; [intros ?; lia|intros ???; lia]. Qed.

Ltac run_inv :=
  repeat match goal with
    | H : bind _ _ _ = Ret _ _ |- _ =>
        let a := fresh "x" in let s := fresh "s" in let H1 := fresh "Hrun" in
        apply bind_Ret in H as (a & s & H1 & H)
    | H : ret _ _ = Ret _ _ |- _ => apply ret_Ret in H as [? ?]; subst
    | H : load _ _ = Ret _ _ |- _ => apply load_Ret in H as (? & ? & ? & ?); subst
    | H : store _ _ _ = Ret _ _ |- _ => apply store_Ret in H as (? & ? & ? & ? & ?); subst
    | H : pool_get _ _ _ = Ret _ _ |- _ =>
        apply pool_get_Ret in H as (? & ? & ? & ? & ? & ? & ?); subst
    | H : pool_set _ _ _ _ = Ret _ _ |- _ =>
        apply pool_set_Ret in H as (? & ? & ? & ? & ? & ? & ?); subst
    | H : ab_get _ _ = Ret _ _ |- _ =>
        apply ab_get_Ret in H as (? & ? & ? & ? & ? & ? & ? & ?); subst
    | H : ab_set _ _ _ = Ret _ _ |- _ =>
        apply ab_set_Ret in H as (? & ? & ? & ? & ? & ? & ? & ? & ?); subst
    | H : data_of _ _ = Ret _ _ |- _ => apply data_of_Ret in H as (? & ? & ? & ? & ?); subst
    | H : op_error_handler _ _ = Ret _ _ |- _ => apply op_error_handler_Ret in H; subst
    | H : @eq ptr _ _ |- _ => discriminate H
    | H : fault _ = Ret _ _ |- _ => discriminate H
    | H : spin _ = Ret _ _ |- _ => discriminate H
    end.

Ltac err_solve :=
  unfold le_errors, log, tally in *; simpl in *;
  rewrite ?List.filter_app, ?length_app in *; simpl in *; lia.

Lemma set_in_use_errors p v s u s' : set_in_use p v s = Ret u s' → le_errors s s'.
Proof. unfold set_in_use. intros H. run_inv. err_solve. Qed.

Lemma memset0_errors p n s u s' : memset0 p n s = Ret u s' → le_errors s s'.
Proof.
  unfold memset0. destruct p; try done. intros H. run_inv.
  case_bool_decide; run_inv. err_solve.
Qed.

Lemma calloc_ab_errors nm sz c os s p s' :
  calloc_ab nm sz c os s = Ret p s' → le_errors s s'.
Proof.
  intros H. apply calloc_ab_Ret in H as [(-> & _ & _ & ->)|(-> & ->)]; err_solve.
Qed.

Lemma realloc_errors p sz s q s' : realloc p sz s = Ret q s' → le_errors s s'.
Proof.
  unfold realloc. intros H.
  assert (∃ h pl e, s' = mk_sys h pl (trace s ++ [e]) ∧ is_error e = false)
    as (h & pl & e & -> & He).
  { destruct p as [|d [|k]| |]; try done.
    - destruct (granted s sz); injection H as <- <-; eauto.
    - destruct (heap s !! d) as [[[| |]|]|]; try done.
      destruct (granted s sz); injection H as <- <-; eauto. }
  unfold le_errors, tally. simpl. rewrite List.filter_app, length_app. lia.
Qed.

Ltac err_facts :=
  repeat match goal with
    | H : calloc_ab _ _ _ _ _ = Ret _ _ |- _ => apply calloc_ab_errors in H
    | H : realloc _ _ _ = Ret _ _ |- _ => apply realloc_errors in H
    | H : memset0 _ _ _ = Ret _ _ |- _ => apply memset0_errors in H
    | H : set_in_use _ _ _ = Ret _ _ |- _ => apply set_in_use_errors in H
    end.

Lemma fill_loop_errors n : ∀ i p b off s u s',
  fill_loop n i p b off s = Ret u s' → le_errors s s'.
Proof.
  induction n as [|n IH]; simpl; intros i p b off s u s' H; run_inv; [done|].
  apply IH in H. err_solve.
Qed.

Lemma null_loop_errors n : ∀ i p s u s',
  null_loop n i p s = Ret u s' → le_errors s s'.
Proof.
  induction n as [|n IH]; simpl; intros i p s u s' H; run_inv; [done|].
  apply IH in H. err_solve.
Qed.

Lemma fill_chunks_errors p off n s r s' :
  fill_chunks p off n s = Ret r s' → le_errors s s'.
Proof.
  unfold fill_chunks. intros H. run_inv. err_facts.
  match goal with H : match ?x with _ => _ end _ = _ |- _ => destruct x end;
    run_inv; try err_solve.
  match goal with H : fill_loop _ _ _ _ _ _ = _ |- _ => apply fill_loop_errors in H end.
  err_solve.
Qed.

Lemma grow_pool_errors p s r s' : grow_pool p s = Ret r s' → le_errors s s'.
Proof.
  unfold grow_pool. intros H. run_inv. err_facts.
  match goal with H : match ?x with _ => _ end _ = _ |- _ => destruct x end;
    run_inv; try err_solve.
  all: match goal with H : null_loop _ _ _ _ = _ |- _ => apply null_loop_errors in H end.
  all: match goal with H : (if ?c then _ else _) _ = _ |- _ => destruct c end; run_inv.
  all: try match goal with H : fill_chunks _ _ _ _ = _ |- _ => apply fill_chunks_errors in H end.
  all: err_solve.
Qed.

Lemma allocate_scan_errors n : ∀ i p s rv s',
  allocate_scan n i p s = Ret rv s' → le_errors s s'.
Proof.
  induction n as [|n IH]; simpl; intros i p s rv s' H; run_inv; [done|].
  match goal with H : match ?x with _ => _ end _ = _ |- _ => destruct x end; run_inv.
  - match goal with H : match ?x with _ => _ end _ = _ |- _ => destruct x end;
      run_inv; err_facts; try err_solve.
    apply IH in H. err_solve.
  - match goal with H : match ?x with _ => _ end _ = _ |- _ => destruct x end;
      run_inv; err_facts; try err_solve.
    apply IH in H. err_solve.
Qed.

Lemma allocate_retry_errors fuel : ∀ p s rv s',
  allocate_retry fuel p s = Ret rv s' → le_errors s s'.
Proof.
  induction fuel as [|fuel IH]; simpl; intros p s rv s' H; run_inv.
  match goal with H : allocate_scan _ _ _ _ = _ |- _ => apply allocate_scan_errors in H end.
  match goal with H : match ?x with _ => _ end _ = _ |- _ => destruct x end;
    run_inv; try err_solve.
  match goal with H : grow_pool _ _ = _ |- _ => apply grow_pool_errors in H end.
  match goal with H : (if ?c then _ else _) _ = _ |- _ => destruct c end; run_inv.
  - apply IH in H. err_solve.
  - err_solve.
Qed.

(** *** Growing a well-formed pool *)

Lemma lookup_snoc_at {A} (l : list A) x i : i = length l → (l ++ [x]) !! i = Some x.
Proof. intros ->. rewrite lookup_app_r by lia. by rewrite Nat.sub_diag. Qed.

Ltac len :=
  repeat (rewrite length_insert || rewrite length_app || rewrite length_replicate);
  simpl; lia.

Lemma realloc_dir s d slots size q s' :
  heap s !! d = Some (Some (OPool slots)) →
  realloc (Ptr d 0) size s = Ret q s' →
  (q = NULL ∧
   s' = mk_sys (heap s) (tail (plan s)) (trace s ++ [EvRealloc (Ptr d 0) size NULL])) ∨
  (size ≤ PTRDIFF_MAX ∧ q = Ptr (length (heap s)) 0 ∧
   s' = mk_sys (<[d := None]> (heap s) ++
                  [Some (OPool (take (Z.to_nat (size / sizeof_ptr)) slots ++
                                replicate (Z.to_nat (size / sizeof_ptr) - length slots) Wild))])
               (tail (plan s))
               (trace s ++ [EvRealloc (Ptr d 0) size (Ptr (length (heap s)) 0)])).
Proof.
  unfold realloc, granted. intros ->.
  destruct (hd true (plan s)); simpl.
  - case_bool_decide; intros [= <- <-]; [right|left]; eauto.
  - intros [= <- <-]. left; eauto.
Qed.

Lemma record_at_block hp p e :
  record_at hp p = Some e →
  ∃ b k n es, p = Ptr b k ∧ hp !! b = Some (Some (OBlock n es)) ∧ es !! k = Some e.
Proof.
  destruct p as [|b k| |]; try done. simpl.
  destruct (hp !! b) as [[[| |n es]|]|] eqn:E; try done. eauto 10.
Qed.

Lemma backed_slot_bound hp os p :
  backed_slot hp os p → ∃ b k, p = Ptr b k ∧ (b < length hp)%nat.
Proof.
  intros (e & He & _). apply record_at_block in He as (b & k & n & es & -> & Hb & _).
  exists b, k. split; [done|]. by eapply lookup_lt_Some.
Qed.

(** A record stays what it was as long as its block is not written. *)
Lemma record_at_frame hp hp' p e :
  record_at hp p = Some e →
  (∀ b n es, hp !! b = Some (Some (OBlock n es)) → hp' !! b = Some (Some (OBlock n es))) →
  record_at hp' p = Some e.
Proof.
  intros He Hf. apply record_at_block in He as (b & k & n & es & -> & Hb & Hk).
  simpl. by rewrite (Hf _ _ _ Hb).
Qed.

Lemma chunk_slots_NoDup b n : NoDup (chunk_slots b n).
Proof.
  unfold chunk_slots. apply NoDup_fmap_2; [|apply NoDup_seq].
  by intros ?? [= ->].
Qed.

Lemma chunk_slots_elem b n p : p ∈ chunk_slots b n ↔ ∃ k, p = Ptr b k ∧ (k < n)%nat.
Proof.
  unfold chunk_slots. rewrite list_elem_of_fmap. split.
  - intros (k & -> & Hk). apply elem_of_seq in Hk. exists k. split; [done|lia].
  - intros (k & -> & Hk). exists k. split; [done|]. apply elem_of_seq. lia.
Qed.

Lemma length_chunk_slots b n : length (chunk_slots b n) = n.
Proof. unfold chunk_slots. by rewrite length_fmap, length_seq. Qed.

Lemma quiet_le s s1 s' : quiet s s' → le_errors s s1 → le_errors s1 s' → quiet s s1.
Proof. unfold quiet, le_errors. lia. Qed.

(** What a growth step that reported nothing has done: the directory has
    moved to a fresh block, it has [grow_size] slots more, and under chunked
    layout these point to the records of one fresh block. *)
Lemma grow_pool_quiet s h a d backed m r s' :
  pool_inv (heap s) h a d backed m →
  (use_chunks a = true → m = 0%nat) →
  grow_pool (Ptr h 0) s = Ret r s' →
  quiet s s' →
  let g := if use_linear a then initial_count a else maximum_objects a in
  let nd := length (heap s) in
  let a' := set_maximum_objects (maximum_objects a + g) (set_pool (Ptr nd 0) a) in
  let size := sizeof_ptr * (maximum_objects a + g) in
  r = true ∧
  (∀ b n es, heap s !! b = Some (Some (OBlock n es)) →
             heap s' !! b = Some (Some (OBlock n es))) ∧
  (∀ q, in_use_at (heap s') q = in_use_at (heap s) q) ∧
  if use_chunks a
  then
    pool_inv (heap s') h a' nd (backed ++ chunk_slots (S nd) (Z.to_nat g)) 0 ∧
    heap s' !! S nd =
      Some (Some (OBlock (g * wrap (g * wrap (sizeof_ab_t + object_size a)))
                         (replicate (Z.to_nat g) (zero_ab (object_size a))))) ∧
    trace s' = trace s ++
      [EvRealloc (Ptr d 0) size (Ptr nd 0);
       EvCalloc g (wrap (g * wrap (sizeof_ab_t + object_size a))) (Ptr (S nd) 0)]
  else
    pool_inv (heap s') h a' nd backed (m + Z.to_nat g) ∧
    trace s' = trace s ++ [EvRealloc (Ptr d 0) size (Ptr nd 0)].
Proof.
  intros Hinv Hm H Hq g nd a' size.
  destruct Hinv as [Hh Hini Hp Hd Hlen Hcap Hstep Hos Hb Hnd].
  assert (nd = length (heap s)) as Hndl by done. clearbody nd.
  assert (0 < g ≤ maximum_objects a) as Hg.
  { subst g. destruct (use_linear a); lia. }
  unfold PTRDIFF_MAX, sizeof_ptr in Hcap.
  assert ((if use_linear a then wrap (maximum_objects a + g)
           else wrap (maximum_objects a * 2)) = maximum_objects a + g) as Hnew.
  { subst g. destruct (use_linear a); rewrite wrap_small; unfold SIZE_MAX; lia. }
  unfold grow_pool in H.
  rewrite (bind_run _ _ _ _ _ (load_run _ _ _ Hh)) in H.
  fold g in H. rewrite Hnew in H.
  replace (maximum_objects a + g - maximum_objects a) with g in H by lia.
  rewrite (wrap_small (sizeof_ptr * _)) in H by (unfold SIZE_MAX, sizeof_ptr; lia).
  fold size in H.
  apply bind_Ret in H as (q & s1 & Hr & H). rewrite Hp in Hr.
  apply (realloc_dir _ _ _ _ _ _ Hd) in Hr as [(-> & ->)|(Hsz & -> & ->)].
  { (* refused: an error is reported *)
    exfalso. run_inv. revert Hq. unfold quiet. err_solve. }
  rewrite <- Hndl in H.
  assert (Z.to_nat (size / sizeof_ptr) = (length backed + m + Z.to_nat g)%nat) as Hn.
  { subst size. rewrite Z.mul_comm, Z.div_mul by done. lia. }
  rewrite Hn in H. rewrite take_ge in H by len.
  replace (length backed + m + Z.to_nat g - length (backed ++ replicate m NULL))%nat
    with (Z.to_nat g) in H by len.
  assert (h ≠ d) as Hhd by (intros ->; congruence).
  assert (h < nd)%nat as Hhlt by (rewrite Hndl; by eapply lookup_lt_Some).
  assert (d < nd)%nat as Hdlt by (rewrite Hndl; by eapply lookup_lt_Some).
  set (hp1 := <[d:=None]> (heap s) ++ _) in H.
  assert (length hp1 = S nd) as Hl1 by (subst hp1; len).
  assert (hp1 !! h = Some (Some (OHandle a))) as Hh1.
  { subst hp1. rewrite lookup_app_l by len. by rewrite list_lookup_insert_ne. }
  assert (hp1 !! nd =
    Some (Some (OPool ((backed ++ replicate m NULL) ++ replicate (Z.to_nat g) Wild)))) as Hd1.
  { subst hp1. apply lookup_snoc_at. len. }
  assert (∀ b, b < nd → b ≠ d → hp1 !! b = heap s !! b)%nat as Hf1.
  { intros b Hblt Hbd. subst hp1.
    rewrite lookup_app_l by len. by rewrite list_lookup_insert_ne. }
  assert (hp1 !! d = Some None) as Hdead1.
  { subst hp1. rewrite lookup_app_l by len. apply list_lookup_insert_eq. lia. }
  clearbody hp1.
  (* allocator->pool = ... *)
  erewrite bind_run in H by (eapply store_run; simpl; exact Hh1).
  simpl in H.
  (* the new slots are nulled *)
  erewrite bind_run in H; last first.
  { eapply (null_loop_run _ (backed ++ replicate m NULL) (replicate (Z.to_nat g) Wild)); simpl.
    - apply list_lookup_insert_eq. lia.
    - reflexivity.
    - rewrite list_lookup_insert_ne by lia. exact Hd1.
    - rewrite length_replicate. lia.
    - len. }
  simpl in H.
  erewrite bind_run in H; last first.
  { eapply load_run. simpl.
    rewrite list_lookup_insert_ne by lia. apply list_lookup_insert_eq. lia. }
  erewrite bind_run in H; last first.
  { eapply store_run. simpl.
    rewrite list_lookup_insert_ne by lia. apply list_lookup_insert_eq. lia. }
  simpl in H. fold a' in H.
  set (hp4 := <[h:=Some (OHandle a')]> _) in H.
  assert (length hp4 = S nd) as Hl4 by (subst hp4; len).
  assert (hp4 !! h = Some (Some (OHandle a'))) as Hh4.
  { subst hp4. apply list_lookup_insert_eq. len. }
  assert (hp4 !! nd =
            Some (Some (OPool ((backed ++ replicate m NULL) ++ replicate (Z.to_nat g) NULL))))
    as Hd4.
  { subst hp4. rewrite list_lookup_insert_ne by lia.
    apply list_lookup_insert_eq. len. }
  assert (∀ b, b < nd → b ≠ d → b ≠ h → hp4 !! b = heap s !! b)%nat as Hf4.
  { intros b Hblt Hbd Hbh. subst hp4.
    rewrite !list_lookup_insert_ne by lia. eauto. }
  assert (hp4 !! d = Some None) as Hdead4.
  { subst hp4. by rewrite !list_lookup_insert_ne by lia. }
  clearbody hp4.
  assert (∀ hp5 : list (option obj),
            (∀ b, b < nd → hp5 !! b = hp4 !! b)%nat →
            ∀ b n es, heap s !! b = Some (Some (OBlock n es)) →
                      hp5 !! b = Some (Some (OBlock n es))) as Hblk.
  { intros hp5 H5 b n es Hbk.
    assert (b < nd)%nat by (rewrite Hndl; by eapply lookup_lt_Some).
    rewrite H5 by lia. rewrite Hf4; [done|lia|..]; intros ->; congruence. }
  assert (∀ hp5 : list (option obj),
            (∀ b, b < nd → hp5 !! b = hp4 !! b)%nat →
            (∃ sl, hp5 !! nd = Some (Some (OPool sl))) →
            (∀ k, in_use_at hp5 (Ptr (S nd) k) = false) →
            (∀ b, S nd < b → hp5 !! b = None)%nat →
            ∀ q, in_use_at hp5 q = in_use_at (heap s) q) as Huse.
  { intros hp5 H5 [sl Hsl] Hnew5 Hbig q. destruct q as [|b k| |]; try done.
    destruct (decide (b ≤ nd)%nat) as [Hle|Hgt].
    - unfold in_use_at, record_at.
      destruct (decide (b = nd)) as [->|Hbn].
      { rewrite Hsl. by rewrite (lookup_ge_None_2 (heap s) nd) by lia. }
      rewrite H5 by lia.
      destruct (decide (b = h)) as [->|Hbh]; [by rewrite Hh4, Hh|].
      destruct (decide (b = d)) as [->|Hbd]; [by rewrite Hdead4, Hd|].
      by rewrite Hf4 by lia.
    - destruct (decide (b = S nd)) as [->|Hbs].
      + rewrite Hnew5. unfold in_use_at, record_at.
        by rewrite (lookup_ge_None_2 (heap s) (S nd)) by lia.
      + unfold in_use_at, record_at. rewrite Hbig by lia.
        by rewrite (lookup_ge_None_2 (heap s) b) by lia. }
  destruct (use_chunks a) eqn:Hch; simpl in H.
  - (* chunked: one block for the new slots *)
    specialize (Hm eq_refl). subst m. simpl in *. rewrite app_nil_r in *.
    unfold fill_chunks in H.
    erewrite bind_run in H by (by apply load_run).
    simpl in H.
    apply bind_Ret in H as (chunk & s2 & Hc & H).
    apply calloc_ab_Ret in Hc as [(-> & Hbytes & Hfit & ->)|(-> & ->)]; last first.
    { exfalso. run_inv. revert Hq. unfold quiet. err_solve. }
    simpl in H. rewrite Hl4 in H.
    erewrite bind_run in H; last first.
    { eapply (fill_loop_run _ backed [] (replicate (Z.to_nat g) NULL)); simpl.
      - rewrite lookup_app_l by lia. exact Hh4.
      - reflexivity.
      - rewrite lookup_app_l by lia. exact Hd4.
      - by rewrite length_replicate.
      - lia.
      - done.
      - unfold SIZE_MAX. lia. }
    apply ret_Ret in H as [<- <-]. simpl.
    split; [done|].
    match goal with |- ?P ∧ ?Q => assert P as Hf5; [|split; [exact Hf5|]] end.
    { apply Hblk. intros b Hble.
      rewrite list_lookup_insert_ne by lia. by rewrite lookup_app_l by lia. }
    split.
    { apply Huse.
      - intros b Hble.
        rewrite list_lookup_insert_ne by lia. by rewrite lookup_app_l by lia.
      - eexists. apply list_lookup_insert_eq. len.
      - intros k. unfold in_use_at, record_at.
        rewrite list_lookup_insert_ne by lia. rewrite lookup_snoc_at by lia.
        destruct (replicate _ _ !! k) as [e|] eqn:Hk; [|done].
        apply lookup_replicate_1 in Hk as [-> _]. done.
      - intros b Hblt. apply lookup_ge_None_2. len. }
    split; [|split].
    + split; simpl.
      * rewrite list_lookup_insert_ne by lia. by rewrite lookup_app_l by lia.
      * done.
      * done.
      * rewrite app_nil_r. by rewrite list_lookup_insert_eq by len.
      * rewrite length_app, length_chunk_slots. lia.
      * unfold PTRDIFF_MAX, sizeof_ptr. unfold PTRDIFF_MAX, size, sizeof_ptr in Hsz. lia.
      * lia.
      * done.
      * apply Forall_app. split.
        -- eapply Forall_impl; [exact Hb|]. intros p (e & He & Hle).
           exists e. split; [|done]. eapply record_at_frame; [exact He|exact Hf5].
        -- apply Forall_forall. intros p Hp'.
           apply chunk_slots_elem in Hp' as (k & -> & Hk).
           exists (zero_ab (object_size a)). split.
           ++ simpl. rewrite list_lookup_insert_ne by lia.
              rewrite lookup_snoc_at by lia.
              by apply lookup_replicate_2.
           ++ simpl. by rewrite length_replicate.
      * apply NoDup_app. split; [done|]. split; [|apply chunk_slots_NoDup].
        intros p Hp1 Hp2. apply chunk_slots_elem in Hp2 as (k & -> & Hk).
        rewrite Forall_forall in Hb. apply Hb in Hp1.
        apply backed_slot_bound in Hp1 as (b & k' & [= <- <-] & Hlt). lia.
    + rewrite list_lookup_insert_ne by lia. by rewrite lookup_snoc_at by lia.
    + by rewrite <- app_assoc.
  - (* individual: nothing else to do *)
    apply ret_Ret in H as [<- <-]. simpl.
    split; [done|].
    assert (∀ b n es, heap s !! b = Some (Some (OBlock n es)) →
                      hp4 !! b = Some (Some (OBlock n es))) as Hf5.
    { by apply Hblk. }
    split; [done|]. split.
    { apply Huse; [done|by eexists| |].
      - intros k. unfold in_use_at, record_at.
        by rewrite (lookup_ge_None_2 hp4 (S nd)) by lia.
      - intros b Hblt. apply lookup_ge_None_2. lia. }
    split; [|done].
    split; simpl; try done.
    + rewrite <- app_assoc, <- replicate_add in Hd4. exact Hd4.
    + lia.
    + unfold PTRDIFF_MAX, sizeof_ptr. unfold PTRDIFF_MAX, size, sizeof_ptr in Hsz. lia.
    + eapply Forall_impl; [exact Hb|]. intros p (e & He & Hle).
      exists e. split; [|done]. eapply record_at_frame; [exact He|]. done.
Qed.

(** *** Writing one record *)

Lemma record_at_update hp b n es k e0 e' q :
  hp !! b = Some (Some (OBlock n es)) → es !! k = Some e0 →
  record_at (<[b := Some (OBlock n (<[k := e']> es))]> hp) q =
    if decide (q = Ptr b k) then Some e' else record_at hp q.
Proof.
  intros Hb Hk. case_decide as Hq.
  - subst q. simpl. rewrite list_lookup_insert_eq by (by eapply lookup_lt_Some).
    apply list_lookup_insert_eq. by eapply lookup_lt_Some.
  - destruct q as [|b' k'| |]; try done. simpl.
    destruct (decide (b' = b)) as [->|Hne].
    + rewrite list_lookup_insert_eq by (by eapply lookup_lt_Some).
      rewrite Hb. apply list_lookup_insert_ne. congruence.
    + by rewrite list_lookup_insert_ne.
Qed.

Lemma in_use_at_update hp b n es k e0 e' q :
  hp !! b = Some (Some (OBlock n es)) → es !! k = Some e0 →
  in_use_at (<[b := Some (OBlock n (<[k := e']> es))]> hp) q =
    if decide (q = Ptr b k) then bool_decide (in_use e' = IN_USE) else in_use_at hp q.
Proof.
  intros Hb Hk. unfold in_use_at. erewrite record_at_update by done.
  by case_decide.
Qed.

Lemma pool_inv_update hp h a d backed m b n es k e0 e' :
  pool_inv hp h a d backed m →
  hp !! b = Some (Some (OBlock n es)) → es !! k = Some e0 →
  length (data e') = Z.to_nat (object_size a) →
  pool_inv (<[b := Some (OBlock n (<[k := e']> es))]> hp) h a d backed m.
Proof.
  intros [Hh Hini Hp Hd Hlen Hcap Hstep Hos Hb Hnd] Hbk Hk Hl.
  split; try done.
  - rewrite list_lookup_insert_ne; [done|]. intros ->. congruence.
  - rewrite list_lookup_insert_ne; [done|]. intros ->. congruence.
  - eapply Forall_impl; [exact Hb|]. intros q (e & He & Hle).
    unfold backed_slot. erewrite record_at_update by done.
    case_decide; eauto.
Qed.

(** The three statements that hand a record out:
    [rv = p->data; memset(rv, 0, object_size); p->in_use = IN_USE]. *)
Lemma claim_record_run s b k n es e os :
  heap s !! b = Some (Some (OBlock n es)) → es !! k = Some e →
  length (data e) = Z.to_nat os →
  (do rv <- data_of (Ptr b k);
   memset0 rv os;;
   set_in_use (Ptr b k) IN_USE;;
   ret rv) s =
  Ret (Data b k)
      (mk_sys (<[b := Some (OBlock n (<[k := mk_ab IN_USE (replicate (Z.to_nat os) 0)]> es))]>
                 (heap s))
              (plan s) (trace s)).
Proof.
  intros Hb Hk Hl.
  assert (k < length es)%nat as Hlt by (by eapply lookup_lt_Some).
  assert (b < length (heap s))%nat as Hblt by (by eapply lookup_lt_Some).
  unfold data_of. unfold bind at 1. unfold ret at 1.
  unfold memset0.
  erewrite bind_run; last first.
  { erewrite bind_run by (by eapply ab_get_run).
    rewrite bool_decide_true by lia.
    by eapply ab_set_run. }
  rewrite <- Hl, drop_all, app_nil_r. simpl.
  unfold set_in_use.
  erewrite bind_run; last first.
  { erewrite bind_run; last first.
    { eapply ab_get_run; simpl.
      - by apply list_lookup_insert_eq.
      - by apply list_lookup_insert_eq. }
    eapply ab_set_run; simpl.
    - by apply list_lookup_insert_eq.
    - by apply list_lookup_insert_eq. }
  simpl. unfold ret. by rewrite !list_insert_insert_eq.
Qed.

(** *** The scan of allocate on a well-formed pool *)

Lemma allocate_scan_quiet : ∀ rest pre s h a d m rv s',
  pool_inv (heap s) h a d (pre ++ rest) m →
  Forall (λ p, in_use_at (heap s) p = true) pre →
  allocate_scan (length rest + m) (Z.of_nat (length pre)) (Ptr h 0) s = Ret rv s' →
  quiet s s' →
  (rv = NULL ∧ s' = s ∧ m = 0%nat ∧
   Forall (λ p, in_use_at (heap s) p = true) (pre ++ rest)) ∨
  found s s' h a d (pre ++ rest) m rv.
Proof.
  induction rest as [|p rest IH]; intros pre s h a d m rv s' Hinv Hpre H Hq.
  - (* only null slots are left *)
    rewrite app_nil_r in *. simpl in H.
    destruct m as [|m]; simpl in H.
    { apply ret_Ret in H as [<- <-]. left. done. }
    right.
    pose proof Hinv as [Hh Hini Hp Hd Hlen Hcap Hstep Hos Hb Hnd].
    rewrite (bind_run _ _ _ _ _ (load_run _ _ _ Hh)) in H. rewrite Hp in H.
    erewrite bind_run in H; last first.
    { eapply pool_get_run; [exact Hd|lia|].
      rewrite Nat2Z.id, lookup_app_r by lia. by rewrite Nat.sub_diag. }
    apply bind_Ret in H as (q & s1 & Hc & H).
    apply calloc_ab_Ret in Hc as [(-> & Hbytes & Hfit & ->)|(-> & ->)]; last first.
    { exfalso. run_inv.
      match goal with H : allocate_scan _ _ _ _ = _ |- _ =>
        apply allocate_scan_errors in H end.
      revert Hq. unfold quiet. err_solve. }
    set (nb := length (heap s)) in *.
    assert (h < nb)%nat as Hhlt by (by eapply lookup_lt_Some).
    assert (d < nb)%nat as Hdlt by (by eapply lookup_lt_Some).
    assert (h ≠ d) as Hhd by (intros ->; congruence).
    erewrite bind_run in H; last first.
    { eapply pool_set_run; simpl.
      - rewrite lookup_app_l by done. exact Hd.
      - lia.
      - len. }
    rewrite Nat2Z.id in H.
    rewrite <- (Nat.add_0_r (length pre)) in H at 1. rewrite insert_app_r in H.
    simpl in H.
    change (@ret ptr (Data nb 0)) with (data_of (Ptr nb 0)) in H.
    erewrite claim_record_run in H; simpl.
    2:{ rewrite list_lookup_insert_ne by lia. by apply lookup_snoc_at. }
    2:{ done. }
    2:{ simpl. by rewrite length_replicate. }
    injection H as <- <-. simpl.
    rewrite list_insert_insert_ne by lia.
    set (hp1 := <[nb:=_]> (heap s ++ _)).
    assert (∀ b, b < nb → b ≠ d → (<[d:=Some (OPool (pre ++ Ptr nb 0 :: replicate m NULL))]> hp1) !! b = heap s !! b)%nat as Hold.
    { intros b Hlt Hne. rewrite list_lookup_insert_ne by done. subst hp1.
      rewrite list_lookup_insert_ne by lia. by rewrite lookup_app_l. }
    assert (hp1 !! nb = Some (Some (OBlock (1 * wrap (sizeof_ab_t + object_size a))
              [mk_ab IN_USE (replicate (Z.to_nat (object_size a)) 0)]))) as Hnew.
    { subst hp1. rewrite list_lookup_insert_eq by len. done. }
    assert (length hp1 = S nb) as Hl1 by (subst hp1; len).
    clearbody hp1.
    assert (∀ q, q ≠ Ptr nb 0 →
              record_at (<[d:=Some (OPool (pre ++ Ptr nb 0 :: replicate m NULL))]> hp1) q =
              record_at (heap s) q) as Hrec.
    { intros [|b k| |] Hq'; try done. simpl.
      destruct (decide (b = d)) as [->|Hbd].
      { rewrite list_lookup_insert_eq by lia. by rewrite Hd. }
      rewrite list_lookup_insert_ne by done.
      destruct (decide (b = nb)) as [->|Hbn].
      { rewrite Hnew. rewrite (lookup_ge_None_2 (heap s) nb) by (subst nb; lia).
        destruct k; [done|]. done. }
      destruct (decide (b < nb)%nat).
      { specialize (Hold b). rewrite list_lookup_insert_ne in Hold by done.
        by rewrite Hold. }
      rewrite !lookup_ge_None_2 by lia. done. }
    exists (Ptr nb 0), (pre ++ [Ptr nb 0]), m.
    split; [done|]. split; [apply elem_of_app; right; by apply list_elem_of_singleton|].
    split; [|split; [|split; [|split]]]; cbn [heap trace plan].
    + split; try done.
      * by rewrite Hold by done.
      * rewrite list_lookup_insert_eq by lia. by rewrite <- app_assoc.
      * rewrite <- Hlen. len.
      * apply Forall_app. split.
        -- eapply Forall_impl; [exact Hb|]. intros q (e & He & Hle).
           exists e. split; [|done]. rewrite Hrec; [done|].
           intros ->. simpl in He.
           by rewrite (lookup_ge_None_2 (heap s) nb) in He by (subst nb; lia).
        -- apply Forall_singleton. eexists. split.
           ++ simpl. rewrite list_lookup_insert_ne by lia. rewrite Hnew. done.
           ++ simpl. by rewrite length_replicate.
      * apply NoDup_app. split; [done|]. split; [|apply NoDup_singleton].
        intros q Hq1 Hq2. apply list_elem_of_singleton in Hq2 as ->.
        rewrite Forall_forall in Hb. apply Hb in Hq1.
        apply backed_slot_bound in Hq1 as (b & k' & [= <- <-] & Hlt). subst nb. lia.
    + unfold in_use_at. simpl. rewrite list_lookup_insert_ne by lia. by rewrite Hnew.
    + unfold in_use_at. simpl.
      by rewrite (lookup_ge_None_2 (heap s) nb) by (subst nb; lia).
    + intros q Hq'. unfold in_use_at. by rewrite Hrec.
    + right. split; [done|]. split; [done|]. eauto.
  - (* a slot with backing storage *)
    pose proof Hinv as [Hh Hini Hp Hd Hlen Hcap Hstep Hos Hb Hnd].
    assert (backed_slot (heap s) (object_size a) p) as (e & He & Hle).
    { rewrite Forall_forall in Hb. apply Hb.
      apply elem_of_app. right. by left. }
    pose proof He as He'.
    apply record_at_block in He' as (b & k & n & es & -> & Hbk & Hk).
    simpl in H.
    rewrite (bind_run _ _ _ _ _ (load_run _ _ _ Hh)) in H. rewrite Hp in H.
    erewrite bind_run in H; last first.
    { eapply pool_get_run; [exact Hd|lia|].
      rewrite Nat2Z.id, <- app_assoc, lookup_app_r by lia.
      by rewrite Nat.sub_diag. }
    cbv beta iota in H.
    erewrite bind_run in H by (by eapply ab_get_run).
    destruct (in_use e) eqn:Hu.
    + (* free: it is handed out *)
      right.
      try change (@ret ptr (Data b k)) with (data_of (Ptr b k)) in H.
      erewrite claim_record_run in H by done.
      injection H as <- <-. simpl.
      exists (Ptr b k), (pre ++ Ptr b k :: rest), m.
      split; [done|].
      split; [apply elem_of_app; right; by left|].
      split; [|split; [|split; [|split]]]; cbn [heap trace plan].
      * eapply pool_inv_update; try done. simpl. by rewrite length_replicate.
      * erewrite in_use_at_update by done. by rewrite decide_True.
      * unfold in_use_at. rewrite He, Hu. done.
      * intros q Hq'. erewrite in_use_at_update by done. by rewrite decide_False.
      * by left.
    + (* in use: the scan goes on *)
      replace (Z.of_nat (length pre) + 1) with (Z.of_nat (length (pre ++ [Ptr b k])))
        in H by len.
      replace (pre ++ Ptr b k :: rest) with ((pre ++ [Ptr b k]) ++ rest) in Hinv |- *
        by (by rewrite <- app_assoc).
      eapply IH in H; [|exact Hinv| |done].
      * done.
      * apply Forall_app. split; [done|]. apply Forall_singleton.
        unfold in_use_at. rewrite He, Hu. done.
Qed.

(** *** A successful allocation on a well-formed pool *)

Lemma found_not_null s s' h a d backed m rv :
  found s s' h a d backed m rv → rv ≠ NULL.
Proof.
  intros (p & backed' & m' & -> & Hp & Hinv & _).
  destruct Hinv as [_ _ _ _ _ _ _ _ Hb _].
  rewrite Forall_forall in Hb. apply Hb in Hp.
  apply backed_slot_bound in Hp as (b & k & -> & _). done.
Qed.

Lemma tally_same_trace f s s' : trace s' = trace s → tally f s' = tally f s.
Proof. unfold tally. by intros ->. Qed.

Lemma tally_calloc_trace f s s' nm sz p :
  f (EvCalloc nm sz p) = false →
  trace s' = trace s ++ [EvCalloc nm sz p] → tally f s' = tally f s.
Proof.
  unfold tally. intros Hf ->. rewrite List.filter_app, length_app. simpl.
  rewrite Hf. simpl. lia.
Qed.

Lemma found_reallocs s s' h a d backed m rv :
  found s s' h a d backed m rv → tally is_realloc s' = tally is_realloc s.
Proof.
  intros (p & backed' & m' & _ & _ & _ & _ & _ & _ & [(_ & _ & Ht)|(_ & _ & nm & sz & Ht)]).
  - by apply tally_same_trace.
  - by eapply tally_calloc_trace.
Qed.

Lemma allocate_retry_S fuel allocator :
  allocate_retry (S fuel) allocator =
    (do a <- load allocator;
     do rv <- allocate_scan (Z.to_nat (maximum_objects a)) 0 allocator;
     match rv with
     | NULL =>
         do grown <- grow_pool allocator;
         if grown : bool then allocate_retry fuel allocator
         else (op_error_handler "Unable to grow allocation pool.";; ret NULL)
     | _ => ret rv
     end).
Proof. done. Qed.

Lemma allocate_quiet s h a d backed m rv s' :
  pool_inv (heap s) h a d backed m →
  op_ll_allocate_object (Ptr h 0) s = Ret rv s' →
  quiet s s' →
  ∃ a' d' backed' m' p,
    pool_inv (heap s') h a' d' backed' m' ∧
    rv = payload p ∧ p ∈ backed' ∧
    in_use_at (heap s') p = true ∧ in_use_at (heap s) p = false ∧
    (∀ q, q ≠ p → in_use_at (heap s') q = in_use_at (heap s) q) ∧
    (∀ q, q ∈ backed → q ∈ backed') ∧
    (∀ q, q ∈ backed' → q ∈ backed ∨ in_use_at (heap s) q = false) ∧
    ((a' = a ∧ d' = d ∧ tally is_realloc s' = tally is_realloc s ∧
      (m ≠ 0%nat ∨ ¬ Forall (λ q, in_use_at (heap s) q = true) backed) ∧
      (m = 0%nat → backed' = backed ∧ m' = 0%nat ∧ trace s' = trace s)) ∨
     (a' = grown a (length (heap s)) ∧ d' = length (heap s) ∧
      tally is_realloc s' = S (tally is_realloc s) ∧
      m = 0%nat ∧ Forall (λ q, in_use_at (heap s) q = true) backed ∧
      (use_chunks a = true →
       let g := if use_linear a then initial_count a else maximum_objects a in
       backed' = backed ++ chunk_slots (S (length (heap s))) (Z.to_nat g) ∧
       m' = 0%nat ∧
       ∃ sz1 sz2,
         trace s' = trace s ++ [EvRealloc (Ptr d 0) sz1 (Ptr (length (heap s)) 0);
                                EvCalloc g sz2 (Ptr (S (length (heap s))) 0)]))).
Proof.
  intros Hinv H Hq.
  pose proof Hinv as [Hh Hini Hp Hd Hlen Hcap Hstep Hos Hb Hnd].
  unfold op_ll_allocate_object in H.
  apply bind_Ret in H as (rv0 & s2 & H & Hend).
  rewrite (bind_run _ _ _ _ _ (load_run _ _ _ Hh)) in H. rewrite Hini in H.
  pose proof (allocate_retry_errors _ _ _ _ _ H) as Hle.
  assert (rv0 = rv ∧ s2 = s' ∧ rv ≠ NULL) as (-> & -> & Hrv).
  { destruct rv0; run_inv; try done.
    exfalso. revert Hq Hle. unfold quiet. err_solve. }
  clear Hend Hle.
  unfold retry_fuel in H. rewrite allocate_retry_S in H.
  rewrite (bind_run _ _ _ _ _ (load_run _ _ _ Hh)) in H.
  apply bind_Ret in H as (r1 & s1 & Hscan & H).
  pose proof (allocate_scan_errors _ _ _ _ _ _ Hscan) as Hle1.
  assert (le_errors s1 s') as Hle2.
  { destruct r1; run_inv; try done.
    match goal with H : grow_pool _ _ = _ |- _ => apply grow_pool_errors in H end.
    match goal with H : (if ?c then _ else _) _ = _ |- _ => destruct c end; run_inv.
    - apply allocate_retry_errors in H. err_solve.
    - err_solve. }
  rewrite <- Hlen in Hscan.
  replace (Z.to_nat (Z.of_nat (length backed + m))) with (length backed + m)%nat
    in Hscan by lia.
  apply (allocate_scan_quiet backed [] s h a d m) in Hscan;
    [|done|done|by eapply quiet_le].
  simpl in Hscan.
  destruct Hscan as [(-> & -> & -> & Hfull)|Hfound].
  - (* every slot is taken: the pool grows *)
    apply bind_Ret in H as (ok & s3 & Hgrow & H).
    pose proof (grow_pool_errors _ _ _ _ Hgrow) as Hle3.
    assert (le_errors s3 s') as Hle4.
    { destruct ok; run_inv; [by apply allocate_retry_errors in H|err_solve]. }
    eapply grow_pool_quiet in Hgrow; [|exact Hinv|done|by eapply quiet_le].
    destruct Hgrow as (-> & Hblk & Huse & Hgrown).
    fold (grown a (length (heap s))) in Hgrown.
    set (a' := grown a (length (heap s))) in *.
    set (g := if use_linear a then initial_count a else maximum_objects a) in *.
    assert (0 < g) as Hg by (subst g; destruct (use_linear a); lia).
    assert (∃ backed2 m2,
              pool_inv (heap s3) h a' (length (heap s)) backed2 m2 ∧
              tally is_realloc s3 = S (tally is_realloc s) ∧
              (∀ q, q ∈ backed → q ∈ backed2) ∧
              (∀ q, q ∈ backed2 → q ∈ backed ∨ in_use_at (heap s) q = false) ∧
              (m2 ≠ 0%nat ∨ ¬ Forall (λ q, in_use_at (heap s3) q = true) backed2) ∧
              (use_chunks a = true →
               backed2 = backed ++ chunk_slots (S (length (heap s))) (Z.to_nat g) ∧
               m2 = 0%nat ∧
               ∃ sz1 sz2,
                 trace s3 = trace s ++ [EvRealloc (Ptr d 0) sz1 (Ptr (length (heap s)) 0);
                                        EvCalloc g sz2 (Ptr (S (length (heap s))) 0)]))
      as (backed2 & m2 & Hinv2 & Hre & Hsub & Hsup & Hroom & Hchunk).
    { destruct (use_chunks a).
      - destruct Hgrown as (Hinv2 & Hnew & Ht).
        exists (backed ++ chunk_slots (S (length (heap s))) (Z.to_nat g)), 0%nat.
        split; [done|]. split.
        { unfold tally. rewrite Ht, List.filter_app, length_app. simpl. lia. }
        split; [intros q Hq'; apply elem_of_app; by left|].
        assert (∀ q, q ∈ chunk_slots (S (length (heap s))) (Z.to_nat g) →
                     in_use_at (heap s) q = false) as Hfresh.
        { intros q Hq'. apply chunk_slots_elem in Hq' as (k & -> & _).
          unfold in_use_at, record_at. by rewrite lookup_ge_None_2 by lia. }
        split.
        { intros q Hq'. apply elem_of_app in Hq' as [?|?]; [by left|right; eauto]. }
        split; [|by eauto 10].
        right. intros Hall. apply Forall_app in Hall as [_ Hall].
        rewrite Forall_forall in Hall.
        assert (Ptr (S (length (heap s))) 0 ∈ chunk_slots (S (length (heap s))) (Z.to_nat g))
          as Hin by (apply chunk_slots_elem; exists 0%nat; split; [done|lia]).
        specialize (Hall _ Hin). rewrite Huse, Hfresh in Hall by done. done.
      - destruct Hgrown as (Hinv2 & Ht).
        exists backed, (0 + Z.to_nat g)%nat.
        split; [done|]. split.
        { unfold tally. rewrite Ht, List.filter_app, length_app. simpl. lia. }
        split; [done|]. split; [by left|]. split; [left; lia|done]. }
    rewrite allocate_retry_S in H.
    pose proof Hinv2 as [Hh2 _ Hp2 _ Hlen2 _ _ _ _ _].
    rewrite (bind_run _ _ _ _ _ (load_run _ _ _ Hh2)) in H.
    apply bind_Ret in H as (r2 & s4 & Hscan & H).
    pose proof (allocate_scan_errors _ _ _ _ _ _ Hscan) as Hle5.
    assert (le_errors s4 s') as Hle6.
    { destruct r2; run_inv; try done.
      match goal with H : grow_pool _ _ = _ |- _ => apply grow_pool_errors in H end.
      match goal with H : (if ?c then _ else _) _ = _ |- _ => destruct c end; run_inv.
      - apply allocate_retry_errors in H. err_solve.
      - err_solve. }
    rewrite <- Hlen2 in Hscan.
    replace (Z.to_nat (Z.of_nat (length backed2 + m2))) with (length backed2 + m2)%nat
      in Hscan by lia.
    apply (allocate_scan_quiet backed2 [] s3 h a' (length (heap s)) m2) in Hscan;
      [|done|done|].
    2:{ revert Hq Hle3 Hle4 Hle5 Hle6. unfold quiet, le_errors. lia. }
    simpl in Hscan.
    destruct Hscan as [(-> & -> & -> & Hfull2)|Hfound].
    { exfalso. destruct Hroom; done. }
    pose proof (found_not_null _ _ _ _ _ _ _ _ Hfound) as Hr2.
    pose proof (found_reallocs _ _ _ _ _ _ _ _ Hfound) as Hre2.
    assert (rv = r2 ∧ s' = s4) as [-> ->] by (destruct r2; run_inv; done).
    destruct Hfound as (p & backed' & m' & -> & Hin & Hinv' & Hnow & Hwas & Hother & Hshape).
    exists a', (length (heap s)), backed', m', p.
    split; [done|]. split; [done|]. split; [done|]. split; [done|].
    assert (∀ q, q ∈ backed2 → q ∈ backed') as Hsub2.
    { intros q Hq'. destruct Hshape as [(-> & _)|(-> & _)]; [done|].
      apply elem_of_app. by left. }
    assert (in_use_at (heap s) p = false) as Hwas0 by (by rewrite <- Huse).
    split; [done|].
    split; [intros q Hq'; rewrite Hother by done; apply Huse|].
    split; [by eauto|]. split.
    { intros q Hq'. destruct Hshape as [(-> & _)|(-> & _)]; [by eauto|].
      apply elem_of_app in Hq' as [?|Hq']; [by eauto|].
      apply list_elem_of_singleton in Hq' as ->. by right. }
    right. split; [done|]. split; [done|]. split; [lia|]. split; [done|].
    split; [done|]. intros Hch. destruct (Hchunk Hch) as (-> & -> & sz1 & sz2 & Ht3).
    destruct Hshape as [(-> & -> & Ht4)|(_ & [=] & _)].
    split; [done|]. split; [done|]. exists sz1, sz2. by rewrite Ht4.
  - (* a slot was free *)
    pose proof (found_not_null _ _ _ _ _ _ _ _ Hfound) as Hr1.
    pose proof (found_reallocs _ _ _ _ _ _ _ _ Hfound) as Hre.
    assert (rv = r1 ∧ s' = s1) as [-> ->] by (destruct r1; run_inv; done).
    destruct Hfound as (p & backed' & m' & -> & Hin & Hinv' & Hnow & Hwas & Hother & Hshape).
    exists a, d, backed', m', p.
    split; [done|]. split; [done|]. split; [done|]. split; [done|].
    split; [done|]. split; [done|].
    split.
    { intros q Hq'. destruct Hshape as [(-> & _)|(-> & _)]; [done|].
      apply elem_of_app. by left. }
    split.
    { intros q Hq'. destruct Hshape as [(-> & _)|(-> & _)]; [by left|].
      apply elem_of_app in Hq' as [?|Hq']; [by left|].
      apply list_elem_of_singleton in Hq' as ->. by right. }
    left. split; [done|]. split; [done|]. split; [done|].
    destruct Hshape as [(-> & -> & Ht1)|(_ & -> & _)]; [|split; [by left|done]].
    split; [|done].
    right. intros Hall. rewrite Forall_forall in Hall.
    specialize (Hall _ Hin). congruence.
Qed.

(** *** A successful initialization *)

Lemma initialize_ok os C mode s hd s' :
  0 < C → 0 ≤ os →
  op_ll_initialize_allocator os C mode s = Ret hd s' →
  hd ≠ NULL →
  let h := length (heap s) in
  let a := mk_allocator os C C (mode_flags mode).1 (mode_flags mode).2 true (Ptr (S h) 0) in
  hd = Ptr h 0 ∧
  (∀ q, in_use_at (heap s') q = in_use_at (heap s) q) ∧
  (∀ b, b < h → heap s' !! b = heap s !! b)%nat ∧
  tally is_realloc s' = tally is_realloc s ∧
  tally is_free s' = tally is_free s ∧
  if (mode_flags mode).1
  then pool_inv (heap s') h a (S h) (chunk_slots (S (S h)) (Z.to_nat C)) 0 ∧
       ∃ sz, trace s' = trace s ++ [EvCalloc 1 sizeof_op_allocator (Ptr h 0);
                                    EvCalloc C sizeof_ptr (Ptr (S h) 0);
                                    EvCalloc C sz (Ptr (S (S h)) 0)]
  else pool_inv (heap s') h a (S h) [] (Z.to_nat C) ∧
       trace s' = trace s ++ [EvCalloc 1 sizeof_op_allocator (Ptr h 0);
                              EvCalloc C sizeof_ptr (Ptr (S h) 0)].
Proof.
  intros HC Hos H Hhd h a.
  assert (h = length (heap s)) as Hhl by done. clearbody h.
  unfold op_ll_initialize_allocator in H.
  destruct (mode_flags mode) as [chunks linear] eqn:Hmode. simpl in a |- *.
  apply bind_Ret in H as (rv & s1 & Hc & H).
  apply calloc_Ret in Hc as [(-> & _ & ->)|(-> & ->)]; [|by run_inv].
  rewrite <- Hhl in H.
  erewrite bind_run in H; last first.
  { eapply store_run. simpl. by apply lookup_snoc_at. }
  simpl in H.
  apply bind_Ret in H as (p & s2 & Hc & H).
  apply calloc_Ret in Hc as [(-> & Hcap & ->)|(-> & ->)]; simpl in H; last first.
  { run_inv. match goal with H : free _ _ = _ |- _ => apply free_Ret in H as [[? ?]|(?&?&?&?&?)] end;
      subst; run_inv; done. }
  rewrite length_insert, length_app, <- Hhl in H. simpl in H.
  replace (h + 1)%nat with (S h) in H by lia.
  erewrite bind_run in H; last first.
  { eapply store_run. simpl. rewrite lookup_app_l by len.
    apply list_lookup_insert_eq. len. }
  simpl in H.
  set (hp2 := <[h:=_]> (<[h:=_]> _ ++ _)) in H.
  assert (length hp2 = S (S h)) as Hl2 by (subst hp2; len).
  assert (hp2 !! h = Some (Some (OHandle a))) as Hh2.
  { subst hp2. apply list_lookup_insert_eq. len. }
  assert (hp2 !! S h = Some (Some (OPool (replicate (Z.to_nat C) NULL)))) as Hd2.
  { subst hp2. rewrite list_lookup_insert_ne by lia. apply lookup_snoc_at. len. }
  assert (∀ b, b < h → hp2 !! b = heap s !! b)%nat as Hold2.
  { intros b Hb. subst hp2. rewrite list_lookup_insert_ne by lia.
    rewrite lookup_app_l by len. rewrite list_lookup_insert_ne by lia.
    by rewrite lookup_app_l by lia. }
  clearbody hp2.
  assert (∀ hp3 : list (option obj),
            (∀ b, b < h → hp3 !! b = heap s !! b)%nat →
            hp3 !! h = Some (Some (OHandle a)) →
            (∃ sl, hp3 !! S h = Some (Some (OPool sl))) →
            (∀ k, in_use_at hp3 (Ptr (S (S h)) k) = false) →
            (∀ b, S (S h) < b → hp3 !! b = None)%nat →
            ∀ q, in_use_at hp3 q = in_use_at (heap s) q) as Huse.
  { intros hp3 Hold Hh3 [sl Hsl] Hnew Hbig q. destruct q as [|b k| |]; try done.
    destruct (decide (b < h)%nat).
    { unfold in_use_at, record_at. by rewrite Hold. }
    unfold in_use_at at 2. unfold record_at.
    rewrite (lookup_ge_None_2 (heap s) b) by lia.
    destruct (decide (b = h)) as [->|?].
    { unfold in_use_at, record_at. by rewrite Hh3. }
    destruct (decide (b = S h)) as [->|?].
    { unfold in_use_at, record_at. by rewrite Hsl. }
    destruct (decide (b = S (S h))) as [->|?]; [done|].
    unfold in_use_at, record_at. by rewrite Hbig by lia. }
  unfold sizeof_ptr in Hcap.
  destruct chunks; simpl in H.
  - (* chunked: the first generation of records *)
    apply bind_Ret in H as (filled & s3 & Hf & H).
    unfold fill_chunks in Hf.
    erewrite bind_run in Hf by (by apply load_run).
    simpl in Hf.
    apply bind_Ret in Hf as (chunk & s4 & Hc & Hf).
    apply calloc_ab_Ret in Hc as [(-> & Hbytes & Hfit & ->)|(-> & ->)]; last first.
    { exfalso. run_inv.
      repeat match goal with H : free _ _ = _ |- _ =>
        apply free_Ret in H as [[? ?]|(?&?&?&?&?)]; subst end; run_inv; done. }
    simpl in Hf. rewrite Hl2 in Hf.
    erewrite bind_run in Hf; last first.
    { eapply (fill_loop_run _ [] [] (replicate (Z.to_nat C) NULL)); simpl.
      - rewrite lookup_app_l by lia. exact Hh2.
      - reflexivity.
      - rewrite lookup_app_l by lia. exact Hd2.
      - by rewrite length_replicate.
      - done.
      - done.
      - unfold SIZE_MAX. unfold PTRDIFF_MAX in Hcap. lia. }
    apply ret_Ret in Hf as [<- <-]. apply ret_Ret in H as [<- <-]. simpl.
    split; [done|].
    split.
    { apply Huse.
      - intros b Hb. rewrite list_lookup_insert_ne by lia.
        rewrite lookup_app_l by lia. by apply Hold2.
      - rewrite list_lookup_insert_ne by lia. by rewrite lookup_app_l by lia.
      - eexists. apply list_lookup_insert_eq. len.
      - intros k. unfold in_use_at, record_at.
        rewrite list_lookup_insert_ne by lia. rewrite lookup_snoc_at by lia.
        destruct (replicate _ _ !! k) as [e|] eqn:Hk; [|done].
        apply lookup_replicate_1 in Hk as [-> _]. done.
      - intros b Hb. apply lookup_ge_None_2. len. }
    split.
    { intros b Hb. rewrite list_lookup_insert_ne by lia.
      rewrite lookup_app_l by lia. by apply Hold2. }
    split; [unfold tally; simpl; rewrite !List.filter_app, !length_app; simpl; lia|].
    split; [unfold tally; simpl; rewrite !List.filter_app, !length_app; simpl; lia|].
    split.
    + split; simpl; try done; try (unfold sizeof_ptr, PTRDIFF_MAX in *; lia).
      * rewrite list_lookup_insert_ne by lia. by rewrite lookup_app_l by lia.
      * rewrite list_lookup_insert_eq by len. by rewrite app_nil_r.
      * rewrite length_chunk_slots. lia.
      * apply Forall_forall. intros p Hp'.
        apply chunk_slots_elem in Hp' as (k & -> & Hk).
        exists (zero_ab os). split.
        -- simpl. rewrite list_lookup_insert_ne by lia.
           rewrite lookup_snoc_at by lia. by apply lookup_replicate_2.
        -- simpl. by rewrite length_replicate.
      * apply chunk_slots_NoDup.
    + eexists. by rewrite <- !app_assoc.
  - (* individual *)
    apply ret_Ret in H as [<- <-]. simpl.
    split; [done|].
    split.
    { apply Huse; [done|done|by eexists| |].
      - intros k. unfold in_use_at, record_at. by rewrite lookup_ge_None_2 by lia.
      - intros b Hb. apply lookup_ge_None_2. lia. }
    split; [done|].
    split; [unfold tally; simpl; rewrite !List.filter_app, !length_app; simpl; lia|].
    split; [unfold tally; simpl; rewrite !List.filter_app, !length_app; simpl; lia|].
    split.
    + split; simpl; try done; try (unfold sizeof_ptr, PTRDIFF_MAX in *; lia).
      apply NoDup_nil_2.
    + by rewrite <- !app_assoc.
Qed.

(** *** Releasing a live object *)

Lemma data_of_run s b k : data_of (Ptr b k) s = Ret (Data b k) s.
Proof. done. Qed.

Lemma deallocate_scan_run : ∀ rest pre s h a d m p,
  pool_inv (heap s) h a d (pre ++ rest) m →
  p ∈ rest → p ∉ pre →
  ∃ b k n es e,
    p = Ptr b k ∧ heap s !! b = Some (Some (OBlock n es)) ∧ es !! k = Some e ∧
    deallocate_scan (length rest + m) (Z.of_nat (length pre)) (Ptr h 0) (payload p) s =
      Ret tt (mk_sys (<[b := Some (OBlock n (<[k := mk_ab NOT_IN_USE (data e)]> es))]> (heap s))
                     (plan s) (trace s)).
Proof.
  induction rest as [|q rest IH]; intros pre s h a d m p Hinv Hin Hout.
  { by apply elem_of_nil in Hin. }
  pose proof Hinv as [Hh Hini Hp Hd Hlen Hcap Hstep Hos Hb Hnd].
  assert (backed_slot (heap s) (object_size a) q) as (e & He & Hle).
  { rewrite Forall_forall in Hb. apply Hb. apply elem_of_app. right. by left. }
  apply record_at_block in He as (b & k & n & es & -> & Hbk & Hk).
  destruct (decide (p = Ptr b k)) as [->|Hne].
  - exists b, k, n, es, e. split; [done|]. split; [done|]. split; [done|].
    simpl.
    rewrite (bind_run _ _ _ _ _ (load_run _ _ _ Hh)). rewrite Hp.
    erewrite bind_run; last first.
    { eapply pool_get_run; [exact Hd|lia|].
      rewrite Nat2Z.id, <- app_assoc, lookup_app_r by lia. by rewrite Nat.sub_diag. }
    rewrite (bind_run _ _ _ _ _ (data_of_run _ _ _)).
    rewrite bool_decide_true by done.
    unfold set_in_use. erewrite bind_run by (by eapply ab_get_run).
    by erewrite ab_set_run.
  - apply elem_of_cons in Hin as [->|Hin]; [done|].
    replace (pre ++ Ptr b k :: rest) with ((pre ++ [Ptr b k]) ++ rest) in Hinv
      by (by rewrite <- app_assoc).
    destruct (IH (pre ++ [Ptr b k]) s h a d m p Hinv Hin) as (b' & k' & n' & es' & e' & -> & Hb' & Hk' & Hrun).
    { intros Hx. apply elem_of_app in Hx as [?|Hx]; [done|].
      by apply list_elem_of_singleton in Hx. }
    exists b', k', n', es', e'. split; [done|]. split; [done|]. split; [done|].
    simpl.
    rewrite (bind_run _ _ _ _ _ (load_run _ _ _ Hh)). rewrite Hp.
    erewrite bind_run; last first.
    { eapply pool_get_run; [exact Hd|lia|].
      rewrite Nat2Z.id, lookup_app_l by len.
      rewrite lookup_app_r by lia. by rewrite Nat.sub_diag. }
    rewrite (bind_run _ _ _ _ _ (data_of_run _ _ _)).
    rewrite bool_decide_false by congruence.
    rewrite <- Hrun. f_equal. len.
Qed.

Lemma deallocate_live s h a d backed m p :
  pool_inv (heap s) h a d backed m → p ∈ backed →
  ∃ s', op_ll_deallocate_object (Ptr h 0) (payload p) s = Ret tt s' ∧
        pool_inv (heap s') h a d backed m ∧
        in_use_at (heap s') p = false ∧
        (∀ q, q ≠ p → in_use_at (heap s') q = in_use_at (heap s) q) ∧
        trace s' = trace s ∧ plan s' = plan s.
Proof.
  intros Hinv Hin.
  pose proof Hinv as [Hh Hini Hp Hd Hlen Hcap Hstep Hos Hb Hnd].
  destruct (deallocate_scan_run backed [] s h a d m p Hinv Hin)
    as (b & k & n & es & e & -> & Hbk & Hk & Hrun).
  { apply not_elem_of_nil. }
  eexists. split.
  { unfold op_ll_deallocate_object. simpl.
    rewrite (bind_run _ _ _ _ _ (load_run _ _ _ Hh)).
    rewrite <- Hlen. rewrite Nat2Z.id. exact Hrun. }
  simpl. split; [|split; [|split]].
  - eapply pool_inv_update; try done. simpl.
    rewrite Forall_forall in Hb. destruct (Hb _ Hin) as (e' & He' & Hl').
    simpl in He'. rewrite Hbk, Hk in He'. by injection He' as <-.
  - erewrite in_use_at_update by done. by rewrite decide_True.
  - intros q Hq. erewrite in_use_at_update by done. by rewrite decide_False.
  - done.
Qed.

(** *** Counting the objects in use *)

Lemma active_cons hp p l :
  active hp (p :: l) = if in_use_at hp p then p :: active hp l else active hp l.
Proof.
  unfold active. rewrite filter_cons. destruct (in_use_at hp p); by case_decide.
Qed.

Lemma active_app hp l k : active hp (l ++ k) = active hp l ++ active hp k.
Proof. unfold active. apply filter_app. Qed.

Lemma active_nulls hp m : active hp (replicate m NULL) = [].
Proof. induction m as [|m IH]; [done|]. simpl. by rewrite active_cons. Qed.

Lemma active_elem hp l p : p ∈ active hp l ↔ in_use_at hp p = true ∧ p ∈ l.
Proof. exact (list_elem_of_filter (λ p, in_use_at hp p = true) l p). Qed.

Lemma length_active_le hp l : (length (active hp l) ≤ length l)%nat.
Proof. unfold active. apply length_filter. Qed.

Lemma active_full hp l :
  length (active hp l) = length l ↔ Forall (λ p, in_use_at hp p = true) l.
Proof.
  induction l as [|p l IH]; [by split|].
  rewrite active_cons. pose proof (length_active_le hp l).
  destruct (in_use_at hp p) eqn:E; simpl.
  - rewrite Forall_cons. split.
    + intros [= Hl]. split; [done|]. by apply IH.
    + intros [_ Hl]. f_equal. by apply IH.
  - split; [lia|]. intros Hall. apply Forall_cons in Hall as [? _]. congruence.
Qed.

Lemma stats_scan_run : ∀ rest pre s h a d m acc,
  pool_inv (heap s) h a d (pre ++ rest) m →
  0 ≤ acc → acc + Z.of_nat (length rest) ≤ SIZE_MAX →
  stats_scan (length rest + m) (Z.of_nat (length pre)) (Ptr h 0) acc s =
    Ret (acc + Z.of_nat (length (active (heap s) rest))) s.
Proof.
  induction rest as [|q rest IH]; intros pre s h a d m acc Hinv Hacc Hbound.
  - rewrite app_nil_r in Hinv.
    pose proof Hinv as [Hh Hini Hp Hd Hlen Hcap Hstep Hos Hb Hnd].
    simpl. rewrite Z.add_0_r.
    destruct m as [|m]; [done|]. simpl.
    rewrite (bind_run _ _ _ _ _ (load_run _ _ _ Hh)). rewrite Hp.
    erewrite bind_run; last first.
    { eapply pool_get_run; [exact Hd|lia|].
      rewrite Nat2Z.id, lookup_app_r by lia. by rewrite Nat.sub_diag. }
    done.
  - pose proof Hinv as [Hh Hini Hp Hd Hlen Hcap Hstep Hos Hb Hnd].
    assert (backed_slot (heap s) (object_size a) q) as (e & He & Hle).
    { rewrite Forall_forall in Hb. apply Hb. apply elem_of_app. right. by left. }
    pose proof He as He'.
    apply record_at_block in He' as (b & k & n & es & -> & Hbk & Hk).
    simpl.
    rewrite (bind_run _ _ _ _ _ (load_run _ _ _ Hh)). rewrite Hp.
    erewrite bind_run; last first.
    { eapply pool_get_run; [exact Hd|lia|].
      rewrite Nat2Z.id, <- app_assoc, lookup_app_r by lia. by rewrite Nat.sub_diag. }
    cbv beta iota.
    erewrite bind_run by (by eapply ab_get_run).
    replace (pre ++ Ptr b k :: rest) with ((pre ++ [Ptr b k]) ++ rest) in Hinv
      by (by rewrite <- app_assoc).
    replace (Z.of_nat (length pre) + 1) with (Z.of_nat (length (pre ++ [Ptr b k])))
      by len.
    simpl in Hbound.
    rewrite active_cons. unfold in_use_at at 1. rewrite He.
    destruct (in_use e); simpl.
    + erewrite IH; [|exact Hinv|lia|lia]. done.
    + rewrite wrap_small by lia.
      erewrite IH; [|exact Hinv|lia|lia]. f_equal. lia.
Qed.

Lemma get_stats_run s h a d backed m :
  pool_inv (heap s) h a d backed m →
  op_ll_get_allocator_stats (Ptr h 0) s =
    Ret (mk_stats (object_size a) (maximum_objects a)
                  (Z.of_nat (length (active (heap s) backed)))) s.
Proof.
  intros Hinv.
  pose proof Hinv as [Hh Hini Hp Hd Hlen Hcap Hstep Hos Hb Hnd].
  unfold op_ll_get_allocator_stats.
  rewrite (bind_run _ _ _ _ _ (load_run _ _ _ Hh)). rewrite Hini.
  rewrite <- Hlen at 1. rewrite Nat2Z.id.
  erewrite bind_run; last first.
  { eapply (stats_scan_run backed []); [done|done|].
    unfold SIZE_MAX. unfold sizeof_ptr, PTRDIFF_MAX in Hcap. lia. }
  done.
Qed.

(** *** Reusing a free slot *)




(** ** The size of a chunk request *)

(** Whatever the handle and the count, [fill_chunks] passes [object_count]
    as the number of members and the byte size of the whole chunk as the
    size of one member. *)
Lemma fill_chunks_request allocator a offset object_count s r s' :
  load allocator s = Ret a s →
  fill_chunks allocator offset object_count s = Ret r s' →
  ∃ p tr,
    trace s' = trace s ++
      EvCalloc object_count
        (wrap (object_count * wrap (sizeof_ab_t + object_size a))) p :: tr.
Proof.
  intros Hl H. unfold fill_chunks in H.
  rewrite (bind_run _ _ _ _ _ Hl) in H.
  apply bind_Ret in H as (chunk & s1 & Hc & H).
  set (sz := wrap (object_count * wrap (sizeof_ab_t + object_size a))) in *.
  assert (∃ p, trace s1 = trace s ++ [EvCalloc object_count sz p]) as [p Ht].
  { apply calloc_ab_Ret in Hc as [(-> & _ & _ & ->)|(-> & ->)]; simpl; eauto. }
  assert (∃ tr, trace s' = trace s1 ++ tr) as [tr Ht'].
  { destruct chunk as [|b k| |].
    2:{ apply bind_Ret in H as ([] & s2 & Hf & H). apply ret_Ret in H as [_ <-].
        exists []. rewrite app_nil_r.
        clear Hc Ht. generalize dependent s1. generalize 0.
        induction (Z.to_nat object_count) as [|n IH]; intros i s1 Hf.
        - by apply ret_Ret in Hf as [_ <-].
        - simpl in Hf. apply bind_Ret in Hf as (a1 & s3 & Hl1 & Hf).
          apply load_Ret in Hl1 as (h & -> & _ & ->).
          apply bind_Ret in Hf as ([] & s4 & Hs & Hf).
          apply pool_set_Ret in Hs as (d & slots & _ & _ & _ & _ & ->).
          by apply IH in Hf. }
    all: apply bind_Ret in H as ([] & s2 & He & H);
         apply op_error_handler_Ret in He as ->;
         apply ret_Ret in H as [_ <-]; simpl; eauto. }
  exists p, tr. rewrite Ht', Ht, <- app_assoc. done.
Qed.

(** C3 (a defect of the code).  A chunked handle for four
    objects of eight bytes needs 4 * (4 + 8) = 48 bytes of backing storage;
    [fill_chunks] asks [calloc] for four members of 48 bytes each, that is
    for 192 bytes: the chunk size is multiplied by the object count a second
    time. *)
Theorem fill_chunks_multiplies_twice :
  ∃ s, op_ll_initialize_allocator 8 4 OP_LINEAR_CHUNK (boot []) = Ret (Ptr 0 0) s ∧
       trace s = [EvCalloc 1 40 (Ptr 0 0); EvCalloc 4 8 (Ptr 1 0);
                  EvCalloc 4 48 (Ptr 2 0)] ∧
       heap s !! 2%nat = Some (Some (OBlock 192 (replicate 4 (zero_ab 8)))) ∧
       4 * (sizeof_ab_t + 8) = 48 ∧ 4 * 48 = 192.
Proof. eexists. split; [vm_compute; reflexivity|]. by vm_compute. Qed.

(** ** A refused [realloc] *)

(** Whenever [realloc] refuses to resize the directory, [grow_pool] has
    already overwritten [allocator->pool] with the null result: the handle
    no longer knows its directory, which stays allocated. *)
Lemma grow_pool_refused s h a d slots :
  heap s !! h = Some (Some (OHandle a)) →
  pool a = Ptr d 0 →
  heap s !! d = Some (Some (OPool slots)) →
  hd true (plan s) = false →
  ∃ s', grow_pool (Ptr h 0) s = Ret false s' ∧
        heap s' = <[h := Some (OHandle (set_pool NULL a))]> (heap s) ∧
        heap s' !! d = Some (Some (OPool slots)).
Proof.
  intros Hh Hp Hd Hpl. unfold grow_pool.
  rewrite (bind_run _ _ _ _ _ (load_run _ _ _ Hh)).
  unfold bind at 1. unfold realloc, granted. rewrite Hp, Hd, Hpl. simpl.
  erewrite bind_run by (eapply store_run; simpl; exact Hh).
  eexists. split; [reflexivity|]. simpl. split; [done|].
  rewrite list_lookup_insert_ne; [done|]. intros <-. congruence.
Qed.

(** C2 (a defect of the code).  A handle of capacity one holds
    one object; the second allocation has to grow the directory and
    [realloc] refuses.  The call reports the failure and returns null, but
    the handle it leaves behind has a null directory pointer while
    [maximum_objects] is still one and the old directory (block 1, with the
    slot of the live object) is still allocated: every later operation on
    the handle dereferences the null directory. *)
Theorem failed_realloc_loses_directory :
  let pl := [true; true; true; false] in
  ∃ s a,
    two_allocations (boot pl) = Ret (Ptr 0 0, Data 2 0, NULL) s ∧
    heap s !! 0%nat = Some (Some (OHandle a)) ∧
    pool a = NULL ∧ maximum_objects a = 1 ∧
    heap s !! 1%nat = Some (Some (OPool [Ptr 2 0])) ∧
    op_ll_allocate_object (Ptr 0 0) s = Fault ∧
    op_ll_get_allocator_stats (Ptr 0 0) s = Fault ∧
    op_ll_deallocate_object (Ptr 0 0) (Data 2 0) s = Fault ∧
    op_ll_deinitialize_allocator (Ptr 0 0) s = Fault.
Proof.
  eexists _, _. split; [vm_compute; reflexivity|].
  split; [vm_compute; reflexivity|]. by vm_compute.
Qed.

(** ** Releasing a pointer the directory does not know *)

(** C4 (a defect of the code).  With individual layout, a
    capacity of four and one object allocated, slots 1 to 3 are null.
    Releasing a pointer that is no payload of the directory makes the scan
    of [op_ll_deallocate_object] evaluate [pool[1]->data] on the null slot
    1: unlike the loops of allocate and get_stats it does not test the slot
    first.  With chunked layout, where every slot has storage, the same
    call leaves the state as it was. *)
Theorem deallocate_foreign_reads_null_slot :
  foreign_deallocate OP_DOUBLING_INDIVIDUAL (boot []) = Fault ∧
  foreign_deallocate OP_LINEAR_INDIVIDUAL (boot []) = Fault ∧
  (∃ s, (do h <- op_ll_initialize_allocator 8 4 OP_DOUBLING_CHUNK;
         op_ll_allocate_object h) (boot []) = Ret (Data 2 0) s ∧
        foreign_deallocate OP_DOUBLING_CHUNK (boot []) = Ret tt s).
Proof.
  split; [by vm_compute|]. split; [by vm_compute|].
  eexists. split; vm_compute; reflexivity.
Qed.

(** ** The objects in use and the objects held *)

Lemma pool_inv_handle_of s h a d backed m :
  pool_inv (heap s) h a d backed m → handle_of s (Ptr h 0) = Some a.
Proof. intros [Hh _ _ _ _ _ _ _ _ _]. unfold handle_of, load. by rewrite Hh. Qed.

Lemma pool_inv_slots_of s h a d backed m :
  pool_inv (heap s) h a d backed m →
  slots_of s (Ptr h 0) = backed ++ replicate m NULL.
Proof.
  intros Hinv. unfold slots_of. rewrite (pool_inv_handle_of _ _ _ _ _ _ Hinv).
  destruct Hinv as [_ _ Hp Hd _ _ _ _ _ _]. by rewrite Hp, Hd.
Qed.

Lemma pool_inv_backed_ptr hp h a d backed m p :
  pool_inv hp h a d backed m → p ∈ backed → ∃ b k, p = Ptr b k.
Proof.
  intros [_ _ _ _ _ _ _ _ Hb _] Hp. rewrite Forall_forall in Hb.
  apply Hb, backed_slot_bound in Hp as (b & k & -> & _). eauto.
Qed.

Lemma payload_ptr_inj p q :
  (∃ b k, p = Ptr b k) → (∃ b k, q = Ptr b k) → payload p = payload q → p = q.
Proof. intros (b & k & ->) (b' & k' & ->). simpl. congruence. Qed.

Lemma active_backed_ptr hp h a d backed m p :
  pool_inv hp h a d backed m → p ∈ active hp backed → ∃ b k, p = Ptr b k.
Proof.
  intros Hinv Hp. apply active_elem in Hp as [_ Hp].
  by eapply pool_inv_backed_ptr.
Qed.

Lemma NoDup_live hp h a d backed m :
  pool_inv hp h a d backed m → NoDup (payload <$> active hp backed).
Proof.
  intros Hinv. apply NoDup_fmap_2_strong.
  - intros p q Hp Hq. apply payload_ptr_inj; by eapply active_backed_ptr.
  - apply NoDup_filter. by destruct Hinv.
Qed.

Lemma tracks_length s hd held :
  tracks s hd held →
  ∃ h a d backed m,
    hd = Ptr h 0 ∧ pool_inv (heap s) h a d backed m ∧
    length held = length (active (heap s) backed).
Proof.
  intros (h & a & d & backed & m & -> & Hinv & Hnd & Hel).
  exists h, a, d, backed, m. split; [done|]. split; [done|].
  rewrite <- (length_fmap payload (active _ _)).
  apply Permutation_length, NoDup_Permutation; [done|by eapply NoDup_live|done].
Qed.

Lemma tracks_allocate s hd held rv s1 :
  tracks s hd held →
  op_ll_allocate_object hd s = Ret rv s1 → quiet s s1 →
  tracks s1 hd (rv :: held) ∧ rv ≠ NULL.
Proof.
  intros (h & a & d & backed & m & -> & Hinv & Hnd & Hel) Hrun Hq.
  destruct (allocate_quiet _ _ _ _ _ _ _ _ Hinv Hrun Hq)
    as (a' & d' & backed' & m' & p & Hinv' & -> & Hin & Hnow & Hwas & Hother & Hsub & Hsup & _).
  assert (∃ b k, p = Ptr b k) as Hptr by (by eapply pool_inv_backed_ptr).
  assert (payload p ∉ held) as Hfresh.
  { intros Hx. apply Hel, list_elem_of_fmap in Hx as (q & Hpq & Hq').
    assert (q = p) as ->.
    { symmetry. apply payload_ptr_inj; [done| |done].
      eapply active_backed_ptr; [exact Hinv|exact Hq']. }
    apply active_elem in Hq' as [? _]. congruence. }
  split.
  - exists h, a', d', backed', m'. split; [done|]. split; [done|].
    split; [by apply NoDup_cons|].
    intros x. rewrite elem_of_cons, Hel, !list_elem_of_fmap. split.
    + intros [->|(q & -> & Hq')].
      * exists p. split; [done|]. by apply active_elem.
      * exists q. split; [done|]. apply active_elem in Hq' as [Hu Hq'].
        apply active_elem. split; [|by auto].
        rewrite Hother; [done|]. intros ->. congruence.
    + intros (q & -> & Hq'). apply active_elem in Hq' as [Hu Hq'].
      destruct (decide (q = p)) as [->|Hne]; [by left|]. right.
      exists q. split; [done|]. apply active_elem.
      rewrite Hother in Hu by done. split; [done|].
      destruct (Hsup _ Hq'); [done|congruence].
  - destruct Hptr as (b & k & ->). done.
Qed.

Lemma tracks_deallocate s hd held object u s1 :
  tracks s hd held → object ∈ held →
  op_ll_deallocate_object hd object s = Ret u s1 →
  tracks s1 hd (filter (λ q, q ≠ object) held) ∧
  trace s1 = trace s ∧
  S (length (filter (λ q, q ≠ object) held)) = length held ∧
  handle_of s1 hd = handle_of s hd ∧ slots_of s1 hd = slots_of s hd.
Proof.
  intros (h & a & d & backed & m & -> & Hinv & Hnd & Hel) Hobj Hrun.
  pose proof Hobj as Hobj'.
  apply Hel, list_elem_of_fmap in Hobj' as (p & -> & Hp).
  pose proof Hp as Hp'. apply active_elem in Hp' as [Hu Hin].
  destruct (deallocate_live _ _ _ _ _ _ _ Hinv Hin)
    as (s' & Hrun' & Hinv' & Hnow & Hother & Ht & _).
  rewrite Hrun in Hrun'. injection Hrun' as _ <-.
  split; [|split; [done|split]].
  3:{ by rewrite (pool_inv_handle_of _ _ _ _ _ _ Hinv'), (pool_inv_handle_of _ _ _ _ _ _ Hinv),
        (pool_inv_slots_of _ _ _ _ _ _ Hinv'), (pool_inv_slots_of _ _ _ _ _ _ Hinv). }
  - exists h, a, d, backed, m. split; [done|]. split; [done|].
    split; [by apply NoDup_filter|].
    intros x. rewrite list_elem_of_filter, Hel, !list_elem_of_fmap. split.
    + intros (Hne & q & -> & Hq). exists q. split; [done|].
      apply active_elem in Hq as [Hqu Hq]. apply active_elem. split; [|done].
      rewrite Hother; [done|]. intros ->. done.
    + intros (q & -> & Hq). apply active_elem in Hq as [Hqu Hq].
      assert (q ≠ p) as Hne by (intros ->; congruence).
      split.
      * intros Heq. apply Hne. apply payload_ptr_inj; [| |done];
          by eapply pool_inv_backed_ptr.
      * exists q. split; [done|]. apply active_elem.
        rewrite Hother in Hqu by done. done.
  - change (length (payload p :: filter (λ q, q ≠ payload p) held) = length held).
    apply Permutation_length. apply NoDup_Permutation.
    + apply NoDup_cons. split; [|by apply NoDup_filter].
      rewrite list_elem_of_filter. by intros [? _].
    + done.
    + intros x. rewrite elem_of_cons, list_elem_of_filter.
      destruct (decide (x = payload p)) as [->|]; [split; [done|by left]|].
      split; [intros [?|[_ ?]]; done|intros ?; right; done].
Qed.

Lemma run_successful_tracks hd : ∀ cs held s held' s',
  tracks s hd held →
  run_successful hd cs held s = Some (held', s') →
  tracks s' hd held' ∧
  (length held' + deallocations cs = length held + allocations cs)%nat.
Proof.
  induction cs as [|c cs IH]; intros held s held' s' Htr Hrun; simpl in Hrun.
  - injection Hrun as <- <-. split; [done|]. unfold allocations, deallocations. simpl. lia.
  - destruct c as [|object].
    + destruct (op_ll_allocate_object hd s) as [rv s1| |] eqn:Hcall; try done.
      case_bool_decide as Hok; [|done]. destruct Hok as [Hrv Hq].
      destruct (tracks_allocate _ _ _ _ _ Htr Hcall Hq) as [Htr1 _].
      destruct (IH _ _ _ _ Htr1 Hrun) as [Htr' Hlen]. split; [done|].
      unfold allocations, deallocations in *. rewrite !filter_cons.
      repeat case_decide; try done; simpl in *; lia.
    + case_bool_decide as Hobj; [|done].
      destruct (op_ll_deallocate_object hd object s) as [u s1| |] eqn:Hcall; try done.
      destruct (tracks_deallocate _ _ _ _ _ _ Htr Hobj Hcall) as (Htr1 & _ & Hl & _).
      destruct (IH _ _ _ _ Htr1 Hrun) as [Htr' Hlen]. split; [done|].
      unfold allocations, deallocations in *. rewrite !filter_cons.
      repeat case_decide; try done; simpl in *; lia.
Qed.

Lemma active_none hp l :
  (∀ p, p ∈ l → in_use_at hp p = false) → active hp l = [].
Proof.
  induction l as [|p l IH]; intros Hl; [done|].
  rewrite active_cons, (Hl p) by (by left). apply IH. intros q Hq. apply Hl. by right.
Qed.

Lemma initialize_tracks os C mode s0 hd s :
  0 < C → 0 ≤ os →
  op_ll_initialize_allocator os C mode s0 = Ret hd s → hd ≠ NULL →
  ∃ h a d backed m,
    hd = Ptr h 0 ∧ pool_inv (heap s) h a d backed m ∧
    active (heap s) backed = [] ∧
    maximum_objects a = C ∧ initial_count a = C ∧ object_size a = os ∧
    use_chunks a = (mode_flags mode).1 ∧ use_linear a = (mode_flags mode).2 ∧
    (use_chunks a = true → m = 0%nat) ∧
    tally is_realloc s = tally is_realloc s0.
Proof.
  intros HC Hos Hrun Hhd.
  destruct (initialize_ok _ _ _ _ _ _ HC Hos Hrun Hhd)
    as (-> & Huse & Hold & Hre & _ & Hinv).
  set (h := length (heap s0)) in *.
  destruct (mode_flags mode).1 eqn:Hch.
  - destruct Hinv as [Hinv _].
    eexists h, _, _, _, _. split; [done|]. split; [exact Hinv|].
    split; [|simpl; by repeat split].
    apply active_none. intros p Hp. apply chunk_slots_elem in Hp as (k & -> & _).
    rewrite Huse. unfold in_use_at, record_at.
    by rewrite lookup_ge_None_2 by (subst h; lia).
  - destruct Hinv as [Hinv _].
    eexists h, _, _, _, _. split; [done|]. split; [exact Hinv|].
    split; [done|]. simpl. by repeat split.
Qed.

Lemma initialize_holds_nothing os C mode s0 hd s :
  0 < C → 0 ≤ os →
  op_ll_initialize_allocator os C mode s0 = Ret hd s → hd ≠ NULL →
  tracks s hd [].
Proof.
  intros HC Hos Hrun Hhd.
  destruct (initialize_tracks _ _ _ _ _ _ HC Hos Hrun Hhd)
    as (h & a & d & backed & m & -> & Hinv & Hact & _).
  exists h, a, d, backed, m. split; [done|]. split; [done|].
  split; [apply NoDup_nil_2|]. intros x. by rewrite Hact.
Qed.

(** ** Counting across calls *)



Lemma allocate_quiet_count s h a d backed m rv s' :
  pool_inv (heap s) h a d backed m →
  op_ll_allocate_object (Ptr h 0) s = Ret rv s' →
  quiet s s' →
  ∃ a' d' backed' m',
    pool_inv (heap s') h a' d' backed' m' ∧
    length (active (heap s') backed') = S (length (active (heap s) backed)) ∧
    ((a' = a ∧ d' = d ∧ tally is_realloc s' = tally is_realloc s) ∨
     (a' = grown a (length (heap s)) ∧
      tally is_realloc s' = S (tally is_realloc s) ∧
      length (active (heap s) backed) = Z.to_nat (maximum_objects a))).
Proof.
  intros Hinv Hrun Hq.
  destruct (allocate_quiet _ _ _ _ _ _ _ _ Hinv Hrun Hq)
    as (a' & d' & backed' & m' & p & Hinv' & -> & Hin & Hnow & Hwas & Hother & Hsub & Hsup & Hcase).
  exists a', d', backed', m'. split; [done|]. split.
  - apply eq_trans with (length (p :: active (heap s) backed)); [|done].
    apply Permutation_length, NoDup_Permutation.
    + apply NoDup_filter. by destruct Hinv'.
    + apply NoDup_cons. split.
      * intros Hx. apply active_elem in Hx as [? _]. congruence.
      * apply NoDup_filter. by destruct Hinv.
    + intros y. rewrite elem_of_cons, !active_elem. split.
      * intros [Hu Hy]. destruct (decide (y = p)) as [->|Hne]; [by left|right].
        rewrite Hother in Hu by done. split; [done|].
        destruct (Hsup _ Hy); [done|congruence].
      * intros [->|[Hu Hy]]; [done|]. split; [|by auto].
        rewrite Hother; [done|]. intros ->. congruence.
  - destruct Hcase as [(-> & -> & Hre & _)|(-> & _ & Hre & -> & Hfull & _)]; [by left|right].
    split; [done|]. split; [done|].
    apply active_full in Hfull. rewrite Hfull.
    destruct Hinv as [_ _ _ _ Hlen _ _ _ _ _]. lia.
Qed.

(** *** Growth steps that succeed report nothing *)

Lemma fill_loop_trace n : ∀ i p b off s u s',
  fill_loop n i p b off s = Ret u s' → trace s' = trace s.
Proof.
  induction n as [|n IH]; simpl; intros i p b off s u s' H; run_inv; [done|].
  by apply IH in H.
Qed.

Lemma null_loop_trace n : ∀ i p s u s',
  null_loop n i p s = Ret u s' → trace s' = trace s.
Proof.
  induction n as [|n IH]; simpl; intros i p s u s' H; run_inv; [done|].
  by apply IH in H.
Qed.

Lemma realloc_quiet p sz s q s' : realloc p sz s = Ret q s' → quiet s s'.
Proof.
  unfold realloc. intros H.
  assert (∃ h pl e, s' = mk_sys h pl (trace s ++ [e]) ∧ is_error e = false)
    as (h & pl & e & -> & He).
  { destruct p as [|d [|k]| |]; try done.
    - destruct (granted s sz); injection H as <- <-; eauto.
    - destruct (heap s !! d) as [[[| |]|]|]; try done.
      destruct (granted s sz); injection H as <- <-; eauto. }
  unfold quiet, tally. simpl. rewrite List.filter_app, length_app. simpl.
  rewrite He. simpl. lia.
Qed.

Lemma calloc_ab_quiet nm sz c os s p s' :
  calloc_ab nm sz c os s = Ret p s' → quiet s s'.
Proof.
  intros H. unfold quiet.
  apply calloc_ab_Ret in H as [(-> & _ & _ & ->)|(-> & ->)];
    unfold tally; simpl; rewrite List.filter_app, length_app; simpl; lia.
Qed.

Lemma fill_chunks_true_quiet p off n s s' :
  fill_chunks p off n s = Ret true s' → quiet s s'.
Proof.
  unfold fill_chunks. intros H. run_inv.
  match goal with H : calloc_ab _ _ _ _ _ = _ |- _ => apply calloc_ab_quiet in H end.
  match goal with H : match ?x with _ => _ end _ = _ |- _ => destruct x end;
    run_inv; try done.
  match goal with H : fill_loop _ _ _ _ _ _ = _ |- _ => apply fill_loop_trace in H end.
  unfold quiet, tally in *. congruence.
Qed.

Lemma grow_pool_true_quiet p s s' : grow_pool p s = Ret true s' → quiet s s'.
Proof.
  unfold grow_pool. intros H. run_inv.
  match goal with H : realloc _ _ _ = _ |- _ => apply realloc_quiet in H end.
  match goal with H : match ?x with _ => _ end _ = _ |- _ => destruct x end;
    run_inv; try done.
  all: match goal with H : null_loop _ _ _ _ = _ |- _ => apply null_loop_trace in H end.
  all: match goal with H : (if ?c then _ else _) _ = _ |- _ => destruct c end; run_inv.
  all: try match goal with H : fill_chunks _ _ _ _ = _ |- _ =>
             apply fill_chunks_true_quiet in H end.
  all: unfold quiet, tally in *; simpl in *; congruence.
Qed.
(** ** Requests that are refused in the course of a call *)

(** C1 (a defect of the code).  A chunked handle of capacity two with linear
    growth holds two objects; the third allocation grows the directory, but
    [calloc] refuses the new chunk.  The call returns null and the capacity
    stays at four, with two null slots.  The next two allocations fill
    these slots with records that [calloc] returns one by one.
    Deinitialize then frees the slots at the offsets 0 and 2 only: offset 2
    is no chunk of [fill_chunks] but the first of the single records, and
    the block of the second one (block 5) is never freed, though the
    directory and the handle are gone. *)
Theorem refused_chunk_leaks_record :
  let pl := [true; true; true; true; false] in
  ∃ s1 s2 a,
    allocations_of_two OP_LINEAR_CHUNK 5 (boot pl) =
      Ret (Ptr 0 0, [Data 2 0; Data 2 1; NULL; Data 4 0; Data 5 0]) s1 ∧
    handle_of s1 (Ptr 0 0) = Some a ∧
    use_chunks a = true ∧ use_linear a = true ∧
    initial_count a = 2 ∧ maximum_objects a = 4 ∧
    slots_of s1 (Ptr 0 0) = [Ptr 2 0; Ptr 2 1; Ptr 4 0; Ptr 5 0] ∧
    callocs (trace s1) = [Ptr 0 0; Ptr 1 0; Ptr 2 0; NULL; Ptr 4 0; Ptr 5 0] ∧
    live_objects s1 (Ptr 0 0) = [Data 2 0; Data 2 1; Data 4 0; Data 5 0] ∧
    op_ll_deinitialize_allocator (Ptr 0 0) s1 = Ret tt s2 ∧
    trace s2 = trace s1 ++ [EvFree (Ptr 2 0); EvFree (Ptr 4 0);
                            EvFree (Ptr 3 0); EvFree (Ptr 0 0)] ∧
    heap s2 !! 5%nat = Some (Some (OBlock 12 [mk_ab IN_USE (replicate 8 0)])).
Proof.
  eexists _, _, _. split; [vm_compute; reflexivity|].
  split; [vm_compute; reflexivity|]. by vm_compute.
Qed.

(** C5 (a defect of the code).  A handle with individual layout and
    capacity two; in the first allocation [calloc] refuses the record for
    slot 0, the scan reports it and goes on, and the record for slot 1 is
    granted.  The call returns that object, which is then the one object
    allocated and not released, but it sits behind a null slot: the count
    of [op_ll_get_allocator_stats] stops at slot 0 and [active_objects] is
    zero. *)
Theorem stats_miss_object_behind_gap :
  let pl := [true; true; false] in
  ∃ s,
    first_allocation 2 (boot pl) = Ret (Ptr 0 0, Data 2 0) s ∧
    slots_of s (Ptr 0 0) = [NULL; Ptr 2 0] ∧
    live_objects s (Ptr 0 0) = [Data 2 0] ∧
    op_ll_get_allocator_stats (Ptr 0 0) s = Ret (mk_stats 8 2 0) s.
Proof.
  eexists. split; [vm_compute; reflexivity|]. by vm_compute.
Qed.

(** C6 (a defect of the code).  A handle with individual layout and
    capacity one; in the first allocation [calloc] refuses the record for
    slot 0.  The scan ends without an object, which the call takes for a
    full pool: it grows the directory to two slots, scans again and returns
    an object.  So the first allocation that returns an object has grown the
    pool, and the second one, the [C + 1]-th, finds a null slot and grows
    nothing. *)
Theorem refused_record_grows_pool :
  let pl := [true; true; false] in
  ∃ s a s',
    first_allocation 1 (boot pl) = Ret (Ptr 0 0, Data 3 0) s ∧
    handle_of s (Ptr 0 0) = Some a ∧
    initial_count a = 1 ∧ maximum_objects a = 2 ∧
    tally is_realloc s = 1%nat ∧
    slots_of s (Ptr 0 0) = [Ptr 3 0; NULL] ∧
    live_objects s (Ptr 0 0) = [Data 3 0] ∧
    op_ll_allocate_object (Ptr 0 0) s = Ret (Data 4 0) s' ∧
    quiet s s' ∧ tally is_realloc s' = 1%nat ∧
    handle_of s' (Ptr 0 0) = Some a.
Proof.
  eexists _, _, _. split; [vm_compute; reflexivity|].
  split; [vm_compute; reflexivity|].
  split; [reflexivity|]. split; [reflexivity|]. split; [reflexivity|].
  split; [reflexivity|]. split; [reflexivity|].
  split; [vm_compute; reflexivity|]. by vm_compute.
Qed.

(** C7 (a defect of the code).  A chunked handle of capacity two with
    doubling growth holds two objects and has never grown.  In the third
    allocation [realloc] grants the larger directory and [calloc] refuses
    the chunk: [grow_pool] returns false and the allocation returns null,
    but [maximum_objects] has been set to four and stays so.  No growth has
    succeeded and the capacity is not [C * 2^0]. *)
Theorem refused_chunk_raises_capacity :
  let pl := [true; true; true; true; false] in
  ∃ s s1 s2 a a',
    allocations_of_two OP_DOUBLING_CHUNK 2 (boot pl) =
      Ret (Ptr 0 0, [Data 2 0; Data 2 1]) s ∧
    handle_of s (Ptr 0 0) = Some a ∧
    initial_count a = 2 ∧ maximum_objects a = 2 ∧ tally is_realloc s = 0%nat ∧
    grow_pool (Ptr 0 0) s = Ret false s1 ∧
    handle_of s1 (Ptr 0 0) = Some a' ∧
    op_ll_allocate_object (Ptr 0 0) s = Ret NULL s2 ∧
    handle_of s2 (Ptr 0 0) = Some a' ∧
    maximum_objects a' = 4 ∧
    slots_of s2 (Ptr 0 0) = [Ptr 2 0; Ptr 2 1; NULL; NULL].
Proof.
  eexists _, _, _, _, _. split; [vm_compute; reflexivity|].
  split; [vm_compute; reflexivity|].
  split; [reflexivity|]. split; [reflexivity|]. split; [reflexivity|].
  split; [vm_compute; reflexivity|].
  split; [vm_compute; reflexivity|].
  split; [vm_compute; reflexivity|]. by vm_compute.
Qed.

(** ** Capacity *)

Lemma grow_times_inv n : ∀ s h a d backed m s',
  pool_inv (heap s) h a d backed m →
  (use_chunks a = true → m = 0%nat) →
  grow_times n (Ptr h 0) s = Ret true s' →
  ∃ a' d' backed' m',
    pool_inv (heap s') h a' d' backed' m' ∧
    (use_chunks a' = true → m' = 0%nat) ∧
    initial_count a' = initial_count a ∧
    use_linear a' = use_linear a ∧ use_chunks a' = use_chunks a ∧
    maximum_objects a' =
      if use_linear a then maximum_objects a + Z.of_nat n * initial_count a
      else maximum_objects a * 2 ^ Z.of_nat n.
Proof.
  induction n as [|n IH]; intros s h a d backed m s' Hinv Hm H.
  - apply ret_Ret in H as [_ <-]. exists a, d, backed, m.
    split; [done|]. split; [done|]. split; [done|]. split; [done|]. split; [done|].
    destruct (use_linear a); lia.
  - simpl in H. apply bind_Ret in H as (ok & s1 & Hg & H).
    destruct ok; [|by apply ret_Ret in H as [? _]].
    pose proof (grow_pool_true_quiet _ _ _ Hg) as Hq.
    destruct (grow_pool_quiet _ _ _ _ _ _ _ _ Hinv Hm Hg Hq) as (_ & _ & _ & Hgrown).
    fold (grown a (length (heap s))) in Hgrown.
    assert (∃ backed1 m1,
              pool_inv (heap s1) h (grown a (length (heap s))) (length (heap s)) backed1 m1 ∧
              (use_chunks a = true → m1 = 0%nat)) as (backed1 & m1 & Hinv1 & Hm1).
    { destruct (use_chunks a).
      - destruct Hgrown as (? & _). eauto.
      - destruct Hgrown as (? & _). eexists _, _. split; [done|]. done. }
    destruct (IH _ _ _ _ _ _ _ Hinv1 Hm1 H)
      as (a' & d' & backed' & m' & Hinv' & Hm' & Hic & Hlin & Hch & Hmax).
    exists a', d', backed', m'. simpl in *.
    split; [done|]. split; [done|]. split; [done|]. split; [done|]. split; [done|].
    rewrite Hmax. destruct (use_linear a).
    + lia.
    + rewrite Nat2Z.inj_succ, Z.pow_succ_r by lia. lia.
Qed.

(** The same through direct calls of [grow_pool]. *)
Lemma capacity_after_grow_times os C mode n s0 allocator s :
  0 < C → 0 ≤ os →
  (do hd <- op_ll_initialize_allocator os C mode;
   do ok <- grow_times n hd;
   ret (hd, ok)) s0 = Ret (allocator, true) s →
  allocator ≠ NULL →
  ∃ a, handle_of s allocator = Some a ∧
       maximum_objects a = capacity_after (mode_flags mode).2 C n.
Proof.
  intros HC Hos H Hhd.
  apply bind_Ret in H as (hd & s1 & Hini & H).
  apply bind_Ret in H as (ok & s2 & Hgrow & H).
  apply ret_Ret in H as [[= -> ->] ->].
  destruct (initialize_tracks _ _ _ _ _ _ HC Hos Hini Hhd)
    as (h & a & d & backed & m & -> & Hinv & _ & Hmax & Hic & _ & Hch & Hlin & Hm & _).
  destruct (grow_times_inv _ _ _ _ _ _ _ _ Hinv Hm Hgrow)
    as (a' & d' & backed' & m' & Hinv' & _ & _ & _ & _ & Hmax').
  exists a'. split; [by eapply pool_inv_handle_of|].
  rewrite Hmax', Hlin, Hmax, Hic. done.
Qed.

Lemma capacity_after_S linear C n :
  capacity_after linear C (S n) =
    capacity_after linear C n + if linear then C else capacity_after linear C n.
Proof.
  unfold capacity_after. destruct linear; [lia|].
  rewrite Nat2Z.inj_succ, Z.pow_succ_r by lia. lia.
Qed.

Lemma run_successful_capacity hd C lin : ∀ cs held s held' s' n,
  tracks s hd held →
  (∃ a, handle_of s hd = Some a ∧ initial_count a = C ∧ use_linear a = lin ∧
        maximum_objects a = capacity_after lin C n) →
  run_successful hd cs held s = Some (held', s') →
  ∃ k a', handle_of s' hd = Some a' ∧ initial_count a' = C ∧ use_linear a' = lin ∧
          maximum_objects a' = capacity_after lin C (n + k) ∧
          tally is_realloc s' = (tally is_realloc s + k)%nat.
Proof.
  induction cs as [|c cs IH]; intros held s held' s' n Htr (a & Ha & Hic & Hlin & Hmax) Hrun;
    simpl in Hrun.
  - injection Hrun as <- <-. exists 0%nat, a. rewrite !Nat.add_0_r. done.
  - destruct c as [|object].
    + destruct (op_ll_allocate_object hd s) as [rv s1| |] eqn:Hcall; try done.
      case_bool_decide as Hok; [|done]. destruct Hok as [Hrv Hq].
      destruct (tracks_allocate _ _ _ _ _ Htr Hcall Hq) as [Htr1 _].
      destruct Htr as (h & a1 & d & backed & m & -> & Hinv & _).
      rewrite (pool_inv_handle_of _ _ _ _ _ _ Hinv) in Ha. injection Ha as ->.
      destruct (allocate_quiet_count _ _ _ _ _ _ _ _ Hinv Hcall Hq)
        as (a' & d' & backed' & m' & Hinv' & _ & [(-> & -> & Hre)|(-> & Hre & _)]).
      * destruct (IH _ _ _ _ n Htr1
                    (ex_intro _ a (conj (pool_inv_handle_of _ _ _ _ _ _ Hinv')
                                        (conj Hic (conj Hlin Hmax)))) Hrun)
          as (k & a' & Ha' & Hic' & Hlin' & Hmax' & Hre').
        exists k, a'. rewrite Hre' , Hre. done.
      * assert (maximum_objects (grown a (length (heap s))) = capacity_after lin C (S n)) as Hmax1.
        { rewrite capacity_after_S. simpl. rewrite Hmax, Hlin, Hic. done. }
        destruct (IH _ _ _ _ (S n) Htr1
                    (ex_intro _ _ (conj (pool_inv_handle_of _ _ _ _ _ _ Hinv')
                                        (conj Hic (conj Hlin Hmax1)))) Hrun)
          as (k & a' & Ha' & Hic' & Hlin' & Hmax' & Hre').
        exists (S k), a'. rewrite Hre', Hre.
        replace (n + S k)%nat with (S n + k)%nat by lia.
        split; [done|]. split; [done|]. split; [done|]. split; [done|]. lia.
    + case_bool_decide as Hobj; [|done].
      destruct (op_ll_deallocate_object hd object s) as [u s1| |] eqn:Hcall; try done.
      destruct (tracks_deallocate _ _ _ _ _ _ Htr Hobj Hcall) as (Htr1 & Ht & _ & Hsame & _).
      rewrite <- Hsame in Ha.
      destruct (IH _ _ _ _ n Htr1
                  (ex_intro _ a (conj Ha (conj Hic (conj Hlin Hmax)))) Hrun)
        as (k & a' & Ha' & Hic' & Hlin' & Hmax' & Hre').
      exists k, a'. rewrite Hre'. unfold tally. rewrite Ht. done.
Qed.

(** X23.  A handle is initialized with capacity [C > 0] and used through
    calls that report no error, in the course of which the directory has
    grown [n] times ([realloc] was called [n] times).  Then
    [maximum_objects] is [C * 2^n] under doubling growth and [C + n * C]
    under linear growth. *)
Theorem capacity_after_growth os C mode s0 allocator s cs held s' :
  0 < C → 0 ≤ os →
  op_ll_initialize_allocator os C mode s0 = Ret allocator s →
  allocator ≠ NULL →
  run_successful allocator cs [] s = Some (held, s') →
  ∃ n a, tally is_realloc s' = (tally is_realloc s + n)%nat ∧
         handle_of s' allocator = Some a ∧
         maximum_objects a =
           match mode with
           | OP_DOUBLING_INDIVIDUAL | OP_DOUBLING_CHUNK => C * 2 ^ Z.of_nat n
           | OP_LINEAR_INDIVIDUAL | OP_LINEAR_CHUNK => C + Z.of_nat n * C
           end.
Proof.
  intros HC Hos Hini Hhd Hrun.
  pose proof (initialize_holds_nothing _ _ _ _ _ _ HC Hos Hini Hhd) as Htr.
  destruct (initialize_tracks _ _ _ _ _ _ HC Hos Hini Hhd)
    as (h & a & d & backed & m & -> & Hinv & _ & Hmax & Hic & _ & _ & Hlin & _ & _).
  assert (maximum_objects a = capacity_after (mode_flags mode).2 C 0) as Hmax0.
  { rewrite Hmax. unfold capacity_after. destruct (mode_flags mode).2; lia. }
  destruct (run_successful_capacity _ C (mode_flags mode).2 _ _ _ _ _ 0 Htr
              (ex_intro _ a (conj (pool_inv_handle_of _ _ _ _ _ _ Hinv)
                                  (conj Hic (conj Hlin Hmax0)))) Hrun)
    as (k & a' & Ha' & _ & _ & Hmax' & Hre).
  exists k, a'. split; [done|]. split; [done|].
  rewrite Hmax'. unfold capacity_after. by destruct mode.
Qed.

Lemma capacity_after_growth_witness :
  ∃ s held s',
    op_ll_initialize_allocator 8 4 OP_DOUBLING_INDIVIDUAL (boot []) = Ret (Ptr 0 0) s ∧
    run_successful (Ptr 0 0) (replicate 9 Allocate) [] s = Some (held, s') ∧
    ∃ n a, tally is_realloc s' = (tally is_realloc s + n)%nat ∧
           handle_of s' (Ptr 0 0) = Some a ∧
           maximum_objects a = 4 * 2 ^ Z.of_nat n.
Proof.
  eexists _, _, _. split; [vm_compute; reflexivity|].
  split; [vm_compute; reflexivity|].
  eapply (capacity_after_growth 8 4 OP_DOUBLING_INDIVIDUAL (boot []) (Ptr 0 0) _
            (replicate 9 Allocate));
    [lia|lia|vm_compute; reflexivity|done|vm_compute; reflexivity].
Defined.

(** ** Growth happens when, and only when, the pool is full *)

Lemma fill_without_growth hd : ∀ k held s held1 s1 h a d backed m,
  hd = Ptr h 0 →
  pool_inv (heap s) h a d backed m →
  (length (active (heap s) backed) + k ≤ Z.to_nat (maximum_objects a))%nat →
  run_successful hd (replicate k Allocate) held s = Some (held1, s1) →
  ∃ backed1 m1,
    pool_inv (heap s1) h a d backed1 m1 ∧
    length (active (heap s1) backed1) = (length (active (heap s) backed) + k)%nat ∧
    tally is_realloc s1 = tally is_realloc s.
Proof.
  induction k as [|k IH]; intros held s held1 s1 h a d backed m -> Hinv Hroom Hrun.
  - injection Hrun as <- <-. exists backed, m. split; [done|]. split; [lia|done].
  - simpl in Hrun.
    destruct (op_ll_allocate_object (Ptr h 0) s) as [rv s2| |] eqn:Hcall; try done.
    case_bool_decide as Hok; [|done]. destruct Hok as [Hrv Hq].
    destruct (allocate_quiet_count _ _ _ _ _ _ _ _ Hinv Hcall Hq)
      as (a' & d' & backed' & m' & Hinv' & Hcount & [(-> & -> & Hre)|(_ & _ & Hfull)]);
      [|lia].
    assert (length (active (heap s2) backed') + k ≤ Z.to_nat (maximum_objects a))%nat
      as Hroom' by lia.
    destruct (IH _ _ _ _ _ _ _ _ _ eq_refl Hinv' Hroom' Hrun)
      as (backed1 & m1 & Hinv1 & Hcount1 & Hre1).
    exists backed1, m1. split; [done|]. split; [lia|congruence].
Qed.

(** ** Live objects *)

Lemma tracks_live_objects s hd held :
  tracks s hd held → live_objects s hd ≡ₚ held.
Proof.
  intros (h & a & d & backed & m & -> & Hinv & Hnd & Hel).
  unfold live_objects. rewrite (pool_inv_slots_of _ _ _ _ _ _ Hinv).
  rewrite active_app, active_nulls, app_nil_r.
  apply NoDup_Permutation; [by eapply NoDup_live|done|]. intros x. by rewrite Hel.
Qed.

Lemma tracks_stats s hd held :
  tracks s hd held →
  ∃ st, op_ll_get_allocator_stats hd s = Ret st s ∧
        st_active_objects st = Z.of_nat (length held).
Proof.
  intros Htr. destruct (tracks_length _ _ _ Htr) as (h & a & d & backed & m & -> & Hinv & Hl).
  eexists. split; [by eapply get_stats_run|]. simpl. by rewrite Hl.
Qed.

(** X21.  After initialization, whatever sequence of allocate calls that
    report no error and of deallocate calls of objects held follows,
    [get_stats] returns and its [active_objects] is the number of objects
    allocated and not yet deallocated: the number of allocations less the
    number of deallocations, which is also the number of objects the caller
    still holds. *)
Theorem active_objects_counts_live os C mode s0 allocator s cs held s' :
  0 < C → 0 ≤ os →
  op_ll_initialize_allocator os C mode s0 = Ret allocator s →
  allocator ≠ NULL →
  run_successful allocator cs [] s = Some (held, s') →
  ∃ st, op_ll_get_allocator_stats allocator s' = Ret st s' ∧
        st_active_objects st = Z.of_nat (length held) ∧
        st_active_objects st = Z.of_nat (allocations cs) - Z.of_nat (deallocations cs) ∧
        live_objects s' allocator ≡ₚ held.
Proof.
  intros HC Hos Hini Hhd Hrun.
  pose proof (initialize_holds_nothing _ _ _ _ _ _ HC Hos Hini Hhd) as Htr.
  destruct (run_successful_tracks _ _ _ _ _ _ Htr Hrun) as [Htr' Hlen].
  destruct (tracks_stats _ _ _ Htr') as (st & Hst & Hact).
  exists st. split; [done|]. split; [done|]. split.
  - rewrite Hact. simpl in Hlen. lia.
  - by apply tracks_live_objects.
Qed.

Lemma active_objects_counts_live_witness :
  ∃ s held s',
    op_ll_initialize_allocator 8 4 OP_DOUBLING_INDIVIDUAL (boot []) = Ret (Ptr 0 0) s ∧
    run_successful (Ptr 0 0) nine_then_two [] s = Some (held, s') ∧
    ∃ st, op_ll_get_allocator_stats (Ptr 0 0) s' = Ret st s' ∧
          st_active_objects st = Z.of_nat (length held) ∧
          st_active_objects st =
            Z.of_nat (allocations nine_then_two) - Z.of_nat (deallocations nine_then_two) ∧
          live_objects s' (Ptr 0 0) ≡ₚ held.
Proof.
  eexists _, _, _. split; [vm_compute; reflexivity|].
  split; [vm_compute; reflexivity|].
  eapply (active_objects_counts_live 8 4 OP_DOUBLING_INDIVIDUAL (boot []) (Ptr 0 0) _
            nine_then_two);
    [lia|lia|vm_compute; reflexivity|done|vm_compute; reflexivity].
Defined.



(** ** Reuse before growth *)


Lemma run_successful_initialized os C mode s0 allocator s cs held s' :
  0 < C → 0 ≤ os →
  op_ll_initialize_allocator os C mode s0 = Ret allocator s →
  allocator ≠ NULL →
  run_successful allocator cs [] s = Some (held, s') →
  initialized_handle s' allocator.
Proof.
  intros HC Hos Hini Hhd Hrun.
  pose proof (initialize_holds_nothing _ _ _ _ _ _ HC Hos Hini Hhd) as Htr.
  destruct (run_successful_tracks _ _ _ _ _ _ Htr Hrun)
    as [(h & a & d & backed & m & -> & Hinv & _) _].
  by exists h, a, d, backed, m.
Qed.


(** ** Releasing the groups of a chunked pool *)

Lemma group_slots_snoc groups b n :
  group_slots (groups ++ [(b, n)]) = group_slots groups ++ chunk_slots b n.
Proof.
  unfold group_slots. rewrite fmap_app, concat_app. simpl. by rewrite app_nil_r.
Qed.

Lemma group_starts_snoc groups : ∀ off b n,
  group_starts off (groups ++ [(b, n)]) =
    group_starts off groups ++ [off + Z.of_nat (length (group_slots groups))].
Proof.
  induction groups as [|[b' n'] groups IH]; intros off b n; simpl.
  - by rewrite Z.add_0_r.
  - rewrite IH. do 3 f_equal.
    change (group_slots ((b', n') :: groups))
      with (chunk_slots b' n' ++ group_slots groups).
    rewrite length_app, length_chunk_slots. lia.
Qed.

Lemma group_bases_snoc groups b n :
  group_bases (groups ++ [(b, n)]) = group_bases groups ++ [Ptr b 0].
Proof. unfold group_bases. by rewrite fmap_app. Qed.

Lemma expected_starts_S linear C n :
  expected_starts linear C (S n) =
    expected_starts linear C n ++ [capacity_after linear C n].
Proof.
  unfold expected_starts, capacity_after, linear_starts, doubling_starts.
  destruct linear.
  - rewrite (seq_S (S n)), fmap_app. simpl. do 3 f_equal. lia.
  - rewrite seq_S, fmap_app. simpl. done.
Qed.

Lemma callocs_app tr tr' : callocs (tr ++ tr') = callocs tr ++ callocs tr'.
Proof. unfold callocs. apply omap_app. Qed.

Lemma group_bases_in_slots groups g :
  Forall (λ g, 0 < g.2)%nat groups → g ∈ groups → Ptr g.1 0 ∈ group_slots groups.
Proof.
  induction groups as [|g' groups IH]; intros Hpos Hg.
  - by apply elem_of_nil in Hg.
  - apply Forall_cons in Hpos as [Hn Hpos].
    change (group_slots (g' :: groups))
      with (chunk_slots g'.1 g'.2 ++ group_slots groups).
    apply elem_of_app. apply elem_of_cons in Hg as [->|Hg].
    + left. apply chunk_slots_elem. exists 0%nat. split; [done|lia].
    + right. by apply IH.
Qed.

Lemma group_blocks_NoDup groups :
  Forall (λ g, 0 < g.2)%nat groups → NoDup (group_slots groups) → NoDup groups.*1.
Proof.
  induction groups as [|[b n] groups IH]; intros Hpos Hnd; [apply NoDup_nil_2|].
  apply Forall_cons in Hpos as [Hn Hpos]. simpl in Hn.
  change (group_slots ((b, n) :: groups))
    with (chunk_slots b n ++ group_slots groups) in Hnd.
  apply NoDup_app in Hnd as (_ & Hdisj & Hnd). simpl.
  apply NoDup_cons. split; [|by apply IH].
  intros Hb. apply list_elem_of_fmap in Hb as ([b' n'] & Heq & Hg). simpl in Heq. subst b'.
  apply (Hdisj (Ptr b 0)).
  - apply chunk_slots_elem. exists 0%nat. split; [done|lia].
  - by apply (group_bases_in_slots groups (b, n')).
Qed.

(** *** The [free] loops *)

Lemma release_length bs : ∀ hp, length (release bs hp) = length hp.
Proof.
  induction bs as [|b bs IH]; intros hp; [done|].
  change (release (b :: bs) hp) with (release bs (<[b:=None]> hp)).
  by rewrite IH, length_insert.
Qed.

Lemma release_other bs : ∀ hp b, b ∉ bs → release bs hp !! b = hp !! b.
Proof.
  induction bs as [|b' bs IH]; intros hp b Hb; [done|].
  change (release (b' :: bs) hp) with (release bs (<[b':=None]> hp)).
  apply not_elem_of_cons in Hb as [Hne Hb].
  rewrite IH by done. by rewrite list_lookup_insert_ne.
Qed.

Lemma release_released bs : ∀ hp b,
  b ∈ bs → Forall (λ b, b < length hp)%nat bs → release bs hp !! b = Some None.
Proof.
  induction bs as [|b' bs IH]; intros hp b Hb Hlt; [by apply elem_of_nil in Hb|].
  apply Forall_cons in Hlt as [Hb' Hlt].
  change (release (b' :: bs) hp) with (release bs (<[b':=None]> hp)).
  destruct (decide (b ∈ bs)) as [Hin|Hnin].
  - apply IH; [done|]. eapply Forall_impl; [exact Hlt|]. intros x Hx. simpl.
    by rewrite length_insert.
  - apply elem_of_cons in Hb as [->|?]; [|done]. rewrite release_other by done.
    by apply list_lookup_insert_eq.
Qed.

Lemma free_groups_run step : ∀ (gs : list (Z * block)) fuel i s h a d slots,
  heap s !! h = Some (Some (OHandle a)) →
  pool a = Ptr d 0 →
  heap s !! d = Some (Some (OPool slots)) →
  walk step (maximum_objects a) i gs.*1 →
  Forall (λ g, slots !! Z.to_nat g.1 = Some (Ptr g.2 0) ∧
               ∃ o, heap s !! g.2 = Some (Some o)) gs →
  NoDup gs.*2 → h ∉ gs.*2 → d ∉ gs.*2 →
  (length gs ≤ fuel)%nat →
  free_groups fuel step i (Ptr h 0) s =
    Ret tt (mk_sys (release gs.*2 (heap s)) (plan s)
                   (trace s ++ ((λ b, EvFree (Ptr b 0)) <$> gs.*2))).
Proof.
  induction gs as [|[o b] gs IH]; intros fuel i s h a d slots Hh Hp Hd Hwalk Hgs Hnd Hhn Hdn Hfuel.
  - simpl in *. destruct fuel; simpl;
      rewrite (bind_run _ _ _ _ _ (load_run _ _ _ Hh));
      rewrite bool_decide_false by done; unfold ret;
      by rewrite app_nil_r, sys_eta.
  - simpl in *. destruct Hwalk as (-> & Hi & Hwalk).
    apply Forall_cons in Hgs as [[Hslot [ob Hob]] Hgs]. simpl in *.
    apply NoDup_cons in Hnd as [Hb Hnd].
    apply not_elem_of_cons in Hhn as [Hhb Hhn].
    apply not_elem_of_cons in Hdn as [Hdb Hdn].
    destruct fuel as [|fuel]; [lia|]. simpl.
    rewrite (bind_run _ _ _ _ _ (load_run _ _ _ Hh)).
    rewrite bool_decide_true by lia. rewrite Hp.
    erewrite bind_run by (eapply pool_get_run; [exact Hd|lia|exact Hslot]).
    erewrite bind_run by (eapply free_run; exact Hob).
    erewrite (IH fuel (step i) _ h a d slots); simpl; try done.
    + by rewrite <- app_assoc.
    + by rewrite list_lookup_insert_ne.
    + by rewrite list_lookup_insert_ne.
    + rewrite Forall_forall in Hgs. apply Forall_forall.
      intros [o' b'] Hx. destruct (Hgs _ Hx) as [Hs' [o2 Ho2]]. simpl in *.
      split; [done|]. exists o2. rewrite list_lookup_insert_ne; [done|].
      intros ->. apply Hb. apply list_elem_of_fmap. by exists (o', b').
    + lia.
Qed.

(** *** The groups of a chunked pool *)

Lemma initialize_groups os C mode s0 hd s :
  0 < C → 0 ≤ os → (mode_flags mode).1 = true →
  op_ll_initialize_allocator os C mode s0 = Ret hd s → hd ≠ NULL →
  ∃ h a d groups,
    hd = Ptr h 0 ∧ use_linear a = (mode_flags mode).2 ∧
    groups_inv s0 s C h a d groups 0.
Proof.
  intros HC Hos Hch Hini Hhd.
  destruct (initialize_ok _ _ _ _ _ _ HC Hos Hini Hhd) as (-> & _ & _ & Hre & _ & Hinv).
  rewrite Hch in Hinv. destruct Hinv as (Hinv & sz & Ht).
  set (h := length (heap s0)) in *.
  exists h, (mk_allocator os C C true (mode_flags mode).2 true (Ptr (S h) 0)),
         (S h), [(S (S h), Z.to_nat C)].
  split; [done|]. split; [done|]. split; simpl.
  - unfold group_slots. simpl. by rewrite app_nil_r.
  - done.
  - done.
  - unfold capacity_after. destruct (mode_flags mode).2; lia.
  - apply Forall_singleton. simpl. lia.
  - done.
  - unfold expected_starts, linear_starts, doubling_starts.
    by destruct (mode_flags mode).2.
  - eexists _, _. split; [exact Ht|]. done.
  - lia.
Qed.

(** One growth step adds one group. *)
Lemma groups_inv_extend s0 s C h a d groups n s' sz1 sz2 :
  0 < C →
  groups_inv s0 s C h a d groups n →
  let g := if use_linear a then initial_count a else maximum_objects a in
  let nd := length (heap s) in
  pool_inv (heap s') h (grown a nd) nd (group_slots groups ++ chunk_slots (S nd) (Z.to_nat g)) 0 →
  trace s' = trace s ++ [EvRealloc (Ptr d 0) sz1 (Ptr nd 0); EvCalloc g sz2 (Ptr (S nd) 0)] →
  groups_inv s0 s' C h (grown a nd) nd (groups ++ [(S nd, Z.to_nat g)]) (S n).
Proof.
  intros HC [Hinv Hch Hic Hmax Hpos Hlen Hst (d0 & tr & Ht & Hcal) Hre] g nd Hinv' Ht'.
  assert (0 < g) as Hgpos.
  { subst g. destruct Hinv as [_ _ _ _ _ _ ? _ _ _]. destruct (use_linear a); lia. }
  split.
  - by rewrite group_slots_snoc.
  - done.
  - done.
  - simpl. fold g. rewrite Hmax. unfold capacity_after. subst g.
    destruct (use_linear a).
    + rewrite Hic. lia.
    + rewrite Hmax. unfold capacity_after.
      rewrite Nat2Z.inj_succ, Z.pow_succ_r by lia. lia.
  - apply Forall_app. split; [done|]. apply Forall_singleton. simpl. lia.
  - rewrite length_app. simpl. lia.
  - simpl. rewrite group_starts_snoc, expected_starts_S, Hst. do 2 f_equal.
    destruct Hinv as [_ _ _ _ Hl _ _ _ _ _]. rewrite <- Hmax, <- Hl. lia.
  - exists d0, (tr ++ [EvRealloc (Ptr d 0) sz1 (Ptr nd 0); EvCalloc g sz2 (Ptr (S nd) 0)]).
    split.
    + rewrite Ht', Ht. by rewrite <- app_assoc.
    + rewrite callocs_app, Hcal, group_bases_snoc. done.
  - unfold tally in *. rewrite Ht', List.filter_app, length_app. simpl. lia.
Qed.

Lemma grow_groups s0 s C h a d groups n s' :
  0 < C →
  groups_inv s0 s C h a d groups n →
  grow_pool (Ptr h 0) s = Ret true s' →
  ∃ a' d' groups',
    use_linear a' = use_linear a ∧
    groups_inv s0 s' C h a' d' groups' (S n).
Proof.
  intros HC Hginv Hg.
  pose proof Hginv as [Hinv Hch _ _ _ _ _ _ _].
  pose proof (grow_pool_true_quiet _ _ _ Hg) as Hq.
  destruct (grow_pool_quiet _ _ _ _ _ _ _ _ Hinv (λ _, eq_refl) Hg Hq) as (_ & _ & _ & Hgrown).
  rewrite Hch in Hgrown. destruct Hgrown as (Hinv' & _ & Ht').
  eexists _, _, _. split; [|by eapply groups_inv_extend]. done.
Qed.

(** Allocating and releasing objects keeps the groups; an allocation that
    grows the pool adds one. *)
Lemma allocate_groups s0 s C h a d groups n rv s' :
  0 < C →
  groups_inv s0 s C h a d groups n →
  op_ll_allocate_object (Ptr h 0) s = Ret rv s' → quiet s s' →
  ∃ a' d' groups' n',
    use_linear a' = use_linear a ∧ groups_inv s0 s' C h a' d' groups' n'.
Proof.
  intros HC Hginv Hcall Hq.
  pose proof Hginv as [Hinv Hch Hic Hmax Hpos Hlen Hst (d0 & tr & Ht & Hcal) Hre].
  destruct (allocate_quiet _ _ _ _ _ _ _ _ Hinv Hcall Hq)
    as (a' & d' & backed' & m' & p & Hinv' & _ & _ & _ & _ & _ & _ & _ & Hcase).
  destruct Hcase as [(-> & -> & Hre' & _ & Hshape)|(-> & -> & _ & _ & _ & Hshape)].
  - destruct (Hshape eq_refl) as (-> & -> & Ht').
    exists a, d, groups, n. split; [done|]. split; try done.
    + exists d0, tr. by rewrite Ht'.
    + unfold tally in *. by rewrite Ht'.
  - destruct (Hshape Hch) as (-> & -> & sz1 & sz2 & Ht').
    eexists _, _, _, _. split; [|by eapply groups_inv_extend]. done.
Qed.

Lemma deallocate_groups s0 s C h a d groups n p :
  groups_inv s0 s C h a d groups n → p ∈ group_slots groups →
  ∃ s', op_ll_deallocate_object (Ptr h 0) (payload p) s = Ret tt s' ∧
        groups_inv s0 s' C h a d groups n.
Proof.
  intros [Hinv Hch Hic Hmax Hpos Hlen Hst (d0 & tr & Ht & Hcal) Hre] Hp.
  destruct (deallocate_live _ _ _ _ _ _ _ Hinv Hp) as (s' & Hrun & Hinv' & _ & _ & Ht' & _).
  exists s'. split; [done|]. split; try done.
  - exists d0, tr. by rewrite Ht'.
  - unfold tally in *. by rewrite Ht'.
Qed.

Lemma run_successful_groups s0 C h : ∀ cs held s held' s' a d groups n,
  0 < C →
  tracks s (Ptr h 0) held →
  groups_inv s0 s C h a d groups n →
  run_successful (Ptr h 0) cs held s = Some (held', s') →
  ∃ a' d' groups' n',
    use_linear a' = use_linear a ∧ groups_inv s0 s' C h a' d' groups' n'.
Proof.
  induction cs as [|c cs IH]; intros held s held' s' a d groups n HC Htr Hginv Hrun;
    simpl in Hrun.
  - injection Hrun as <- <-. by exists a, d, groups, n.
  - destruct c as [|object].
    + destruct (op_ll_allocate_object (Ptr h 0) s) as [rv s1| |] eqn:Hcall; try done.
      case_bool_decide as Hok; [|done]. destruct Hok as [Hrv Hq].
      destruct (tracks_allocate _ _ _ _ _ Htr Hcall Hq) as [Htr1 _].
      destruct (allocate_groups _ _ _ _ _ _ _ _ _ _ HC Hginv Hcall Hq)
        as (a1 & d1 & groups1 & n1 & Hlin1 & Hginv1).
      destruct (IH _ _ _ _ _ _ _ _ HC Htr1 Hginv1 Hrun)
        as (a' & d' & groups' & n' & Hlin' & Hginv').
      exists a', d', groups', n'. split; [congruence|done].
    + case_bool_decide as Hobj; [|done].
      destruct (op_ll_deallocate_object (Ptr h 0) object s) as [u s1| |] eqn:Hcall; try done.
      destruct (tracks_deallocate _ _ _ _ _ _ Htr Hobj Hcall) as (Htr1 & _).
      assert (∃ p, object = payload p ∧ p ∈ group_slots groups) as (p & -> & Hp).
      { destruct Htr as (h1 & a1 & d1 & backed1 & m1 & [= <-] & Hinv1 & _ & Hel).
        apply Hel, list_elem_of_fmap in Hobj as (p & -> & Hp).
        exists p. split; [done|]. apply active_elem in Hp as [_ Hp].
        pose proof (pool_inv_slots_of _ _ _ _ _ _ Hinv1) as Hs1.
        destruct Hginv as [Hinv _ _ _ _ _ _ _ _].
        rewrite (pool_inv_slots_of _ _ _ _ _ _ Hinv) in Hs1. simpl in Hs1.
        rewrite app_nil_r in Hs1. rewrite Hs1. apply elem_of_app. by left. }
      destruct (deallocate_groups _ _ _ _ _ _ _ _ _ Hginv Hp) as (s1' & Hcall' & Hginv1).
      rewrite Hcall in Hcall'. injection Hcall' as _ <-.
      exact (IH _ _ _ _ _ _ _ _ HC Htr1 Hginv1 Hrun).
Qed.

Lemma grow_times_groups C s0 h n : ∀ k s a d groups s',
  0 < C →
  groups_inv s0 s C h a d groups k →
  grow_times n (Ptr h 0) s = Ret true s' →
  ∃ a' d' groups',
    use_linear a' = use_linear a ∧
    groups_inv s0 s' C h a' d' groups' (k + n).
Proof.
  induction n as [|n IH]; intros k s a d groups s' HC Hinv H.
  - apply ret_Ret in H as [_ <-]. exists a, d, groups. split; [done|].
    by rewrite Nat.add_0_r.
  - simpl in H. apply bind_Ret in H as (ok & s1 & Hg & H).
    destruct ok; [|by apply ret_Ret in H as [? _]].
    destruct (grow_groups _ _ _ _ _ _ _ _ _ HC Hinv Hg) as (a1 & d1 & groups1 & Hlin1 & Hinv1).
    destruct (IH _ _ _ _ _ _ HC Hinv1 H) as (a' & d' & groups' & Hlin' & Hinv').
    exists a', d', groups'. split; [congruence|].
    by replace (k + S n)%nat with (S k + n)%nat by lia.
Qed.

(** *** The offsets the loops visit *)

Lemma walk_linear C max : ∀ m j,
  0 < C → Z.of_nat j * C + Z.of_nat m * C = max → max + C ≤ SIZE_MAX →
  walk (λ i, wrap (i + C)) max (Z.of_nat j * C) ((λ k, Z.of_nat k * C) <$> seq j m).
Proof.
  induction m as [|m IH]; intros j HC Hmax Hb; simpl.
  - lia.
  - split; [done|]. split; [nia|].
    rewrite wrap_small by nia.
    replace (Z.of_nat j * C + C) with (Z.of_nat (S j) * C) by lia.
    apply IH; [done|lia|done].
Qed.

Lemma walk_doubling C n : ∀ m j,
  0 < C → (j + m = n)%nat → 2 * (C * 2 ^ Z.of_nat n) ≤ SIZE_MAX →
  walk (λ i, wrap (Z.shiftl i 1)) (C * 2 ^ Z.of_nat n) (C * 2 ^ Z.of_nat j)
       ((λ k, C * 2 ^ Z.of_nat k) <$> seq j m).
Proof.
  induction m as [|m IH]; intros j HC Hjm Hb; simpl.
  - replace j with n by lia. lia.
  - assert (2 ^ Z.of_nat j < 2 ^ Z.of_nat n) as Hlt
      by (apply Z.pow_lt_mono_r; lia).
    assert (0 < 2 ^ Z.of_nat j) as Hpos by (apply Z.pow_pos_nonneg; lia).
    split; [done|]. split; [nia|].
    rewrite Z.shiftl_mul_pow2 by lia. rewrite Z.pow_1_r.
    assert (2 ^ Z.of_nat (S j) ≤ 2 ^ Z.of_nat n) as Hle
      by (apply Z.pow_le_mono_r; lia).
    assert (C * 2 ^ Z.of_nat j * 2 = C * 2 ^ Z.of_nat (S j)) as Heq
      by (rewrite Nat2Z.inj_succ, Z.pow_succ_r by lia; lia).
    rewrite Heq. rewrite wrap_small by nia.
    apply IH; [done|lia|done].
Qed.

Lemma located_starts groups : ∀ off, (located off groups).*1 = group_starts off groups.
Proof. induction groups as [|g r IH]; intros off; simpl; [done|]. by rewrite IH. Qed.

Lemma located_blocks groups : ∀ off, (located off groups).*2 = groups.*1.
Proof. induction groups as [|g r IH]; intros off; simpl; [done|]. by rewrite IH. Qed.

Lemma located_ok (hp : list (option obj)) : ∀ groups pre off,
  off = Z.of_nat (length pre) →
  Forall (λ g, 0 < g.2)%nat groups →
  Forall (λ g, ∃ o, hp !! g.1 = Some (Some o)) groups →
  Forall (λ x, (pre ++ group_slots groups) !! Z.to_nat x.1 = Some (Ptr x.2 0) ∧
               ∃ o, hp !! x.2 = Some (Some o)) (located off groups).
Proof.
  induction groups as [|[b n] r IH]; intros pre off -> Hpos Hlive; simpl; [done|].
  apply Forall_cons in Hpos as [Hn Hpos]. apply Forall_cons in Hlive as [Hb Hlive].
  simpl in *. apply Forall_cons. split.
  - split; [|done]. simpl. rewrite Nat2Z.id, lookup_app_r by lia.
    rewrite Nat.sub_diag. unfold group_slots. simpl.
    rewrite lookup_app_l by (rewrite length_chunk_slots; lia).
    unfold chunk_slots. rewrite list_lookup_fmap, lookup_seq_lt by lia. done.
  - unfold group_slots. simpl. fold (group_slots r). rewrite app_assoc.
    apply IH; [|done|done]. rewrite length_app, length_chunk_slots. lia.
Qed.

Lemma group_blocks_live hp h a d groups :
  pool_inv hp h a d (group_slots groups) 0 →
  Forall (λ g, 0 < g.2)%nat groups →
  Forall (λ g, ∃ n es, hp !! g.1 = Some (Some (OBlock n es))) groups.
Proof.
  intros [_ _ _ _ _ _ _ _ Hb _] Hpos. apply Forall_forall. intros g Hg.
  pose proof (group_bases_in_slots _ _ Hpos Hg) as Hin.
  rewrite Forall_forall in Hb. destruct (Hb _ Hin) as (e & He & _).
  apply record_at_block in He as (b & k & n & es & [= <- <-] & Hbk & _). eauto.
Qed.

Lemma pow2_gt n : Z.of_nat n < 2 ^ Z.of_nat n.
Proof. apply Z.pow_gt_lin_r; lia. Qed.

(** What deinitialize does to a chunked pool made of groups: it releases
    the base address of every group once, in the order of the groups, then
    the directory and the handle. *)
Lemma deinitialize_groups s0 s C h a d groups n :
  0 < C →
  groups_inv s0 s C h a d groups n →
  ∃ s', op_ll_deinitialize_allocator (Ptr h 0) s = Ret tt s' ∧
        trace s' = trace s ++ (EvFree <$> group_bases groups) ++
                   [EvFree (Ptr d 0); EvFree (Ptr h 0)] ∧
        plan s' = plan s ∧
        heap s' !! h = Some None ∧ heap s' !! d = Some None ∧
        Forall (λ g, heap s' !! g.1 = Some None) groups.
Proof.
  intros HC [Hinv Hch Hic Hmax Hpos Hlen Hst _].
  pose proof Hinv as [Hh Hini Hp Hd Hl Hcap Hstep Hos Hb Hnd].
  rewrite app_nil_r in Hd.
  pose proof (group_blocks_live _ _ _ _ _ Hinv Hpos) as Hlive.
  pose proof (group_blocks_NoDup _ Hpos Hnd) as Hbnd.
  assert (h ∉ groups.*1) as Hhn.
  { intros Hx. apply list_elem_of_fmap in Hx as (g & -> & Hg).
    rewrite Forall_forall in Hlive. destruct (Hlive _ Hg) as (? & ? & ?). congruence. }
  assert (d ∉ groups.*1) as Hdn.
  { intros Hx. apply list_elem_of_fmap in Hx as (g & -> & Hg).
    rewrite Forall_forall in Hlive. destruct (Hlive _ Hg) as (? & ? & ?). congruence. }
  assert (h ≠ d) as Hhd by (intros ->; congruence).
  assert (h < length (heap s))%nat as Hhlt by (by eapply lookup_lt_Some).
  assert (d < length (heap s))%nat as Hdlt by (by eapply lookup_lt_Some).
  set (a1 := set_initialized false a).
  set (hp1 := <[h := Some (OHandle a1)]> (heap s)).
  assert (hp1 !! h = Some (Some (OHandle a1))) as Hh1
    by (by apply list_lookup_insert_eq).
  assert (hp1 !! d = Some (Some (OPool (group_slots groups)))) as Hd1
    by (subst hp1; by rewrite list_lookup_insert_ne).
  assert (Forall (λ g, ∃ o, hp1 !! g.1 = Some (Some o)) groups) as Hlive1.
  { eapply Forall_impl; [exact Hlive|]. intros g (nb & es & Hg). simpl.
    exists (OBlock nb es). subst hp1. rewrite list_lookup_insert_ne; [done|].
    intros ->. congruence. }
  pose proof (located_ok hp1 groups [] 0 eq_refl Hpos Hlive1) as Hloc. simpl in Hloc.
  unfold PTRDIFF_MAX, sizeof_ptr in Hcap.
  (* the loops *)
  assert ((if use_linear a
           then free_groups (Z.to_nat (maximum_objects a))
                  (λ i, wrap (i + initial_count a)) 0 (Ptr h 0)
           else (do p <- pool_get (pool a) 0;
                 free p;;
                 free_groups (Z.to_nat (maximum_objects a))
                   (λ i, wrap (Z.shiftl i 1)) (initial_count a) (Ptr h 0)))
            (mk_sys hp1 (plan s) (trace s)) =
          Ret tt (mk_sys (release groups.*1 hp1) (plan s)
                         (trace s ++ (EvFree <$> group_bases groups)))) as Hloops.
  { assert ((λ b, EvFree (Ptr b 0)) <$> groups.*1 = EvFree <$> group_bases groups) as Hev.
    { unfold group_bases. by rewrite <- !list_fmap_compose. }
    destruct (use_linear a) eqn:Hlin.
    - (* linear growth *)
      erewrite (free_groups_run _ (located 0 groups) _ _ _ h a1 d); simpl; try done.
      + by rewrite located_blocks, Hev.
      + rewrite located_starts, Hst. unfold expected_starts, linear_starts.
        rewrite Hmax, Hic. unfold capacity_after.
        apply (walk_linear C (C + Z.of_nat n * C) (S n) 0%nat); [done|lia|].
        unfold SIZE_MAX.
        rewrite Hmax in Hcap. unfold capacity_after in Hcap. lia.
      + by rewrite located_blocks.
      + by rewrite located_blocks.
      + by rewrite located_blocks.
      + rewrite <- (length_fmap snd), located_blocks, length_fmap, Hlen, Hmax.
        unfold capacity_after. nia.
    - (* doubling growth: the first group, then the loop *)
      destruct groups as [|[b0 n0] rest]; [done|]. simpl in Hloc, Hst.
      apply Forall_cons in Hloc as [[Hslot0 [o0 Hlive0]] Hloc]. simpl in *.
      apply NoDup_cons in Hbnd as [Hb0 Hbnd].
      apply not_elem_of_cons in Hhn as [Hhb Hhn].
      apply not_elem_of_cons in Hdn as [Hdb Hdn].
      unfold expected_starts, doubling_starts in Hst. injection Hst as Hst.
      rewrite Hp.
      erewrite bind_run by (eapply pool_get_run; [exact Hd1|lia|exact Hslot0]).
      erewrite bind_run by (eapply free_run; exact Hlive0).
      erewrite (free_groups_run _ (located (0 + Z.of_nat n0) rest) _ _ _ h a1 d); simpl; try done.
      + rewrite located_blocks. rewrite <- Hev. simpl. by rewrite <- app_assoc.
      + by rewrite list_lookup_insert_ne.
      + by rewrite list_lookup_insert_ne.
      + rewrite located_starts, Hst, Hmax, Hic. unfold capacity_after.
        replace C with (C * 2 ^ Z.of_nat 0) at 2 by (simpl; lia).
        apply walk_doubling; [done|lia|]. unfold SIZE_MAX.
        rewrite Hmax in Hcap. unfold capacity_after in Hcap. lia.
      + rewrite Forall_forall in Hloc. apply Forall_forall.
        intros [o b] Hx. destruct (Hloc _ Hx) as [Hs' [o2 Ho2]]. simpl in *.
        split; [done|]. exists o2. rewrite list_lookup_insert_ne; [done|].
        intros ->. apply Hb0.
        pose proof (located_blocks rest (0 + Z.of_nat n0)) as Hlb.
        apply (list_elem_of_fmap_2 snd) in Hx. rewrite Hlb in Hx. exact Hx.
      + by rewrite located_blocks.
      + by rewrite located_blocks.
      + by rewrite located_blocks.
      + rewrite <- (length_fmap snd), located_blocks, length_fmap.
        simpl in Hlen. injection Hlen as ->. rewrite Hmax. unfold capacity_after.
        pose proof (pow2_gt n). nia. }
  eexists. split.
  { unfold op_ll_deinitialize_allocator.
    rewrite (bind_run _ _ _ _ _ (load_run _ _ _ Hh)). rewrite Hini.
    erewrite bind_run by (eapply store_run; exact Hh).
    fold a1. fold hp1. rewrite Hch.
    erewrite bind_run by exact Hloops.
    rewrite Hp.
    erewrite bind_run; last first.
    { eapply free_run. simpl. rewrite release_other by done. exact Hd1. }
    eapply free_run. simpl. rewrite list_lookup_insert_ne by done.
    rewrite release_other by done. exact Hh1. }
  simpl. split; [by rewrite <- !app_assoc|]. split; [done|].
  assert (length (release groups.*1 hp1) = length (heap s)) as Hlr
    by (rewrite release_length; subst hp1; by rewrite length_insert).
  split; [apply list_lookup_insert_eq; rewrite length_insert; lia|].
  split; [rewrite list_lookup_insert_ne by done; apply list_lookup_insert_eq; lia|].
  apply Forall_forall. intros g Hg.
  assert (g.1 ∈ groups.*1) as Hgb by (apply list_elem_of_fmap; by exists g).
  rewrite !list_lookup_insert_ne by (intros ->; done).
  apply release_released; [done|].
  apply Forall_fmap. eapply Forall_impl; [exact Hlive1|]. intros x [o Ho]. simpl.
  by eapply lookup_lt_Some.
Qed.

Lemma starts_hold_bases : ∀ groups pre off,
  off = Z.of_nat (length pre) →
  Forall (λ g, 0 < g.2)%nat groups →
  Forall2 (λ o g, (pre ++ group_slots groups) !! Z.to_nat o = Some (Ptr g.1 0))
          (group_starts off groups) groups.
Proof.
  induction groups as [|[b n] r IH]; intros pre off -> Hpos; simpl; [constructor|].
  apply Forall_cons in Hpos as [Hn Hpos]. simpl in Hn.
  unfold group_slots. simpl. fold (group_slots r). constructor.
  - simpl. rewrite Nat2Z.id, lookup_app_r by lia. rewrite Nat.sub_diag.
    rewrite lookup_app_l by (rewrite length_chunk_slots; lia).
    unfold chunk_slots. rewrite list_lookup_fmap, lookup_seq_lt by lia. done.
  - rewrite app_assoc. apply IH; [|done]. rewrite length_app, length_chunk_slots. lia.
Qed.

(** What deinitialize does on a handle whose directory is in groups. *)
Lemma groups_deinitialize s0 s C h a d groups n :
  0 < C →
  groups_inv s0 s C h a d groups n →
  ∃ d0 tr s',
    tally is_realloc s = (tally is_realloc s0 + n)%nat ∧
    handle_of s (Ptr h 0) = Some a ∧
    slots_of s (Ptr h 0) = group_slots groups ∧
    length groups = S n ∧
    group_starts 0 groups = expected_starts (use_linear a) C n ∧
    Forall2 (λ o g, slots_of s (Ptr h 0) !! Z.to_nat o = Some (Ptr g.1 0))
            (group_starts 0 groups) groups ∧
    trace s = trace s0 ++ tr ∧
    callocs tr = Ptr h 0 :: d0 :: group_bases groups ∧
    op_ll_deinitialize_allocator (Ptr h 0) s = Ret tt s' ∧
    trace s' = trace s ++ (EvFree <$> group_bases groups) ++
               [EvFree (pool a); EvFree (Ptr h 0)] ∧
    Forall (λ g, heap s' !! g.1 = Some None) groups.
Proof.
  intros HC Hinv.
  destruct (deinitialize_groups _ _ _ _ _ _ _ _ HC Hinv)
    as (s' & Hde & Ht' & _ & _ & _ & Hrel).
  destruct Hinv as [Hpinv Hchk Hic Hmax Hpos Hlen Hst (dd & tr & Ht & Hcal) Hre].
  pose proof (pool_inv_slots_of _ _ _ _ _ _ Hpinv) as Hslots.
  simpl in Hslots. rewrite app_nil_r in Hslots.
  exists dd, tr, s'.
  split; [done|].
  split; [by eapply pool_inv_handle_of|]. split; [done|]. split; [done|].
  split; [done|].
  split.
  { rewrite Hslots. by apply (starts_hold_bases groups [] 0). }
  split; [done|]. split; [done|]. split; [done|].
  split; [|done].
  destruct Hpinv as [_ _ -> _ _ _ _ _ _ _]. done.
Qed.

(** The same after [n] direct growth steps. *)
Lemma deinitialize_after_grow_times os C mode n s0 allocator s :
  0 < C → 0 ≤ os →
  mode = OP_DOUBLING_CHUNK ∨ mode = OP_LINEAR_CHUNK →
  (do hd <- op_ll_initialize_allocator os C mode;
   do ok <- grow_times n hd;
   ret (hd, ok)) s0 = Ret (allocator, true) s →
  allocator ≠ NULL →
  ∃ a groups s',
    handle_of s allocator = Some a ∧
    slots_of s allocator = group_slots groups ∧
    group_starts 0 groups =
      match mode with
      | OP_LINEAR_CHUNK => linear_starts C n
      | _ => doubling_starts C n
      end ∧
    op_ll_deinitialize_allocator allocator s = Ret tt s' ∧
    trace s' = trace s ++ (EvFree <$> group_bases groups) ++
               [EvFree (pool a); EvFree allocator].
Proof.
  intros HC Hos Hmode H Hhd.
  apply bind_Ret in H as (hd & s1 & Hini & H).
  apply bind_Ret in H as (ok & s2 & Hgrow & H).
  apply ret_Ret in H as [[= -> ->] ->].
  assert ((mode_flags mode).1 = true) as Hch by (by destruct Hmode as [-> | ->]).
  destruct (initialize_groups _ _ _ _ _ _ HC Hos Hch Hini Hhd)
    as (h & a0 & d0 & groups0 & -> & Hlin0 & Hinv0).
  destruct (grow_times_groups _ _ _ _ _ _ _ _ _ _ HC Hinv0 Hgrow)
    as (a & d & groups & Hlin & Hinv).
  simpl in Hinv.
  destruct (groups_deinitialize _ _ _ _ _ _ _ _ HC Hinv)
    as (dd & tr & s' & _ & Ha & Hsl & _ & Hst & _ & _ & _ & Hde & Ht & _).
  exists a, groups, s'. repeat split; try done.
  rewrite Hst, Hlin, Hlin0. unfold expected_starts.
  by destruct Hmode as [-> | ->].
Qed.

(** X20.  A chunked handle is initialized with capacity [C > 0] and then used
    through any sequence of allocate and deallocate calls that report no
    error, during which the pool grew [n] times ([realloc] was called [n]
    times).  Its directory is then the concatenation of [n + 1] groups of
    slots, each group holding the records of one block that [fill_chunks]
    obtained from [calloc], in their order; the groups start at the offsets
    [0, C, 2C, ..., nC] under linear growth and [0, C, 2C, 4C, ...,
    2^(n-1) C] under doubling growth.  Deinitialize returns, and the calls
    it makes to [free] are: the slot at the start of each group, that is the
    base address of the group's block, once per group and in the order of
    the groups; then the directory; then the handle. *)
Theorem deinitialize_frees_groups os C mode cs s0 allocator s1 held s :
  0 < C → 0 ≤ os →
  mode = OP_DOUBLING_CHUNK ∨ mode = OP_LINEAR_CHUNK →
  op_ll_initialize_allocator os C mode s0 = Ret allocator s1 →
  allocator ≠ NULL →
  run_successful allocator cs [] s1 = Some (held, s) →
  ∃ n a groups d0 tr s',
    tally is_realloc s = (tally is_realloc s0 + n)%nat ∧
    handle_of s allocator = Some a ∧
    slots_of s allocator = group_slots groups ∧
    length groups = S n ∧
    group_starts 0 groups =
      match mode with
      | OP_LINEAR_CHUNK => linear_starts C n
      | _ => doubling_starts C n
      end ∧
    Forall2 (λ o g, slots_of s allocator !! Z.to_nat o = Some (Ptr g.1 0))
            (group_starts 0 groups) groups ∧
    trace s = trace s0 ++ tr ∧
    callocs tr = allocator :: d0 :: group_bases groups ∧
    op_ll_deinitialize_allocator allocator s = Ret tt s' ∧
    trace s' = trace s ++ (EvFree <$> group_bases groups) ++
               [EvFree (pool a); EvFree allocator] ∧
    Forall (λ g, heap s' !! g.1 = Some None) groups.
Proof.
  intros HC Hos Hmode Hini Hhd Hrun.
  assert ((mode_flags mode).1 = true) as Hch by (by destruct Hmode as [-> | ->]).
  pose proof (initialize_holds_nothing _ _ _ _ _ _ HC Hos Hini Hhd) as Htr.
  destruct (initialize_groups _ _ _ _ _ _ HC Hos Hch Hini Hhd)
    as (h & a0 & d0 & groups0 & -> & Hlin0 & Hinv0).
  destruct (run_successful_groups _ _ _ _ _ _ _ _ _ _ _ _ HC Htr Hinv0 Hrun)
    as (a & d & groups & n & Hlin & Hinv).
  destruct (groups_deinitialize _ _ _ _ _ _ _ _ HC Hinv)
    as (dd & tr & s' & Hre & Ha & Hsl & Hlen & Hst & Hbase & Ht & Hcal & Hde & Ht' & Hrel).
  exists n, a, groups, dd, tr, s'. repeat (split; [done|]).
  split.
  { rewrite Hst, Hlin, Hlin0. unfold expected_starts.
    by destruct Hmode as [-> | ->]. }
  done.
Qed.

Lemma deinitialize_frees_groups_witness :
  ∃ s1 held s,
    op_ll_initialize_allocator 8 2 OP_DOUBLING_CHUNK (boot []) = Ret (Ptr 0 0) s1 ∧
    run_successful (Ptr 0 0)
      [Allocate; Allocate; Allocate; Deallocate (Data 2 0); Allocate; Allocate; Allocate]
      [] s1 = Some (held, s) ∧
    ∃ n a groups d0 tr s',
      tally is_realloc s = (tally is_realloc (boot []) + n)%nat ∧
      handle_of s (Ptr 0 0) = Some a ∧
      slots_of s (Ptr 0 0) = group_slots groups ∧
      length groups = S n ∧
      group_starts 0 groups =
        doubling_starts 2 n ∧
      Forall2 (λ o g, slots_of s (Ptr 0 0) !! Z.to_nat o = Some (Ptr g.1 0))
              (group_starts 0 groups) groups ∧
      trace s = trace (boot []) ++ tr ∧
      callocs tr = Ptr 0 0 :: d0 :: group_bases groups ∧
      op_ll_deinitialize_allocator (Ptr 0 0) s = Ret tt s' ∧
      trace s' = trace s ++ (EvFree <$> group_bases groups) ++
                 [EvFree (pool a); EvFree (Ptr 0 0)] ∧
      Forall (λ g, heap s' !! g.1 = Some None) groups.
Proof.
  eexists _, _, _. split; [vm_compute; reflexivity|]. split; [vm_compute; reflexivity|].
  eapply (deinitialize_frees_groups 8 2 OP_DOUBLING_CHUNK
            [Allocate; Allocate; Allocate; Deallocate (Data 2 0); Allocate; Allocate; Allocate]
            (boot []) (Ptr 0 0));
    [lia|lia|by left|vm_compute; reflexivity|done|].
  vm_compute; reflexivity.
Defined.

(** ** Handles that are not initialized *)

(** C9 (counterexample).  [op_ll_get_allocator_stats] on a null handle
    returns empty statistics and does not invoke the error hook; and the
    handle that [op_ll_deinitialize_allocator] has released is no record
    with a cleared flag but freed storage: allocate, get_stats and
    deallocate all read it. *)
Lemma uninitialized_handle_counterexample :
  (∃ st s', op_ll_get_allocator_stats NULL (boot []) = Ret st s' ∧
            st = mk_stats 0 0 0 ∧ trace s' = []) ∧
  (∃ s, released_handle (boot []) = Ret (Ptr 0 0) s ∧
        heap s !! 0%nat = Some None ∧
        op_ll_allocate_object (Ptr 0 0) s = Fault ∧
        op_ll_get_allocator_stats (Ptr 0 0) s = Fault ∧
        op_ll_deallocate_object (Ptr 0 0) (Data 2 0) s = Fault).
Proof.
  split.
  - eexists _, _. split; [reflexivity|]. done.
  - eexists. split; [vm_compute; reflexivity|]. by vm_compute.
Qed.

(** C9 (amended).  On a null handle, or on a handle whose record is there
    with [initialized] false, allocate reports the failure through the error
    hook and returns null, and get_stats returns empty statistics without
    reporting anything; deallocate reports when the handle or the object is
    null.  None of these calls frees or writes anything. *)
Theorem uninitialized_handle_is_neutral s allocator :
  not_initialized s allocator →
  op_ll_allocate_object allocator s =
    Ret NULL (log (EvError "Could not allocate desired object.")
                (log (EvError "Attempted to allocate from uninitialized allocator.") s)) ∧
  op_ll_get_allocator_stats allocator s = Ret (mk_stats 0 0 0) s ∧
  ∀ object, allocator = NULL ∨ object = NULL →
    op_ll_deallocate_object allocator object s =
      Ret tt (log (EvError "Invalid allocator or object while deallocating.") s).
Proof.
  intros Hn. split; [|split].
  - destruct Hn as [->|(a & Ha & Hi)]; [done|].
    unfold handle_of in Ha. destruct (load allocator s) as [a' s'| |] eqn:Hl; try done.
    injection Ha as ->. pose proof Hl as Hl'.
    apply load_Ret in Hl' as (h & -> & _ & ->).
    unfold op_ll_allocate_object.
    erewrite bind_run; last first.
    { rewrite (bind_run _ _ _ _ _ Hl), Hi. reflexivity. }
    done.
  - destruct Hn as [->|(a & Ha & Hi)]; [done|].
    unfold handle_of in Ha. destruct (load allocator s) as [a' s'| |] eqn:Hl; try done.
    injection Ha as ->. pose proof Hl as Hl'.
    apply load_Ret in Hl' as (h & -> & _ & ->).
    unfold op_ll_get_allocator_stats.
    by rewrite (bind_run _ _ _ _ _ Hl), Hi.
  - intros object [->| ->]; [done|].
    unfold op_ll_deallocate_object.
    rewrite (bool_decide_false (NULL ≠ NULL)) by (by intros ?).
    by rewrite andb_false_r.
Qed.

Lemma uninitialized_handle_is_neutral_witness :
  not_initialized (boot []) NULL ∧
  (op_ll_allocate_object NULL (boot []) =
     Ret NULL (log (EvError "Could not allocate desired object.")
                 (log (EvError "Attempted to allocate from uninitialized allocator.")
                    (boot []))) ∧
   op_ll_get_allocator_stats NULL (boot []) = Ret (mk_stats 0 0 0) (boot []) ∧
   ∀ object, NULL = NULL ∨ object = NULL →
     op_ll_deallocate_object NULL object (boot []) =
       Ret tt (log (EvError "Invalid allocator or object while deallocating.") (boot []))).
Proof.
  split; [by left|]. apply uninitialized_handle_is_neutral. by left.
Defined.
(** ** Initialization *)

Lemma never_refused_hd s : never_refused s → hd true (plan s) = true.
Proof. unfold never_refused. destruct (plan s); [done|]. by intros [-> _]%Forall_cons. Qed.

Lemma never_refused_tail h pl tr h' tr' :
  never_refused (mk_sys h pl tr) → never_refused (mk_sys h' (tail pl) tr').
Proof.
  unfold never_refused. simpl. destruct pl; [done|]. by intros [_ ?]%Forall_cons.
Qed.

(** X1.  Whenever [op_ll_initialize_allocator] returns null it has called
    the error hook exactly once and has released every block it had
    obtained: the heap is the one it found, followed by at most two released
    blocks (the handle record and the directory). *)
Theorem initialize_failure_releases os C mode s s' :
  op_ll_initialize_allocator os C mode s = Ret NULL s' →
  tally is_error s' = S (tally is_error s) ∧
  ∃ k, (k ≤ 2)%nat ∧ heap s' = heap s ++ replicate k None.
Proof.
  intros H. unfold op_ll_initialize_allocator in H.
  destruct (mode_flags mode) as [chunks linear].
  apply bind_Ret in H as (rv & s1 & Hc & H).
  apply calloc_Ret in Hc as [(-> & _ & ->)|(-> & ->)]; last first.
  { run_inv. split; [err_solve|]. exists 0%nat. split; [lia|]. simpl. by rewrite app_nil_r. }
  set (h := length (heap s)) in *.
  erewrite bind_run in H; last first.
  { eapply store_run. simpl. by apply lookup_snoc_at. }
  simpl in H.
  apply bind_Ret in H as (p & s2 & Hc & H).
  apply calloc_Ret in Hc as [(-> & Hcap & ->)|(-> & ->)]; simpl in H; last first.
  { (* the directory is refused *)
    erewrite bind_run in H; last first.
    { eapply store_run. simpl. apply list_lookup_insert_eq. len. }
    simpl in H.
    erewrite bind_run in H; last first.
    { eapply free_run. simpl. apply list_lookup_insert_eq. len. }
    run_inv. split; [err_solve|]. exists 1%nat. split; [lia|]. simpl.
    rewrite !list_insert_insert_eq. subst h. by rewrite insert_app_r_alt, Nat.sub_diag by lia. }
  rewrite length_insert, length_app in H. simpl in H.
  fold h in H. replace (h + 1)%nat with (S h) in H by lia.
  erewrite bind_run in H; last first.
  { eapply store_run. simpl. rewrite lookup_app_l by len.
    apply list_lookup_insert_eq. len. }
  simpl in H.
  destruct chunks; [|by run_inv].
  apply bind_Ret in H as (filled & s3 & Hf & H).
  destruct filled; [by run_inv|].
  unfold fill_chunks in Hf.
  erewrite bind_run in Hf; last first.
  { apply load_run. simpl. apply list_lookup_insert_eq. len. }
  simpl in Hf.
  apply bind_Ret in Hf as (chunk & s4 & Hc & Hf).
  apply calloc_ab_Ret in Hc as [(-> & _ & _ & ->)|(-> & ->)]; [by run_inv|].
  simpl in Hf.
  apply bind_Ret in Hf as ([] & s5 & He & Hf).
  apply op_error_handler_Ret in He as ->. apply ret_Ret in Hf as [_ <-].
  erewrite bind_run in H; last first.
  { eapply free_run. simpl. rewrite list_lookup_insert_ne by lia. apply lookup_snoc_at. len. }
  simpl in H.
  erewrite bind_run in H; last first.
  { eapply free_run. simpl. rewrite list_lookup_insert_ne by lia.
    apply list_lookup_insert_eq. len. }
  run_inv. split; [err_solve|]. exists 2%nat. split; [lia|]. simpl.
  apply list_eq. intros b.
  destruct (decide (b = h)) as [->|Hbh].
  { rewrite list_lookup_insert_eq by len. subst h.
    rewrite lookup_app_r by lia. by rewrite Nat.sub_diag. }
  rewrite list_lookup_insert_ne by done.
  destruct (decide (b = S h)) as [->|Hbs].
  { rewrite list_lookup_insert_eq by len. subst h.
    rewrite lookup_app_r by lia. by replace (S (length (heap s)) - length (heap s))%nat with 1%nat by lia. }
  rewrite !list_lookup_insert_ne by done.
  destruct (decide (b < h)%nat).
  - rewrite !lookup_app_l by len. rewrite list_lookup_insert_ne by done.
    by rewrite lookup_app_l by (subst h; lia).
  - rewrite !lookup_ge_None_2; [done|len; subst h; lia|len; subst h; lia].
Qed.

Lemma initialize_failure_releases_witness :
  ∃ s', op_ll_initialize_allocator 8 4 OP_LINEAR_CHUNK (boot [true; true; false]) = Ret NULL s' ∧
        tally is_error s' = S (tally is_error (boot [true; true; false])) ∧
        ∃ k, (k ≤ 2)%nat ∧ heap s' = heap (boot [true; true; false]) ++ replicate k None.
Proof.
  eexists. split; [vm_compute; reflexivity|].
  apply (initialize_failure_releases 8 4 OP_LINEAR_CHUNK (boot [true; true; false])).
  vm_compute; reflexivity.
Defined.

(** [fill_chunks] when its request is granted. *)
Lemma fill_chunks_run s h a d pre ws n :
  heap s !! h = Some (Some (OHandle a)) →
  pool a = Ptr d 0 →
  heap s !! d = Some (Some (OPool (pre ++ ws))) →
  length ws = Z.to_nat n → 0 < n → 0 ≤ object_size a →
  hd true (plan s) = true →
  n * (n * (sizeof_ab_t + object_size a)) ≤ PTRDIFF_MAX →
  Z.of_nat (length pre) + n ≤ SIZE_MAX →
  fill_chunks (Ptr h 0) (Z.of_nat (length pre)) n s =
    Ret true
      (mk_sys (<[d := Some (OPool (pre ++ chunk_slots (length (heap s)) (Z.to_nat n)))]>
                 (heap s ++ [Some (OBlock (n * (n * (sizeof_ab_t + object_size a)))
                                      (replicate (Z.to_nat n) (zero_ab (object_size a))))]))
              (tail (plan s))
              (trace s ++ [EvCalloc n (n * (sizeof_ab_t + object_size a))
                                    (Ptr (length (heap s)) 0)])).
Proof.
  intros Hh Hp Hd Hws Hn Hos Hpl Hbytes Hoff.
  pose proof (lookup_lt_Some _ _ _ Hh) as Hhlt.
  pose proof (lookup_lt_Some _ _ _ Hd) as Hdlt.
  unfold sizeof_ab_t, PTRDIFF_MAX in *.
  assert (wrap (4 + object_size a) = 4 + object_size a) as Hw1
    by (apply wrap_small; unfold SIZE_MAX; nia).
  assert (wrap (n * (4 + object_size a)) = n * (4 + object_size a)) as Hw2
    by (apply wrap_small; unfold SIZE_MAX; nia).
  unfold fill_chunks.
  rewrite (bind_run _ _ _ _ _ (load_run _ _ _ Hh)).
  simpl. unfold sizeof_ab_t. rewrite Hw1, Hw2.
  erewrite bind_run; last first.
  { apply calloc_ab_run; [done|unfold PTRDIFF_MAX; lia|unfold sizeof_ab_t; nia]. }
  simpl.
  erewrite bind_run; last first.
  { eapply (fill_loop_run _ pre [] ws); simpl.
    - rewrite lookup_app_l by lia. exact Hh.
    - exact Hp.
    - rewrite lookup_app_l by lia. exact Hd.
    - done.
    - done.
    - done.
    - lia. }
  reflexivity.
Qed.

(** When no request is refused and the sizes are admissible, initialization
    returns a fresh handle. *)
Lemma initialize_run os C mode s :
  0 < C → 0 ≤ os → never_refused s →
  sizeof_ptr * C ≤ PTRDIFF_MAX →
  ((mode_flags mode).1 = true → C * (C * (sizeof_ab_t + os)) ≤ PTRDIFF_MAX) →
  ∃ s', op_ll_initialize_allocator os C mode s = Ret (Ptr (length (heap s)) 0) s' ∧
        quiet s s' ∧ never_refused s'.
Proof.
  intros HC Hos Hnr Hdir Hchunk. unfold op_ll_initialize_allocator.
  destruct (mode_flags mode) as [chunks linear]. simpl in Hchunk.
  destruct s as [hp pl tr]. simpl.
  set (h := length hp).
  erewrite bind_run; last first.
  { apply calloc_run; [exact (never_refused_hd _ Hnr)|done]. }
  simpl. fold h.
  erewrite bind_run; last first.
  { eapply store_run. simpl. by apply lookup_snoc_at. }
  simpl.
  erewrite bind_run; last first.
  { apply calloc_run; simpl.
    - apply (never_refused_hd (mk_sys hp (tail pl) tr)).
      exact (never_refused_tail _ _ _ hp tr Hnr).
    - unfold sizeof_ptr in *. lia. }
  simpl. rewrite length_insert, length_app. simpl. fold h.
  replace (h + 1)%nat with (S h) by lia.
  erewrite bind_run; last first.
  { eapply store_run. simpl. rewrite lookup_app_l by len.
    apply list_lookup_insert_eq. len. }
  simpl.
  assert (never_refused (mk_sys hp (tail (tail pl)) tr)) as Hnr2.
  { exact (never_refused_tail hp _ tr _ _ (never_refused_tail _ _ _ hp tr Hnr)). }
  destruct chunks.
  - specialize (Hchunk eq_refl).
    unfold sizeof_ab_t, PTRDIFF_MAX, sizeof_ptr in *.
    assert (wrap (4 + os) = 4 + os) as Hw1 by (apply wrap_small; unfold SIZE_MAX; nia).
    assert (wrap (C * (4 + os)) = C * (4 + os)) as Hw2
      by (apply wrap_small; unfold SIZE_MAX; nia).
    erewrite bind_run; last first.
    { eapply (fill_chunks_run _ h _ (S h) [] (replicate (Z.to_nat C) NULL)); simpl.
      - rewrite list_lookup_insert_eq by len. reflexivity.
      - reflexivity.
      - rewrite list_lookup_insert_ne by lia. apply lookup_snoc_at. len.
      - by rewrite length_replicate.
      - done.
      - done.
      - exact (never_refused_hd _ Hnr2).
      - unfold sizeof_ab_t, PTRDIFF_MAX. simpl. lia.
      - unfold SIZE_MAX. simpl. lia. }
    eexists. split; [reflexivity|]. split.
    + unfold quiet, tally. simpl. rewrite !List.filter_app, !length_app. simpl. lia.
    + exact (never_refused_tail _ _ _ _ _ Hnr2).
  - eexists. split; [reflexivity|]. split.
    + unfold quiet, tally. simpl. rewrite !List.filter_app, !length_app. simpl. lia.
    + exact Hnr2.
Qed.

(** X2.  When no allocation request is refused and the directory and, for a
    chunked layout, the first chunk are of admissible size, initialization
    returns a fresh handle without calling the error hook, and [get_stats]
    on it reports the object size and the capacity that were asked for and
    no active object. *)
Theorem initialize_granted os C mode s :
  0 < C → 0 ≤ os → never_refused s →
  sizeof_ptr * C ≤ PTRDIFF_MAX →
  ((mode_flags mode).1 = true → C * (C * (sizeof_ab_t + os)) ≤ PTRDIFF_MAX) →
  ∃ s', op_ll_initialize_allocator os C mode s = Ret (Ptr (length (heap s)) 0) s' ∧
        quiet s s' ∧
        initialized_handle s' (Ptr (length (heap s)) 0) ∧
        op_ll_get_allocator_stats (Ptr (length (heap s)) 0) s' = Ret (mk_stats os C 0) s'.
Proof.
  intros HC Hos Hnr Hdir Hchunk.
  destruct (initialize_run os C mode s HC Hos Hnr Hdir Hchunk) as (s' & Hrun & Hq & _).
  exists s'. split; [done|]. split; [done|].
  destruct (initialize_tracks _ _ _ _ _ _ HC Hos Hrun ltac:(done))
    as (h & a & d & backed & m & [= <-] & Hinv & Hact & Hmax & _ & Hsz & _).
  split; [by exists (length (heap s)), a, d, backed, m|].
  rewrite (get_stats_run _ _ _ _ _ _ Hinv), Hact, Hmax, Hsz. done.
Qed.

Lemma initialize_granted_witness :
  ∃ s', op_ll_initialize_allocator 8 4 OP_DOUBLING_CHUNK (boot []) =
          Ret (Ptr (length (heap (boot []))) 0) s' ∧
        quiet (boot []) s' ∧
        initialized_handle s' (Ptr (length (heap (boot []))) 0) ∧
        op_ll_get_allocator_stats (Ptr (length (heap (boot []))) 0) s' =
          Ret (mk_stats 8 4 0) s'.
Proof.
  apply (initialize_granted 8 4 OP_DOUBLING_CHUNK (boot [])).
  - lia.
  - lia.
  - by apply Forall_nil.
  - by vm_compute.
  - intros _. by vm_compute.
Defined.

(** ** The object that an allocation returns *)

(** What the three statements that hand a record out have done, when they
    return. *)
Lemma claim_record_Ret p os s rv s' :
  (do rv <- data_of p;
   memset0 rv os;;
   set_in_use p IN_USE;;
   ret rv) s = Ret rv s' →
  ∃ b k n es e,
    p = Ptr b k ∧ rv = Data b k ∧
    heap s !! b = Some (Some (OBlock n es)) ∧ es !! k = Some e ∧
    (Z.to_nat os ≤ length (data e))%nat ∧
    s' = mk_sys (<[b := Some (OBlock n (<[k := mk_ab IN_USE (replicate (Z.to_nat os) 0 ++
                                                              drop (Z.to_nat os) (data e))]> es))]>
                   (heap s))
                (plan s) (trace s).
Proof.
  intros H.
  apply bind_Ret in H as (rv' & s1 & Hd & H).
  apply data_of_Ret in Hd as (b & k & -> & -> & ->).
  apply bind_Ret in H as ([] & s2 & Hm & H).
  apply bind_Ret in H as ([] & s3 & Hu & H).
  apply ret_Ret in H as [<- <-].
  unfold memset0 in Hm.
  apply bind_Ret in Hm as (e & s4 & Hg & Hm).
  apply ab_get_Ret in Hg as (b' & k' & n & es & [= <- <-] & Hb & Hk & ->).
  case_bool_decide as Hle; [|done].
  apply ab_set_Ret in Hm as (b' & k' & n' & es' & e0 & [= <- <-] & Hb' & Hk' & ->).
  rewrite Hb in Hb'. injection Hb' as <- <-.
  unfold set_in_use in Hu.
  apply bind_Ret in Hu as (e1 & s5 & Hg & Hu).
  apply ab_get_Ret in Hg as (b' & k' & n' & es' & [= <- <-] & Hb1 & Hk1 & ->).
  apply ab_set_Ret in Hu as (b' & k' & n'' & es'' & e2 & [= <- <-] & Hb2 & Hk2 & ->).
  simpl in *.
  assert (b < length (heap s))%nat as Hblt by (by eapply lookup_lt_Some).
  assert (k < length es)%nat as Hklt by (by eapply lookup_lt_Some).
  rewrite list_lookup_insert_eq in Hb1 by done. injection Hb1 as <- <-.
  rewrite list_lookup_insert_eq in Hb2 by done. injection Hb2 as <- <-.
  rewrite list_lookup_insert_eq in Hk1 by done. injection Hk1 as <-.
  exists b, k, n, es, e. simpl.
  split; [done|]. split; [done|]. split; [done|]. split; [done|]. split; [done|].
  by rewrite !list_insert_insert_eq.
Qed.

Lemma handed_out_intro s h a d slots i b k n es e os :
  heap s !! h = Some (Some (OHandle a)) → pool a = Ptr d 0 →
  heap s !! d = Some (Some (OPool slots)) →
  slots !! i = Some (Ptr b k) →
  heap s !! b = Some (Some (OBlock n es)) → es !! k = Some e →
  os = object_size a →
  (Z.to_nat os ≤ length (data e))%nat →
  handed_out (Ptr h 0)
    (mk_sys (<[b := Some (OBlock n (<[k := mk_ab IN_USE (replicate (Z.to_nat os) 0 ++
                                                          drop (Z.to_nat os) (data e))]> es))]>
               (heap s))
            (plan s) (trace s))
    (Data b k).
Proof.
  intros Hh Hp Hd Hi Hb Hk -> Hle.
  assert (b ≠ h) as Hbh by (intros ->; congruence).
  assert (b ≠ d) as Hbd by (intros ->; congruence).
  exists (Ptr b k), a, (mk_ab IN_USE (replicate (Z.to_nat (object_size a)) 0 ++
                                       drop (Z.to_nat (object_size a)) (data e))).
  split; [done|].
  assert (handle_of
            (mk_sys (<[b := Some (OBlock n (<[k := mk_ab IN_USE
               (replicate (Z.to_nat (object_size a)) 0 ++
                drop (Z.to_nat (object_size a)) (data e))]> es))]> (heap s))
               (plan s) (trace s)) (Ptr h 0) = Some a) as Hho.
  { unfold handle_of, load. simpl. rewrite list_lookup_insert_ne by done. by rewrite Hh. }
  split; [done|]. split.
  { unfold slots_of. rewrite Hho, Hp. simpl. rewrite list_lookup_insert_ne by done.
    rewrite Hd. by eapply list_elem_of_lookup_2. }
  split.
  { cbn [heap]. erewrite record_at_update by done. by rewrite decide_True. }
  split; [done|]. simpl.
  rewrite take_app_length'; [done|]. by rewrite length_replicate.
Qed.

Lemma allocate_scan_zeroed n : ∀ i allocator s rv s',
  allocate_scan n i allocator s = Ret rv s' → rv ≠ NULL →
  handed_out allocator s' rv.
Proof.
  induction n as [|n IH]; intros i allocator s rv s' H Hrv; simpl in H.
  { by apply ret_Ret in H as [<- _]. }
  apply bind_Ret in H as (a & s1 & Hl & H).
  apply load_Ret in Hl as (h & -> & Hh & ->).
  apply bind_Ret in H as (p & s1 & Hg & H).
  apply pool_get_Ret in Hg as (d & slots & Hp & Hd & Hi & Hslot & ->).
  destruct p as [|b k| |].
  - (* an empty slot: a record is requested *)
    apply bind_Ret in H as (q & s1 & Hc & H).
    apply bind_Ret in H as ([] & s2 & Hs & H).
    apply calloc_ab_Ret in Hc as [(-> & _ & Hfit & ->)|(-> & ->)].
    + rewrite Hp in Hs.
      apply pool_set_Ret in Hs as (d' & slots' & [= <-] & Hd' & _ & Hlt & ->).
      simpl in Hd'. pose proof (lookup_lt_Some _ _ _ Hd) as Hdlt.
      rewrite lookup_app_l in Hd' by done. rewrite Hd in Hd'. injection Hd' as <-.
      apply claim_record_Ret in H as (b & k & n' & es & e & [= <- <-] & -> & Hb & Hk & Hle & ->).
      simpl in Hb. rewrite list_lookup_insert_ne in Hb by lia.
      rewrite lookup_snoc_at in Hb by done. injection Hb as <- <-.
      eapply (handed_out_intro (mk_sys _ _ _) h a d); simpl; try done.
      * rewrite list_lookup_insert_ne by (intros ->; congruence).
        rewrite lookup_app_l by (by eapply lookup_lt_Some). exact Hh.
      * apply list_lookup_insert_eq. len.
      * apply list_lookup_insert_eq. done.
      * rewrite list_lookup_insert_ne by lia. by apply lookup_snoc_at.
    + apply bind_Ret in H as ([] & s3 & He & H).
      by apply IH in H.
  - apply bind_Ret in H as (e & s1 & Hg & H).
    apply ab_get_Ret in Hg as (b' & k' & n' & es & [= <- <-] & Hb & Hk & ->).
    destruct (in_use e); [|by apply IH in H].
    apply claim_record_Ret in H as (b' & k' & n'' & es' & e' & [= <- <-] & -> & Hb' & Hk' & Hle & ->).
    rewrite Hb in Hb'. injection Hb' as <- <-. rewrite Hk in Hk'. injection Hk' as <-.
    by eapply (handed_out_intro s h a d).
  - apply bind_Ret in H as (e & s1 & Hg & H). by apply ab_get_Ret in Hg as (? & ? & ? & ? & ? & _).
  - apply bind_Ret in H as (e & s1 & Hg & H). by apply ab_get_Ret in Hg as (? & ? & ? & ? & ? & _).
Qed.

Lemma allocate_retry_zeroed fuel : ∀ allocator s rv s',
  allocate_retry fuel allocator s = Ret rv s' → rv ≠ NULL →
  handed_out allocator s' rv.
Proof.
  induction fuel as [|fuel IH]; intros allocator s rv s' H Hrv; [done|].
  rewrite allocate_retry_S in H.
  apply bind_Ret in H as (a & s1 & Hl & H).
  apply bind_Ret in H as (rv1 & s2 & Hscan & H).
  destruct rv1 as [|b k|b k|].
  - apply bind_Ret in H as (grown & s3 & Hg & H).
    destruct grown; [by eapply IH|].
    apply bind_Ret in H as ([] & s4 & He & H). by apply ret_Ret in H as [<- _].
  - apply ret_Ret in H as [<- <-]. by eapply allocate_scan_zeroed.
  - apply ret_Ret in H as [<- <-]. by eapply allocate_scan_zeroed.
  - apply ret_Ret in H as [<- <-]. by eapply allocate_scan_zeroed.
Qed.

(** X3.  Whenever [op_ll_allocate_object] returns a non-null pointer, that
    pointer is the payload address of a record that a slot of the handle's
    directory points to, the record is marked in use, and the
    [object_size] bytes of its payload are zero, whatever the record held
    before. *)
Theorem allocate_returns_zeroed allocator s rv s' :
  op_ll_allocate_object allocator s = Ret rv s' → rv ≠ NULL →
  ∃ p a e,
    rv = payload p ∧ handle_of s' allocator = Some a ∧
    p ∈ slots_of s' allocator ∧
    record_at (heap s') p = Some e ∧ in_use e = IN_USE ∧
    take (Z.to_nat (object_size a)) (data e) = replicate (Z.to_nat (object_size a)) 0.
Proof.
  intros H Hrv. unfold op_ll_allocate_object in H.
  apply bind_Ret in H as (rv1 & s1 & Hin & H).
  assert (rv1 = rv ∧ (rv1 ≠ NULL → s1 = s')) as [-> Hs].
  { destruct rv1.
    - apply bind_Ret in H as ([] & s2 & He & H). by apply ret_Ret in H as [<- _].
    - by apply ret_Ret in H as [<- <-].
    - by apply ret_Ret in H as [<- <-].
    - by apply ret_Ret in H as [<- <-]. }
  rewrite <- (Hs Hrv). clear H Hs.
  destruct allocator as [|h k|h k|].
  - apply bind_Ret in Hin as ([] & s2 & He & H). by apply ret_Ret in H as [<- _].
  - apply bind_Ret in Hin as (a & s2 & Hl & H).
    destruct (initialized a).
    + by eapply (allocate_retry_zeroed _ _ _ _ _ H).
    + apply bind_Ret in H as ([] & s3 & He & H). by apply ret_Ret in H as [<- _].
  - apply bind_Ret in Hin as (a & s2 & Hl & H). by apply load_Ret in Hl as (? & ? & _).
  - apply bind_Ret in Hin as (a & s2 & Hl & H). by apply load_Ret in Hl as (? & ? & _).
Qed.

Lemma allocate_returns_zeroed_witness :
  ∃ s',
    op_ll_allocate_object (Ptr 0 0) used_pool = Ret (Data 2 0) s' ∧ Data 2 0 ≠ NULL ∧
    ∃ p a e,
      Data 2 0 = payload p ∧ handle_of s' (Ptr 0 0) = Some a ∧
      p ∈ slots_of s' (Ptr 0 0) ∧
      record_at (heap s') p = Some e ∧ in_use e = IN_USE ∧
      take (Z.to_nat (object_size a)) (data e) = replicate (Z.to_nat (object_size a)) 0.
Proof.
  eexists. split; [vm_compute; reflexivity|]. split; [done|].
  apply (allocate_returns_zeroed (Ptr 0 0) used_pool (Data 2 0)); [|done].
  vm_compute; reflexivity.
Defined.

(** ** Releasing objects *)







Lemma deallocate_scan_miss : ∀ rest pre s h a d object,
  pool_inv (heap s) h a d (pre ++ rest) 0 →
  object ∉ payload <$> rest →
  deallocate_scan (length rest) (Z.of_nat (length pre)) (Ptr h 0) object s = Ret tt s.
Proof.
  induction rest as [|q rest IH]; intros pre s h a d object Hinv Hout; [done|].
  pose proof Hinv as [Hh Hini Hp Hd Hlen Hcap Hstep Hos Hb Hnd].
  assert (backed_slot (heap s) (object_size a) q) as (e & He & Hle).
  { rewrite Forall_forall in Hb. apply Hb. apply elem_of_app. right. by left. }
  apply record_at_block in He as (b & k & n & es & -> & Hbk & Hk).
  rewrite fmap_cons in Hout. apply not_elem_of_cons in Hout as [Hne Hout].
  simpl.
  rewrite (bind_run _ _ _ _ _ (load_run _ _ _ Hh)). rewrite Hp.
  erewrite bind_run; last first.
  { eapply pool_get_run; [exact Hd|lia|].
    rewrite Nat2Z.id, app_nil_r, lookup_app_r by lia. by rewrite Nat.sub_diag. }
  rewrite (bind_run _ _ _ _ _ (data_of_run _ _ _)).
  rewrite bool_decide_false by (simpl in Hne; congruence).
  replace (pre ++ Ptr b k :: rest) with ((pre ++ [Ptr b k]) ++ rest) in Hinv
    by (by rewrite <- app_assoc).
  specialize (IH (pre ++ [Ptr b k]) s h a d object Hinv Hout).
  rewrite length_app in IH. simpl in IH.
  replace (Z.of_nat (length pre) + 1) with (Z.of_nat (length pre + 1)) by lia.
  exact IH.
Qed.

(** X6.  When every slot of the directory has backing storage (always so
    with a chunked layout, and with an individual layout that is full),
    releasing a non-null pointer that is no object of the handle is a
    silent no-op: the call returns, reports nothing and leaves the state
    as it was. *)
Theorem deallocate_unknown_pointer s allocator object :
  initialized_handle s allocator → NULL ∉ slots_of s allocator →
  object ≠ NULL → object ∉ payload <$> slots_of s allocator →
  op_ll_deallocate_object allocator object s = Ret tt s.
Proof.
  intros (h & a & d & backed & m & -> & Hinv) Hnn Hobj Hout.
  rewrite (pool_inv_slots_of _ _ _ _ _ _ Hinv) in Hnn, Hout.
  destruct m as [|m].
  2:{ exfalso. apply Hnn. apply elem_of_app. right. by left. }
  simpl in Hout. rewrite app_nil_r in Hout.
  pose proof Hinv as [Hh Hini Hp Hd Hlen Hcap Hstep Hos Hb Hnd].
  unfold op_ll_deallocate_object.
  rewrite !bool_decide_true by done. simpl.
  rewrite (bind_run _ _ _ _ _ (load_run _ _ _ Hh)).
  rewrite <- Hlen, Nat2Z.id, Nat.add_0_r.
  by apply (deallocate_scan_miss backed [] s h a d).
Qed.

Lemma deallocate_unknown_pointer_witness :
  ∃ s0 held s,
    op_ll_initialize_allocator 8 4 OP_DOUBLING_CHUNK (boot []) = Ret (Ptr 0 0) s0 ∧
    run_successful (Ptr 0 0) (replicate 1 Allocate) [] s0 = Some (held, s) ∧
    (NULL ∉ slots_of s (Ptr 0 0)) ∧ Data 7 0 ≠ NULL ∧
    (Data 7 0 ∉ payload <$> slots_of s (Ptr 0 0)) ∧
    op_ll_deallocate_object (Ptr 0 0) (Data 7 0) s = Ret tt s.
Proof.
  eexists _, _, _. split; [vm_compute; reflexivity|].
  split; [vm_compute; reflexivity|].
  assert (NULL ∉ [Ptr 2 0; Ptr 2 1; Ptr 2 2; Ptr 2 3]) as Hnn.
  { intros Hx. repeat (apply elem_of_cons in Hx as [Hx|Hx]; [discriminate Hx|]).
    by apply elem_of_nil in Hx. }
  assert (Data 7 0 ∉ [Data 2 0; Data 2 1; Data 2 2; Data 2 3]) as Hout.
  { intros Hx. repeat (apply elem_of_cons in Hx as [Hx|Hx]; [discriminate Hx|]).
    by apply elem_of_nil in Hx. }
  split; [exact Hnn|]. split; [done|]. split; [exact Hout|].
  apply deallocate_unknown_pointer; [|exact Hnn|done|exact Hout].
  eapply (run_successful_initialized 8 4 OP_DOUBLING_CHUNK (boot []) (Ptr 0 0) _
            (replicate 1 Allocate));
    [lia|lia|vm_compute; reflexivity|done|vm_compute; reflexivity].
Defined.

(** ** Statistics *)

Lemma leading_elem slots p : p ∈ leading slots → p ∈ slots ∧ p ≠ NULL.
Proof.
  induction slots as [|q slots IH]; simpl; [by intros ?%elem_of_nil|].
  destruct q as [|b k|b k|].
  - by intros ?%elem_of_nil.
  - intros [->|Hp]%elem_of_cons; [split; [by left|done]|].
    destruct (IH Hp). split; [by right|done].
  - intros [->|Hp]%elem_of_cons; [split; [by left|done]|].
    destruct (IH Hp). split; [by right|done].
  - intros [->|Hp]%elem_of_cons; [split; [by left|done]|].
    destruct (IH Hp). split; [by right|done].
Qed.

Lemma length_leading slots : (length (leading slots) ≤ length slots)%nat.
Proof.
  induction slots as [|q slots IH]; simpl; [done|]. destruct q; simpl; lia.
Qed.

Lemma stats_scan_leading : ∀ rest pre s h a d acc,
  heap s !! h = Some (Some (OHandle a)) →
  pool a = Ptr d 0 →
  heap s !! d = Some (Some (OPool (pre ++ rest))) →
  Forall (λ p, is_Some (record_at (heap s) p)) (leading rest) →
  0 ≤ acc → acc + Z.of_nat (length rest) ≤ SIZE_MAX →
  stats_scan (length rest) (Z.of_nat (length pre)) (Ptr h 0) acc s =
    Ret (acc + Z.of_nat (length (active (heap s) (leading rest)))) s.
Proof.
  induction rest as [|q rest IH]; intros pre s h a d acc Hh Hp Hd Hrec Hacc Hmax.
  { simpl. unfold ret. by rewrite Z.add_0_r. }
  simpl.
  rewrite (bind_run _ _ _ _ _ (load_run _ _ _ Hh)). rewrite Hp.
  erewrite bind_run; last first.
  { eapply pool_get_run; [exact Hd|lia|].
    rewrite Nat2Z.id, lookup_app_r by lia. by rewrite Nat.sub_diag. }
  destruct q as [|b k|b k|]; cbn [leading] in Hrec |- *.
  - simpl. unfold ret. by rewrite Z.add_0_r.
  - apply Forall_cons in Hrec as [[e He] Hrec].
    pose proof He as He'.
    apply record_at_block in He' as (b' & k' & n & es & [= <- <-] & Hb & Hk).
    erewrite bind_run by (by eapply ab_get_run).
    replace (pre ++ Ptr b k :: rest) with ((pre ++ [Ptr b k]) ++ rest) in Hd
      by (by rewrite <- app_assoc).
    simpl in Hmax.
    rewrite active_cons. unfold in_use_at at 1. rewrite He.
    replace (Z.of_nat (length pre) + 1) with (Z.of_nat (length (pre ++ [Ptr b k])))
      by (rewrite length_app; simpl; lia).
    destruct (in_use e) eqn:Hu; simpl.
    + rewrite (IH _ s h a d acc Hh Hp Hd Hrec) by lia. done.
    + rewrite wrap_small by lia.
      rewrite (IH _ s h a d (acc + 1) Hh Hp Hd Hrec) by lia.
      f_equal. lia.
  - apply Forall_cons in Hrec as [[e He] _]. done.
  - apply Forall_cons in Hrec as [[e He] _]. done.
Qed.

(** X7.  [get_stats] on an initialized handle changes nothing, reports the
    object size and the capacity of the handle record, and counts the
    records in use among the slots that come before the first null slot of
    the directory: a record in use behind a null slot is not counted. *)
Theorem get_stats_counts_leading s h a d slots :
  heap s !! h = Some (Some (OHandle a)) →
  initialized a = true → pool a = Ptr d 0 →
  heap s !! d = Some (Some (OPool slots)) →
  Z.of_nat (length slots) = maximum_objects a →
  maximum_objects a ≤ SIZE_MAX →
  Forall (λ p, is_Some (record_at (heap s) p)) (leading slots) →
  op_ll_get_allocator_stats (Ptr h 0) s =
    Ret (mk_stats (object_size a) (maximum_objects a)
                  (Z.of_nat (length (active (heap s) (leading slots))))) s ∧
  Z.of_nat (length (active (heap s) (leading slots))) ≤ maximum_objects a.
Proof.
  intros Hh Hini Hp Hd Hlen Hmax Hrec. split.
  - unfold op_ll_get_allocator_stats.
    rewrite (bind_run _ _ _ _ _ (load_run _ _ _ Hh)). rewrite Hini.
    rewrite <- Hlen at 1. rewrite Nat2Z.id.
    erewrite bind_run; last first.
    { eapply (stats_scan_leading slots []); [done|done|done|done|done|lia]. }
    done.
  - pose proof (length_active_le (heap s) (leading slots)).
    pose proof (length_leading slots). lia.
Qed.

Lemma get_stats_counts_leading_witness :
  ∃ a slots,
    heap gapped_pool !! 0%nat = Some (Some (OHandle a)) ∧
    initialized a = true ∧ pool a = Ptr 1 0 ∧
    heap gapped_pool !! 1%nat = Some (Some (OPool slots)) ∧
    Z.of_nat (length slots) = maximum_objects a ∧
    maximum_objects a ≤ SIZE_MAX ∧
    Forall (λ p, is_Some (record_at (heap gapped_pool) p)) (leading slots) ∧
    slots = [NULL; Ptr 2 0] ∧ in_use_at (heap gapped_pool) (Ptr 2 0) = true ∧
    op_ll_get_allocator_stats (Ptr 0 0) gapped_pool =
      Ret (mk_stats (object_size a) (maximum_objects a)
                    (Z.of_nat (length (active (heap gapped_pool) (leading slots)))))
          gapped_pool ∧
    Z.of_nat (length (active (heap gapped_pool) (leading slots))) ≤ maximum_objects a.
Proof.
  exists (mk_allocator 8 2 2 false false true (Ptr 1 0)), [NULL; Ptr 2 0].
  split; [vm_compute; reflexivity|]. split; [reflexivity|]. split; [reflexivity|].
  split; [vm_compute; reflexivity|]. split; [reflexivity|].
  split; [by vm_compute|]. split; [by apply Forall_nil|].
  split; [reflexivity|]. split; [vm_compute; reflexivity|].
  apply (get_stats_counts_leading gapped_pool 0 (mk_allocator 8 2 2 false false true (Ptr 1 0))
           1 [NULL; Ptr 2 0]).
  - vm_compute; reflexivity.
  - reflexivity.
  - reflexivity.
  - vm_compute; reflexivity.
  - reflexivity.
  - by vm_compute.
  - by apply Forall_nil.
Defined.

(** ** The high-level interface *)

Lemma allocate_TYPE_run sz COUNT MODE g s :
  allocate_TYPE_initialized g = true →
  allocate_TYPE sz COUNT MODE g s =
    match op_ll_allocate_object (TYPE_allocator g) s with
    | Ret rv s1 => Ret (rv, g) s1
    | Fault => Fault
    | Spin => Spin
    end.
Proof. intros Hg. unfold allocate_TYPE. rewrite Hg. reflexivity. Qed.

Lemma allocate_TYPE_many_S sz COUNT MODE n g s :
  allocate_TYPE_many sz COUNT MODE (S n) g s =
    match allocate_TYPE sz COUNT MODE g s with
    | Ret r s1 =>
        match allocate_TYPE_many sz COUNT MODE n r.2 s1 with
        | Ret rs s2 => Ret (r.1 :: rs.1, rs.2) s2
        | Fault => Fault
        | Spin => Spin
        end
    | Fault => Fault
    | Spin => Spin
    end.
Proof. reflexivity. Qed.

Lemma allocate_many_S n h s :
  allocate_many (S n) h s =
    match op_ll_allocate_object h s with
    | Ret p s1 =>
        match allocate_many n h s1 with
        | Ret ps s2 => Ret (p :: ps) s2
        | Fault => Fault
        | Spin => Spin
        end
    | Fault => Fault
    | Spin => Spin
    end.
Proof. reflexivity. Qed.

Lemma allocate_TYPE_many_initialized sz COUNT MODE n : ∀ g s,
  allocate_TYPE_initialized g = true →
  allocate_TYPE_many sz COUNT MODE n g s =
    match allocate_many n (TYPE_allocator g) s with
    | Ret ps s1 => Ret (ps, g) s1
    | Fault => Fault
    | Spin => Spin
    end.
Proof.
  induction n as [|n IH]; intros g s Hg; [done|].
  rewrite allocate_TYPE_many_S, allocate_many_S, allocate_TYPE_run by done.
  destruct (op_ll_allocate_object (TYPE_allocator g) s) as [rv s1| |]; [|done|done].
  cbn [fst snd]. rewrite IH by done.
  by destruct (allocate_many n (TYPE_allocator g) s1).
Qed.

Lemma allocate_TYPE_first sz COUNT MODE s :
  allocate_TYPE sz COUNT MODE statics_0 s =
    match op_ll_initialize_allocator sz COUNT MODE s with
    | Ret h s1 =>
        match op_ll_allocate_object h s1 with
        | Ret rv s2 => Ret (rv, mk_statics h true) s2
        | Fault => Fault
        | Spin => Spin
        end
    | Fault => Fault
    | Spin => Spin
    end.
Proof.
  unfold allocate_TYPE, initialize_TYPE_allocator, bind, ret. simpl.
  by destruct (op_ll_initialize_allocator sz COUNT MODE s).
Qed.

(** X8.  Through the macro interface the pool is created by the first call
    of [allocate_##TYPE] and by no later one: [n + 1] calls in a row behave
    as one call of [op_ll_initialize_allocator] followed by [n + 1] calls of
    [op_ll_allocate_object] on the handle it returned, whatever these do. *)
Theorem allocate_TYPE_initializes_once sz COUNT MODE n s :
  allocate_TYPE_many sz COUNT MODE (S n) statics_0 s =
    (do h <- op_ll_initialize_allocator sz COUNT MODE;
     do ps <- allocate_many (S n) h;
     ret (ps, mk_statics h true)) s.
Proof.
  rewrite allocate_TYPE_many_S, allocate_TYPE_first.
  unfold bind at 1.
  destruct (op_ll_initialize_allocator sz COUNT MODE s) as [h s1| |]; [|done|done].
  unfold bind at 1. rewrite allocate_many_S.
  destruct (op_ll_allocate_object h s1) as [rv s2| |]; [|done|done].
  cbn [fst snd].
  rewrite (allocate_TYPE_many_initialized sz COUNT MODE n (mk_statics h true) s2 eq_refl).
  cbn [TYPE_allocator].
  by destruct (allocate_many n h s2).
Qed.

(** An initialization that returns null has called the error hook once. *)
Lemma initialize_null_reports os C mode s s' :
  op_ll_initialize_allocator os C mode s = Ret NULL s' →
  tally is_error s' = S (tally is_error s).
Proof.
  intros H. unfold op_ll_initialize_allocator in H.
  destruct (mode_flags mode) as [chunks linear].
  apply bind_Ret in H as (rv & s1 & Hc & H).
  apply calloc_Ret in Hc as [(-> & _ & ->)|(-> & ->)]; last first.
  { run_inv. err_solve. }
  set (h := length (heap s)) in *.
  erewrite bind_run in H; last first.
  { eapply store_run. simpl. by apply lookup_snoc_at. }
  simpl in H.
  apply bind_Ret in H as (p & s2 & Hc & H).
  apply calloc_Ret in Hc as [(-> & Hcap & ->)|(-> & ->)]; simpl in H; last first.
  { erewrite bind_run in H; last first.
    { eapply store_run. simpl. apply list_lookup_insert_eq. len. }
    simpl in H.
    erewrite bind_run in H; last first.
    { eapply free_run. simpl. apply list_lookup_insert_eq. len. }
    run_inv. err_solve. }
  rewrite length_insert, length_app in H. simpl in H.
  fold h in H. replace (h + 1)%nat with (S h) in H by lia.
  erewrite bind_run in H; last first.
  { eapply store_run. simpl. rewrite lookup_app_l by len.
    apply list_lookup_insert_eq. len. }
  simpl in H.
  destruct chunks; [|by run_inv].
  apply bind_Ret in H as (filled & s3 & Hf & H).
  destruct filled; [by run_inv|].
  unfold fill_chunks in Hf.
  erewrite bind_run in Hf; last first.
  { apply load_run. simpl. apply list_lookup_insert_eq. len. }
  simpl in Hf.
  apply bind_Ret in Hf as (chunk & s4 & Hc & Hf).
  apply calloc_ab_Ret in Hc as [(-> & _ & _ & ->)|(-> & ->)]; [by run_inv|].
  simpl in Hf.
  apply bind_Ret in Hf as ([] & s5 & He & Hf).
  apply op_error_handler_Ret in He as ->. apply ret_Ret in Hf as [_ <-].
  erewrite bind_run in H; last first.
  { eapply free_run. simpl. rewrite list_lookup_insert_ne by lia. apply lookup_snoc_at. len. }
  simpl in H.
  erewrite bind_run in H; last first.
  { eapply free_run. simpl. rewrite list_lookup_insert_ne by lia.
    apply list_lookup_insert_eq. len. }
  run_inv. err_solve.
Qed.

(** X9.  When the initialization made by the first [allocate_##TYPE]
    fails, the static flag is set all the same and the static handle is
    null.  That first call returns null after three calls of the error
    hook: one by the failed initialization and two by
    [op_ll_allocate_object] on the null handle.  Every later call returns
    null after two calls of the hook, leaves the statics as they are and
    does nothing else: it does not try to initialize again and calls no
    library function. *)
Theorem allocate_TYPE_failed_initialization sz COUNT MODE s s1 :
  op_ll_initialize_allocator sz COUNT MODE s = Ret NULL s1 →
  let reported s :=
    log (EvError "Could not allocate desired object.")
        (log (EvError "Attempted to allocate from uninitialized allocator.") s) in
  allocate_TYPE sz COUNT MODE statics_0 s =
    Ret (NULL, mk_statics NULL true) (reported s1) ∧
  tally is_error (reported s1) = (3 + tally is_error s)%nat ∧
  ∀ s2, allocate_TYPE sz COUNT MODE (mk_statics NULL true) s2 =
          Ret (NULL, mk_statics NULL true) (reported s2) ∧
        tally is_error (reported s2) = (2 + tally is_error s2)%nat.
Proof.
  intros Hini reported. split; [|split].
  - unfold allocate_TYPE, initialize_TYPE_allocator. simpl.
    unfold bind at 1 2 3. rewrite Hini. done.
  - pose proof (initialize_null_reports _ _ _ _ _ Hini) as Herr.
    subst reported. unfold tally, log in *. simpl.
    rewrite !List.filter_app, !length_app. simpl. lia.
  - intros s2. split; [done|].
    subst reported. unfold tally, log. simpl.
    rewrite !List.filter_app, !length_app. simpl. lia.
Qed.

Lemma allocate_TYPE_failed_initialization_witness :
  ∃ s1,
    op_ll_initialize_allocator 8 4 OP_DOUBLING_CHUNK (boot [false]) = Ret NULL s1 ∧
    let reported s :=
      log (EvError "Could not allocate desired object.")
          (log (EvError "Attempted to allocate from uninitialized allocator.") s) in
    allocate_TYPE 8 4 OP_DOUBLING_CHUNK statics_0 (boot [false]) =
      Ret (NULL, mk_statics NULL true) (reported s1) ∧
    tally is_error (reported s1) = (3 + tally is_error (boot [false]))%nat ∧
    ∀ s2, allocate_TYPE 8 4 OP_DOUBLING_CHUNK (mk_statics NULL true) s2 =
            Ret (NULL, mk_statics NULL true) (reported s2) ∧
          tally is_error (reported s2) = (2 + tally is_error s2)%nat.
Proof.
  eexists. split; [vm_compute; reflexivity|].
  apply (allocate_TYPE_failed_initialization 8 4 OP_DOUBLING_CHUNK (boot [false])).
  vm_compute; reflexivity.
Defined.

(** ** Releasing a pool *)

(** The [free] loops only release blocks: they report nothing, and every
    block is as it was or released. *)
Lemma free_groups_Ret fuel step : ∀ i h s u s',
  free_groups fuel step i (Ptr h 0) s = Ret u s' →
  ∃ a, heap s !! h = Some (Some (OHandle a)) ∧
       heap s' !! h = Some (Some (OHandle a)) ∧
       tally is_error s' = tally is_error s ∧
       length (heap s') = length (heap s) ∧
       plan s' = plan s ∧
       ∀ b, heap s' !! b = heap s !! b ∨ heap s' !! b = Some None.
Proof.
  induction fuel as [|fuel IH]; intros i h s u s' H.
  - simpl in H. apply bind_Ret in H as (a & s1 & Hl & H).
    apply load_Ret in Hl as (h' & [= <-] & Hh & ->).
    case_bool_decide; [done|]. apply ret_Ret in H as [_ <-].
    exists a. repeat split; try done. by left.
  - simpl in H. apply bind_Ret in H as (a & s1 & Hl & H).
    apply load_Ret in Hl as (h' & [= <-] & Hh & ->).
    case_bool_decide.
    2:{ apply ret_Ret in H as [_ <-]. exists a. repeat split; try done. by left. }
    apply bind_Ret in H as (p & s1 & Hg & H).
    apply pool_get_Ret in Hg as (d & slots & Hp & Hd & Hi & Hslot & ->).
    apply bind_Ret in H as ([] & s2 & Hf & H).
    apply IH in H as (a' & Hh2 & Hh' & He & Hlen & Hpl & Hrel).
    apply free_Ret in Hf as [[-> ->]|(b & o & -> & Hb & ->)]; simpl in *.
    + rewrite Hh in Hh2. injection Hh2 as <-.
      exists a. split; [done|]. split; [done|]. split; [|done].
      rewrite He. unfold tally. simpl. rewrite List.filter_app, length_app. simpl. lia.
    + assert (b ≠ h) as Hbh.
      { intros ->. rewrite list_lookup_insert_eq in Hh2 by (by eapply lookup_lt_Some). done. }
      rewrite list_lookup_insert_ne in Hh2 by done.
      rewrite Hh in Hh2. injection Hh2 as <-.
      exists a. split; [done|]. split; [done|]. split.
      { rewrite He. unfold tally. simpl. rewrite List.filter_app, length_app. simpl. lia. }
      split; [by rewrite Hlen, length_insert|]. split; [done|].
      intros b'. destruct (Hrel b') as [Hsame|Hnone]; [|by right].
      rewrite Hsame. destruct (decide (b' = b)) as [->|Hne].
      * right. apply list_lookup_insert_eq. by eapply lookup_lt_Some.
      * left. by apply list_lookup_insert_ne.
Qed.

Lemma deinitialize_Ret s h a s' :
  heap s !! h = Some (Some (OHandle a)) → initialized a = true →
  op_ll_deinitialize_allocator (Ptr h 0) s = Ret tt s' →
  tally is_error s' = tally is_error s ∧
  length (heap s') = length (heap s) ∧
  plan s' = plan s ∧
  heap s' !! h = Some None ∧
  (∀ d, pool a = Ptr d 0 → heap s' !! d = Some None) ∧
  (∀ b, heap s' !! b = heap s !! b ∨ heap s' !! b = Some None).
Proof.
  intros Hh Hini H. unfold op_ll_deinitialize_allocator in H.
  rewrite (bind_run _ _ _ _ _ (load_run _ _ _ Hh)) in H. rewrite Hini in H.
  erewrite bind_run in H by (by eapply store_run).
  pose proof (lookup_lt_Some _ _ _ Hh) as Hhlt.
  set (a1 := set_initialized false a) in *.
  set (s1 := mk_sys (<[h:=Some (OHandle a1)]> (heap s)) (plan s) (trace s)) in *.
  assert (tally is_error s1 = tally is_error s) as He1 by done.
  assert (length (heap s1) = length (heap s)) as Hl1 by (subst s1; simpl; len).
  assert (∀ b, b ≠ h → heap s1 !! b = heap s !! b) as Hs1
    by (intros b Hb; subst s1; simpl; by rewrite list_lookup_insert_ne).
  apply bind_Ret in H as ([] & s2 & Hloops & H).
  assert (∃ a2, heap s2 !! h = Some (Some (OHandle a2)) ∧
                tally is_error s2 = tally is_error s1 ∧
                length (heap s2) = length (heap s1) ∧
                plan s2 = plan s1 ∧
                ∀ b, heap s2 !! b = heap s1 !! b ∨ heap s2 !! b = Some None)
    as (a2 & Hh2 & He2 & Hl2 & Hp2 & Hrel2).
  { destruct (use_chunks a); [destruct (use_linear a)|].
    - apply free_groups_Ret in Hloops as (a2 & _ & ? & ? & ? & ? & ?). by exists a2.
    - apply bind_Ret in Hloops as (p & s3 & Hg & Hloops).
      apply pool_get_Ret in Hg as (d & slots & Hp & Hd & _ & Hslot & ->).
      apply bind_Ret in Hloops as ([] & s4 & Hf & Hloops).
      apply free_groups_Ret in Hloops as (a2 & Hh4 & Hh2 & He & Hlen & Hpl & Hrel).
      apply free_Ret in Hf as [[-> ->]|(b & o & -> & Hb & ->)]; simpl in *.
      + exists a2. split; [done|]. split; [|done].
        rewrite He. unfold tally. simpl. rewrite List.filter_app, length_app. simpl. lia.
      + exists a2. split; [done|]. split.
        { rewrite He. unfold tally. simpl. rewrite List.filter_app, length_app. simpl. lia. }
        split; [by rewrite Hlen, length_insert|]. split; [done|].
        intros b'. destruct (Hrel b') as [Hsame|Hnone]; [|by right].
        rewrite Hsame. destruct (decide (b' = b)) as [->|Hne].
        * right. apply list_lookup_insert_eq. by eapply lookup_lt_Some.
        * left. by apply list_lookup_insert_ne.
    - apply free_groups_Ret in Hloops as (a2 & _ & ? & ? & ? & ? & ?). by exists a2. }
  apply bind_Ret in H as ([] & s3 & Hfp & Hfh).
  apply free_Ret in Hfh as [[? _]|(b & o & [= <-] & Hb3 & ->)]; [done|].
  assert (length (heap s3) = length (heap s2) ∧
          tally is_error s3 = tally is_error s2 ∧ plan s3 = plan s2 ∧
          (∀ b, heap s3 !! b = heap s2 !! b ∨ heap s3 !! b = Some None) ∧
          (∀ d, pool a = Ptr d 0 → heap s3 !! d = Some None))
    as (Hl3 & He3 & Hp3 & Hrel3 & Hd3).
  { apply free_Ret in Hfp as [[-> ->]|(b & o' & -> & Hb & ->)]; simpl.
    - split; [done|]. split.
      { unfold tally. simpl. rewrite List.filter_app, length_app. simpl. lia. }
      split; [done|]. split; [by left|]. intros d Hd. congruence.
    - split; [len|]. split.
      { unfold tally. simpl. rewrite List.filter_app, length_app. simpl. lia. }
      split; [done|]. split.
      + intros b'. destruct (decide (b' = b)) as [->|Hne].
        * right. apply list_lookup_insert_eq. by eapply lookup_lt_Some.
        * left. by apply list_lookup_insert_ne.
      + intros d [= <-]. apply list_lookup_insert_eq. by eapply lookup_lt_Some. }
  pose proof (lookup_lt_Some _ _ _ Hb3) as Hh3lt.
  simpl. split.
  { unfold tally in *. simpl. rewrite List.filter_app, length_app. simpl. lia. }
  split; [rewrite length_insert; lia|].
  split; [by rewrite Hp3, Hp2|].
  split; [by apply list_lookup_insert_eq|].
  split.
  { intros d Hd. specialize (Hd3 d Hd).
    assert (d ≠ h) as Hdh by (intros ->; congruence).
    by rewrite list_lookup_insert_ne. }
  intros b'. destruct (decide (b' = h)) as [->|Hne].
  { right. by apply list_lookup_insert_eq. }
  rewrite list_lookup_insert_ne by done.
  destruct (Hrel3 b') as [E3|?]; [|by right]. rewrite E3.
  destruct (Hrel2 b') as [E2|?]; [|by right]. rewrite E2.
  left. by apply Hs1.
Qed.

Lemma released_handle_faults s h :
  heap s !! h = Some None →
  op_ll_allocate_object (Ptr h 0) s = Fault ∧
  op_ll_get_allocator_stats (Ptr h 0) s = Fault ∧
  op_ll_deinitialize_allocator (Ptr h 0) s = Fault ∧
  ∀ object, object ≠ NULL → op_ll_deallocate_object (Ptr h 0) object s = Fault.
Proof.
  intros Hh.
  assert (load (Ptr h 0) s = Fault) as Hl by (unfold load; by rewrite Hh).
  split; [|split; [|split]].
  - unfold op_ll_allocate_object, bind. by rewrite Hl.
  - unfold op_ll_get_allocator_stats, bind. by rewrite Hl.
  - unfold op_ll_deinitialize_allocator, bind. by rewrite Hl.
  - intros object Hobj. unfold op_ll_deallocate_object.
    rewrite !bool_decide_true by done. simpl. unfold bind. by rewrite Hl.
Qed.

(** X10.  When [op_ll_deinitialize_allocator] returns on an initialized
    handle it has reported nothing, it has released the handle record and
    the directory, and every other block is either as it was or released:
    it writes to no block that stays allocated.  The handle is dangling
    from then on: allocate, get_stats, deinitialize and, for a non-null
    object, deallocate on it read released storage. *)
Theorem deinitialize_invalidates_handle s h a s' :
  heap s !! h = Some (Some (OHandle a)) → initialized a = true →
  op_ll_deinitialize_allocator (Ptr h 0) s = Ret tt s' →
  quiet s s' ∧
  heap s' !! h = Some None ∧
  (∀ d, pool a = Ptr d 0 → heap s' !! d = Some None) ∧
  (∀ b, heap s' !! b = heap s !! b ∨ heap s' !! b = Some None) ∧
  op_ll_allocate_object (Ptr h 0) s' = Fault ∧
  op_ll_get_allocator_stats (Ptr h 0) s' = Fault ∧
  op_ll_deinitialize_allocator (Ptr h 0) s' = Fault ∧
  ∀ object, object ≠ NULL → op_ll_deallocate_object (Ptr h 0) object s' = Fault.
Proof.
  intros Hh Hini H.
  destruct (deinitialize_Ret _ _ _ _ Hh Hini H) as (He & _ & _ & Hnone & Hd & Hrel).
  split; [done|]. split; [done|]. split; [done|]. split; [done|].
  by apply released_handle_faults.
Qed.

Lemma deinitialize_invalidates_handle_witness :
  ∃ s a s',
    op_ll_initialize_allocator 8 4 OP_LINEAR_INDIVIDUAL (boot []) = Ret (Ptr 0 0) s ∧
    heap s !! 0%nat = Some (Some (OHandle a)) ∧ initialized a = true ∧
    op_ll_deinitialize_allocator (Ptr 0 0) s = Ret tt s' ∧
    (quiet s s' ∧
     heap s' !! 0%nat = Some None ∧
     (∀ d, pool a = Ptr d 0 → heap s' !! d = Some None) ∧
     (∀ b, heap s' !! b = heap s !! b ∨ heap s' !! b = Some None) ∧
     op_ll_allocate_object (Ptr 0 0) s' = Fault ∧
     op_ll_get_allocator_stats (Ptr 0 0) s' = Fault ∧
     op_ll_deinitialize_allocator (Ptr 0 0) s' = Fault ∧
     ∀ object, object ≠ NULL → op_ll_deallocate_object (Ptr 0 0) object s' = Fault).
Proof.
  eexists _, (mk_allocator 8 4 4 false true true (Ptr 1 0)), _.
  split; [vm_compute; reflexivity|].
  split; [vm_compute; reflexivity|]. split; [reflexivity|].
  split; [vm_compute; reflexivity|].
  apply deinitialize_invalidates_handle;
    [vm_compute; reflexivity|reflexivity|vm_compute; reflexivity].
Defined.

(** X11.  The macro interface keeps no trace of a released pool:
    [deinitialize_##TYPE##_allocator] leaves the static handle and the
    static flag of [allocate_##TYPE] as they are, so that a later
    [allocate_##TYPE], [deallocate_##TYPE] of a non-null object or second
    [deinitialize_##TYPE##_allocator] works on the released handle record
    instead of creating a new pool. *)
Theorem allocate_TYPE_after_deinitialize sz COUNT MODE g h a s s' :
  allocate_TYPE_initialized g = true → TYPE_allocator g = Ptr h 0 →
  heap s !! h = Some (Some (OHandle a)) → initialized a = true →
  deinitialize_TYPE_allocator g s = Ret tt s' →
  allocate_TYPE sz COUNT MODE g s' = Fault ∧
  deinitialize_TYPE_allocator g s' = Fault ∧
  ∀ object, object ≠ NULL → deallocate_TYPE g object s' = Fault.
Proof.
  intros Hg Hp Hh Hini H. unfold deinitialize_TYPE_allocator, deallocate_TYPE in *.
  rewrite Hp in *.
  destruct (deinitialize_Ret _ _ _ _ Hh Hini H) as (_ & _ & _ & Hnone & _).
  destruct (released_handle_faults _ _ Hnone) as (Hal & _ & Hde & Hfr).
  split; [|by split].
  rewrite allocate_TYPE_run by done. by rewrite Hp, Hal.
Qed.

Lemma allocate_TYPE_after_deinitialize_witness :
  ∃ r s a s',
    allocate_TYPE 8 4 OP_DOUBLING_CHUNK statics_0 (boot []) = Ret r s ∧
    allocate_TYPE_initialized r.2 = true ∧ TYPE_allocator r.2 = Ptr 0 0 ∧
    heap s !! 0%nat = Some (Some (OHandle a)) ∧ initialized a = true ∧
    deinitialize_TYPE_allocator r.2 s = Ret tt s' ∧
    (allocate_TYPE 8 4 OP_DOUBLING_CHUNK r.2 s' = Fault ∧
     deinitialize_TYPE_allocator r.2 s' = Fault ∧
     ∀ object, object ≠ NULL → deallocate_TYPE r.2 object s' = Fault).
Proof.
  eexists (_, _), _, (mk_allocator 8 4 4 true false true (Ptr 1 0)), _.
  split; [vm_compute; reflexivity|].
  split; [reflexivity|]. split; [reflexivity|].
  match goal with |- heap ?s !! _ = _ ∧ _ => set (s0 := s) end.
  split; [vm_compute; reflexivity|]. split; [reflexivity|].
  split; [vm_compute; reflexivity|].
  apply (allocate_TYPE_after_deinitialize 8 4 OP_DOUBLING_CHUNK _ 0
           (mk_allocator 8 4 4 true false true (Ptr 1 0)) s0);
    [reflexivity|reflexivity|vm_compute; reflexivity|reflexivity|vm_compute; reflexivity].
Defined.

(** ** What an allocation leaves alone *)

Global Instance records_kept_preorder rv : PreOrder (records_kept rv).
Proof.
  split.
  - by intros s q e _ ?.
  - intros s1 s2 s3 H12 H23 q e Hq He. apply H23; [done|]. by apply H12.
Qed.

Global Instance dirs_kept_preorder P : PreOrder (dirs_kept P).
Proof.
  split.
  - intros s. split; [done|]. by intros b o _ ? _.
  - intros s1 s2 s3 [Hl12 H12] [Hl23 H23]. split; [lia|].
    intros b o Hb Ho Hr. apply H23; [done| |done]. by apply H12.
Qed.

Lemma record_at_app hp o q e :
  record_at hp q = Some e → record_at (hp ++ [o]) q = Some e.
Proof.
  intros H. apply record_at_block in H as (b & k & n & es & -> & Hb & Hk).
  simpl. rewrite lookup_app_l by (by eapply lookup_lt_Some). by rewrite Hb.
Qed.

Lemma record_at_insert_other hp b o o' q e :
  hp !! b = Some o → is_record_block (default (OPool []) o) = false →
  record_at hp q = Some e → record_at (<[b := o']> hp) q = Some e.
Proof.
  intros Hb Hr H. apply record_at_block in H as (b' & k & n & es & -> & Hb' & Hk).
  simpl. rewrite list_lookup_insert_ne; [by rewrite Hb'|].
  intros ->. rewrite Hb in Hb'. injection Hb' as ->. done.
Qed.

Global Instance untouched_preorder rv P : PreOrder (untouched rv P).
Proof.
  split.
  - intros s. split; reflexivity.
  - intros s1 s2 s3 [??] [??]. split; etransitivity; eauto.
Qed.

(** The steps of the engine, one by one. *)
Lemma calloc_kept rv P nmemb size o s p s' :
  calloc nmemb size o s = Ret p s' → untouched rv P s s'.
Proof.
  intros H. apply calloc_Ret in H as [(-> & _ & ->)|(-> & ->)]; simpl.
  - split.
    + intros q e _ He. simpl. by apply record_at_app.
    + split; [simpl; rewrite length_app; lia|].
      intros b o' _ Hb _. simpl. rewrite lookup_app_l by (by eapply lookup_lt_Some). done.
  - split; [by intros q e _ ?|]. split; [done|]. by intros b o' _ ? _.
Qed.

Lemma calloc_ab_kept rv P nmemb size count os s p s' :
  calloc_ab nmemb size count os s = Ret p s' → untouched rv P s s'.
Proof.
  intros H. apply calloc_ab_Ret in H as [(-> & _ & _ & ->)|(-> & ->)]; simpl.
  - split.
    + intros q e _ He. simpl. by apply record_at_app.
    + split; [simpl; rewrite length_app; lia|].
      intros b o' _ Hb _. simpl. rewrite lookup_app_l by (by eapply lookup_lt_Some). done.
  - split; [by intros q e _ ?|]. split; [done|]. by intros b o' _ ? _.
Qed.

Lemma error_kept rv P msg s u s' :
  op_error_handler msg s = Ret u s' → untouched rv P s s'.
Proof.
  intros H. apply op_error_handler_Ret in H as ->.
  split; [by intros q e _ ?|]. split; [done|]. by intros b o' _ ? _.
Qed.

Lemma store_kept rv (P : block → Prop) h a s u s' :
  P h → store (Ptr h 0) a s = Ret u s' → untouched rv P s s'.
Proof.
  intros HP H. apply store_Ret in H as (h' & a0 & [= <-] & Hh & ->). split.
  - intros q e _ He. simpl. by eapply record_at_insert_other.
  - split; [simpl; by rewrite length_insert|].
    intros b o Hb Ho _. simpl. rewrite list_lookup_insert_ne; [done|]. by intros <-.
Qed.

Lemma pool_set_kept rv (P : block → Prop) pl i v s u s' :
  (∀ d, pl = Ptr d 0 → P d) → pool_set pl i v s = Ret u s' → untouched rv P s s'.
Proof.
  intros HP H. apply pool_set_Ret in H as (d & slots & -> & Hd & _ & _ & ->). split.
  - intros q e _ He. simpl. by eapply record_at_insert_other.
  - split; [simpl; by rewrite length_insert|].
    intros b o Hb Ho _. simpl. rewrite list_lookup_insert_ne; [done|].
    intros <-. by apply Hb, HP.
Qed.

Lemma pool_set_handle pl i v s u s' h a :
  pool_set pl i v s = Ret u s' →
  heap s !! h = Some (Some (OHandle a)) → heap s' !! h = Some (Some (OHandle a)).
Proof.
  intros H Hh. apply pool_set_Ret in H as (d & slots & -> & Hd & _ & _ & ->). simpl.
  rewrite list_lookup_insert_ne; [done|]. intros ->. congruence.
Qed.

Lemma calloc_ab_handle nmemb size count os s p s' h a :
  calloc_ab nmemb size count os s = Ret p s' →
  heap s !! h = Some (Some (OHandle a)) → heap s' !! h = Some (Some (OHandle a)).
Proof.
  intros H Hh. apply calloc_ab_Ret in H as [(-> & _ & _ & ->)|(-> & ->)]; simpl; [|done].
  by rewrite lookup_app_l by (by eapply lookup_lt_Some).
Qed.

Lemma claim_record_handle p os s rv s' h a :
  (do rv <- data_of p;
   memset0 rv os;;
   set_in_use p IN_USE;;
   ret rv) s = Ret rv s' →
  heap s !! h = Some (Some (OHandle a)) → heap s' !! h = Some (Some (OHandle a)).
Proof.
  intros H Hh.
  apply claim_record_Ret in H as (b & k & n & es & e & -> & -> & Hb & Hk & _ & ->). simpl.
  rewrite list_lookup_insert_ne; [done|]. intros ->. congruence.
Qed.

Lemma ab_set_kept rv P p e s u s' :
  payload p = rv → ab_set p e s = Ret u s' → untouched rv P s s'.
Proof.
  intros Hrv H. apply ab_set_Ret in H as (b & k & n & es & e0 & -> & Hb & Hk & ->). split.
  - intros q e' Hq He. simpl. erewrite record_at_update by done.
    rewrite decide_False; [done|]. by intros ->.
  - split; [simpl; by rewrite length_insert|].
    intros b' o Hb' Ho Hr. simpl. rewrite list_lookup_insert_ne; [done|].
    intros <-. rewrite Hb in Ho. by injection Ho as <-.
Qed.

Lemma realloc_kept rv (P : block → Prop) p size s q s' :
  (∀ d, p = Ptr d 0 → P d) → realloc p size s = Ret q s' →
  untouched rv P s s'.
Proof.
  intros HP H. unfold realloc in H.
  destruct p as [|d [|k]| |]; try done.
  - destruct (granted s size); injection H as <- <-.
    + split.
      * intros q' e _ He. simpl. by apply record_at_app.
      * split; [simpl; rewrite length_app; lia|].
        intros b o _ Hb _. simpl. by rewrite lookup_app_l by (by eapply lookup_lt_Some).
    + split; [by intros q' e _ ?|]. split; [done|]. by intros b o _ ? _.
  - destruct (heap s !! d) as [[[| slots|]|]|] eqn:Hd; try done.
    destruct (granted s size); injection H as <- <-.
    + split.
      * intros q' e _ He. simpl. apply record_at_app.
        by eapply record_at_insert_other.
      * split; [simpl; rewrite length_app, length_insert; lia|].
        intros b o Hb Ho _. simpl.
        rewrite lookup_app_l by (rewrite length_insert; by eapply lookup_lt_Some).
        rewrite list_lookup_insert_ne; [done|]. intros <-. by apply Hb, HP.
    + split; [by intros q' e _ ?|]. split; [done|]. by intros b o _ ? _.
Qed.

Lemma claim_record_kept P p os s rv s' :
  (do rv <- data_of p;
   memset0 rv os;;
   set_in_use p IN_USE;;
   ret rv) s = Ret rv s' →
  untouched rv P s s'.
Proof.
  intros H.
  apply claim_record_Ret in H as (b & k & n & es & e & -> & -> & Hb & Hk & _ & ->). split.
  - intros q e' Hq He. simpl. erewrite record_at_update by done.
    rewrite decide_False; [done|]. by intros ->.
  - split; [simpl; by rewrite length_insert|].
    intros b' o Hb' Ho Hr. simpl. rewrite list_lookup_insert_ne; [done|].
    intros <-. rewrite Hb in Ho. by injection Ho as <-.
Qed.

(** The loops and the helpers. *)
Lemma null_loop_untouched rv (P : block → Prop) n : ∀ i h s u s' a,
  heap s !! h = Some (Some (OHandle a)) → (∀ d, pool a = Ptr d 0 → P d) →
  null_loop n i (Ptr h 0) s = Ret u s' →
  untouched rv P s s' ∧ heap s' !! h = Some (Some (OHandle a)).
Proof.
  induction n as [|n IH]; intros i h s u s' a Hh HP H; simpl in H.
  { apply ret_Ret in H as [_ <-]. split; [reflexivity|done]. }
  rewrite (bind_run _ _ _ _ _ (load_run _ _ _ Hh)) in H.
  apply bind_Ret in H as ([] & s1 & Hs & H).
  pose proof (pool_set_handle _ _ _ _ _ _ _ _ Hs Hh) as Hh1.
  apply (pool_set_kept rv P) in Hs; [|done].
  destruct (IH _ _ _ _ _ _ Hh1 HP H) as [Hk Hh']. split; [|done].
  by etransitivity.
Qed.

Lemma fill_loop_untouched rv (P : block → Prop) n : ∀ i h chunk off s u s' a,
  heap s !! h = Some (Some (OHandle a)) → (∀ d, pool a = Ptr d 0 → P d) →
  fill_loop n i (Ptr h 0) chunk off s = Ret u s' →
  untouched rv P s s' ∧ heap s' !! h = Some (Some (OHandle a)).
Proof.
  induction n as [|n IH]; intros i h chunk off s u s' a Hh HP H; simpl in H.
  { apply ret_Ret in H as [_ <-]. split; [reflexivity|done]. }
  rewrite (bind_run _ _ _ _ _ (load_run _ _ _ Hh)) in H.
  apply bind_Ret in H as ([] & s1 & Hs & H).
  pose proof (pool_set_handle _ _ _ _ _ _ _ _ Hs Hh) as Hh1.
  apply (pool_set_kept rv P) in Hs; [|done].
  destruct (IH _ _ _ _ _ _ _ _ Hh1 HP H) as [Hk Hh']. split; [|done].
  by etransitivity.
Qed.

Lemma fill_chunks_untouched rv (P : block → Prop) h off n s r s' a :
  heap s !! h = Some (Some (OHandle a)) → (∀ d, pool a = Ptr d 0 → P d) →
  fill_chunks (Ptr h 0) off n s = Ret r s' →
  untouched rv P s s' ∧ heap s' !! h = Some (Some (OHandle a)).
Proof.
  intros Hh HP H. unfold fill_chunks in H.
  rewrite (bind_run _ _ _ _ _ (load_run _ _ _ Hh)) in H.
  apply bind_Ret in H as (chunk & s1 & Hc & H).
  pose proof (calloc_ab_handle _ _ _ _ _ _ _ _ _ Hc Hh) as Hh1.
  apply (calloc_ab_kept rv P) in Hc.
  assert (∀ s2 u, op_error_handler "Could not fill chunks when initializing or expanding." s1
                    = Ret u s2 →
                  untouched rv P s s2 ∧ heap s2 !! h = Some (Some (OHandle a))) as Herr.
  { intros s2 u He. pose proof He as He'. apply op_error_handler_Ret in He' as ->.
    apply (error_kept rv P) in He. split; [by etransitivity|done]. }
  destruct chunk as [|b k|b k|].
  - apply bind_Ret in H as ([] & s2 & He & H). apply ret_Ret in H as [_ <-]. by eapply Herr.
  - apply bind_Ret in H as ([] & s2 & Hf & H). apply ret_Ret in H as [_ <-].
    destruct (fill_loop_untouched rv P _ _ _ _ _ _ _ _ _ Hh1 HP Hf) as [Hk Hh']. split; [|done].
    by etransitivity.
  - apply bind_Ret in H as ([] & s2 & He & H). apply ret_Ret in H as [_ <-]. by eapply Herr.
  - apply bind_Ret in H as ([] & s2 & He & H). apply ret_Ret in H as [_ <-]. by eapply Herr.
Qed.

Lemma realloc_shape p size s q s' h a :
  realloc p size s = Ret q s' →
  heap s !! h = Some (Some (OHandle a)) →
  heap s' !! h = Some (Some (OHandle a)) ∧
  (q = NULL ∨ q = Ptr (length (heap s)) 0).
Proof.
  intros Hr Hh. unfold realloc in Hr. destruct p as [|d [|k]| |]; try done.
  - destruct (granted s _); injection Hr as <- <-; simpl.
    + split; [by rewrite lookup_app_l by (by eapply lookup_lt_Some)|]. by right.
    + split; [done|]. by left.
  - destruct (heap s !! d) as [[[| slots|]|]|] eqn:Hd; try done.
    destruct (granted s _); injection Hr as <- <-; simpl.
    + split; [|by right].
      rewrite lookup_app_l by (rewrite length_insert; by eapply lookup_lt_Some).
      rewrite list_lookup_insert_ne; [done|]. intros ->. congruence.
    + split; [done|]. by left.
Qed.

Lemma grow_pool_untouched rv (P : block → Prop) h s r s' a :
  heap s !! h = Some (Some (OHandle a)) → P h →
  (∀ d, pool a = Ptr d 0 → P d) → (∀ b, length (heap s) ≤ b → P b)%nat →
  grow_pool (Ptr h 0) s = Ret r s' →
  untouched rv P s s' ∧
  ∃ a', heap s' !! h = Some (Some (OHandle a')) ∧ (∀ d, pool a' = Ptr d 0 → P d).
Proof.
  intros Hh HPh HPd HPf H. unfold grow_pool in H.
  rewrite (bind_run _ _ _ _ _ (load_run _ _ _ Hh)) in H.
  apply bind_Ret in H as (p & s1 & Hr & H).
  destruct (realloc_shape _ _ _ _ _ _ _ Hr Hh) as [Hh1 Hshape].
  apply (realloc_kept rv P) in Hr; [|done].
  apply bind_Ret in H as ([] & s2 & Hs & H).
  pose proof Hs as Hs'.
  apply store_Ret in Hs' as (h' & a0 & [= <-] & _ & ->).
  apply (store_kept rv P) in Hs; [|done].
  set (a1 := set_pool p a) in *.
  set (s2 := mk_sys _ _ _) in *.
  assert (heap s2 !! h = Some (Some (OHandle a1))) as Hh2.
  { subst s2. simpl. apply list_lookup_insert_eq. by eapply lookup_lt_Some. }
  assert (∀ d, pool a1 = Ptr d 0 → P d) as HP1.
  { intros d Hd. simpl in Hd. destruct Hshape as [->| ->]; [done|].
    injection Hd as <-. by apply HPf. }
  assert (untouched rv P s s2) as Hk2 by (by etransitivity).
  destruct Hshape as [->| ->].
  - apply bind_Ret in H as ([] & s3 & He & H). apply ret_Ret in H as [_ <-].
    pose proof He as He'. apply op_error_handler_Ret in He' as ->.
    apply (error_kept rv P) in He. split; [by etransitivity|]. by exists a1.
  - apply bind_Ret in H as ([] & s3 & Hn & H).
    destruct (null_loop_untouched rv P _ _ _ _ _ _ _ Hh2 HP1 Hn) as [Hk3 Hh3].
    rewrite (bind_run _ _ _ _ _ (load_run _ _ _ Hh3)) in H.
    apply bind_Ret in H as ([] & s4 & Hs4 & H).
    pose proof Hs4 as Hs4'.
    apply store_Ret in Hs4' as (h' & a0' & [= <-] & _ & ->).
    apply (store_kept rv P) in Hs4; [|done].
    set (a2 := set_maximum_objects _ a1) in *.
    set (s4 := mk_sys (<[h:=Some (OHandle a2)]> (heap s3)) _ _) in *.
    assert (heap s4 !! h = Some (Some (OHandle a2))) as Hh4.
    { subst s4. simpl. apply list_lookup_insert_eq. by eapply lookup_lt_Some. }
    assert (untouched rv P s s4) as Hk4 by (etransitivity; [|exact Hs4]; by etransitivity).
    destruct (use_chunks a1).
    + destruct (fill_chunks_untouched rv P _ _ _ _ _ _ _ Hh4 HP1 H) as [Hk5 Hh5].
      split; [by etransitivity|]. by exists a2.
    + apply ret_Ret in H as [_ <-]. split; [done|]. by exists a2.
Qed.

Lemma allocate_scan_untouched (P : block → Prop) n : ∀ i h s rv s' a,
  heap s !! h = Some (Some (OHandle a)) → (∀ d, pool a = Ptr d 0 → P d) →
  allocate_scan n i (Ptr h 0) s = Ret rv s' →
  untouched rv P s s' ∧ heap s' !! h = Some (Some (OHandle a)).
Proof.
  induction n as [|n IH]; intros i h s rv s' a Hh HP H; simpl in H.
  { apply ret_Ret in H as [_ <-]. split; [reflexivity|done]. }
  rewrite (bind_run _ _ _ _ _ (load_run _ _ _ Hh)) in H.
  apply bind_Ret in H as (p & s1 & Hg & H).
  apply pool_get_Ret in Hg as (d & slots & Hp & Hd & Hi & Hslot & ->).
  destruct p as [|b k|b k|].
  - apply bind_Ret in H as (q & s1 & Hc & H).
    pose proof (calloc_ab_handle _ _ _ _ _ _ _ _ _ Hc Hh) as Hh1.
    apply (calloc_ab_kept rv P) in Hc.
    apply bind_Ret in H as ([] & s2 & Hs & H).
    pose proof (pool_set_handle _ _ _ _ _ _ _ _ Hs Hh1) as Hh2.
    apply (pool_set_kept rv P) in Hs; [|done].
    assert (untouched rv P s s2) as Hk2 by (by etransitivity).
    assert (∀ q', (do rv <- data_of q'; memset0 rv (object_size a);;
                   set_in_use q' IN_USE;; ret rv) s2 = Ret rv s' →
                  untouched rv P s s' ∧ heap s' !! h = Some (Some (OHandle a))) as Hclaim.
    { intros q' Hq. split; [|by eapply claim_record_handle].
      etransitivity; [exact Hk2|]. by eapply claim_record_kept. }
    destruct q as [|b k|b k|]; [|by eapply Hclaim..].
    apply bind_Ret in H as ([] & s3 & He & H).
    pose proof He as He'. apply op_error_handler_Ret in He' as ->.
    apply (error_kept rv P) in He.
    assert (heap (log (EvError "Could not allocate desired object.") s2) !! h =
            Some (Some (OHandle a))) as Hh3 by done.
    destruct (IH _ _ _ _ _ _ Hh3 HP H) as [Hk Hh']. split; [|done].
    etransitivity; [exact Hk2|]. by etransitivity.
  - apply bind_Ret in H as (e & s1 & Hg & H).
    apply ab_get_Ret in Hg as (b' & k' & n' & es & _ & _ & _ & ->).
    destruct (in_use e); [|by eapply IH].
    split; [by eapply claim_record_kept|by eapply claim_record_handle].
  - apply bind_Ret in H as (e & s1 & Hg & H). by apply ab_get_Ret in Hg as (? & ? & ? & ? & ? & _).
  - apply bind_Ret in H as (e & s1 & Hg & H). by apply ab_get_Ret in Hg as (? & ? & ? & ? & ? & _).
Qed.

Lemma allocate_retry_untouched (P : block → Prop) fuel : ∀ h s rv s' a,
  heap s !! h = Some (Some (OHandle a)) → P h →
  (∀ d, pool a = Ptr d 0 → P d) → (∀ b, length (heap s) ≤ b → P b)%nat →
  allocate_retry fuel (Ptr h 0) s = Ret rv s' →
  untouched rv P s s'.
Proof.
  induction fuel as [|fuel IH]; intros h s rv s' a Hh HPh HPd HPf H; [done|].
  rewrite allocate_retry_S in H.
  rewrite (bind_run _ _ _ _ _ (load_run _ _ _ Hh)) in H.
  apply bind_Ret in H as (rv1 & s1 & Hscan & H).
  destruct rv1 as [|b k|b k|].
  - destruct (allocate_scan_untouched P _ _ _ _ _ _ _ Hh HPd Hscan) as [Hk1 Hh1].
    assert (untouched rv P s s1) as Hk1'.
    { destruct Hk1 as [Hr Hd]. split; [|done]. intros q e _ He. apply (Hr q e); [|done].
      by destruct q. }
    apply bind_Ret in H as (grown & s2 & Hg & H).
    assert (∀ b, length (heap s1) ≤ b → P b)%nat as HPf1.
    { intros b Hb. apply HPf. destruct Hk1 as [_ [Hl _]]. lia. }
    destruct (grow_pool_untouched rv P _ _ _ _ _ Hh1 HPh HPd HPf1 Hg) as [Hk2 (a' & Hh2 & HPd2)].
    destruct grown.
    + assert (∀ b, length (heap s2) ≤ b → P b)%nat as HPf2.
      { intros b Hb. apply HPf1. destruct Hk2 as [_ [Hl _]]. lia. }
      pose proof (IH _ _ _ _ _ Hh2 HPh HPd2 HPf2 H) as Hk3.
      etransitivity; [exact Hk1'|]. by etransitivity.
    + apply bind_Ret in H as ([] & s3 & He & H). apply ret_Ret in H as [<- <-].
      apply (error_kept NULL P) in He.
      etransitivity; [exact Hk1'|]. by etransitivity.
  - apply ret_Ret in H as [<- <-]. by eapply allocate_scan_untouched.
  - apply ret_Ret in H as [<- <-]. by eapply allocate_scan_untouched.
  - apply ret_Ret in H as [<- <-]. by eapply allocate_scan_untouched.
Qed.

Lemma allocate_untouched h s rv s' a :
  heap s !! h = Some (Some (OHandle a)) →
  op_ll_allocate_object (Ptr h 0) s = Ret rv s' →
  untouched rv (λ b, b = h ∨ pool a = Ptr b 0 ∨ (length (heap s) ≤ b)%nat) s s'.
Proof.
  intros Hh H. unfold op_ll_allocate_object in H.
  apply bind_Ret in H as (rv1 & s1 & Hin & H).
  rewrite (bind_run _ _ _ _ _ (load_run _ _ _ Hh)) in Hin.
  set (P := λ b, b = h ∨ pool a = Ptr b 0 ∨ (length (heap s) ≤ b)%nat).
  assert (untouched rv1 P s s1) as Hk1.
  { destruct (initialized a).
    - eapply (allocate_retry_untouched P); [exact Hh| | | |exact Hin].
      + by left.
      + intros d Hd. right. by left.
      + intros b Hb. right. by right.
    - apply bind_Ret in Hin as ([] & s2 & He & Hin). apply ret_Ret in Hin as [<- <-].
      by apply (error_kept NULL P) in He. }
  destruct rv1 as [|b k|b k|].
  - apply bind_Ret in H as ([] & s2 & He & H). apply ret_Ret in H as [<- <-].
    apply (error_kept NULL P) in He. by etransitivity.
  - by apply ret_Ret in H as [<- <-].
  - by apply ret_Ret in H as [<- <-].
  - by apply ret_Ret in H as [<- <-].
Qed.

(** X12.  An allocation leaves every other object alone: whenever
    [op_ll_allocate_object] returns, every record that existed before the
    call, other than the one it hands out, is where it was, with the flag
    and the payload it had, also when the call has grown the pool or has
    failed. *)
Theorem allocate_keeps_other_objects allocator s rv s' :
  op_ll_allocate_object allocator s = Ret rv s' →
  ∀ q e, payload q ≠ rv →
         record_at (heap s) q = Some e → record_at (heap s') q = Some e.
Proof.
  intros H. destruct allocator as [|h k|h k|].
  - unfold op_ll_allocate_object in H.
    apply bind_Ret in H as (rv1 & s1 & Hin & H).
    apply bind_Ret in Hin as ([] & s2 & He & Hin). apply ret_Ret in Hin as [<- <-].
    apply bind_Ret in H as ([] & s3 & He' & H). apply ret_Ret in H as [<- <-].
    apply op_error_handler_Ret in He as ->. apply op_error_handler_Ret in He' as ->.
    by intros q e _ ?.
  - assert (∃ a, k = 0%nat ∧ heap s !! h = Some (Some (OHandle a))) as (a & -> & Hh).
    { unfold op_ll_allocate_object in H.
      apply bind_Ret in H as (rv1 & s1 & Hin & H).
      apply bind_Ret in Hin as (a & s2 & Hl & Hin).
      apply load_Ret in Hl as (h' & [= <- <-] & Hh & _). by exists a. }
    by destruct (allocate_untouched _ _ _ _ _ Hh H) as [Hr _].
  - unfold op_ll_allocate_object in H.
    apply bind_Ret in H as (rv1 & s1 & Hin & H).
    apply bind_Ret in Hin as (a & s2 & Hl & Hin). by apply load_Ret in Hl as (? & ? & _).
  - unfold op_ll_allocate_object in H.
    apply bind_Ret in H as (rv1 & s1 & Hin & H).
    apply bind_Ret in Hin as (a & s2 & Hl & Hin). by apply load_Ret in Hl as (? & ? & _).
Qed.

Lemma allocate_keeps_other_objects_witness :
  ∃ s0 held s rv s',
    op_ll_initialize_allocator 8 2 OP_DOUBLING_INDIVIDUAL (boot []) = Ret (Ptr 0 0) s0 ∧
    run_successful (Ptr 0 0) (replicate 2 Allocate) [] s0 = Some (held, s) ∧
    op_ll_allocate_object (Ptr 0 0) s = Ret rv s' ∧
    ∀ q e, payload q ≠ rv →
           record_at (heap s) q = Some e → record_at (heap s') q = Some e.
Proof.
  eexists _, _, _, _, _. split; [vm_compute; reflexivity|].
  split; [vm_compute; reflexivity|].
  split; [vm_compute; reflexivity|].
  eapply (allocate_keeps_other_objects (Ptr 0 0)).
  vm_compute; reflexivity.
Defined.

(** X13.  An allocation on one handle leaves every other handle alone:
    the record of the other handle and its directory are as they were, and
    so is every object of the other handle (other than the one handed out,
    should the two directories share a record). *)
Theorem allocate_isolated hA hB s rv s' aA aB dA dB slotsA slotsB :
  hA ≠ hB → dA ≠ dB →
  heap s !! hA = Some (Some (OHandle aA)) →
  pool aA = Ptr dA 0 → heap s !! dA = Some (Some (OPool slotsA)) →
  heap s !! hB = Some (Some (OHandle aB)) →
  pool aB = Ptr dB 0 → heap s !! dB = Some (Some (OPool slotsB)) →
  op_ll_allocate_object (Ptr hA 0) s = Ret rv s' →
  handle_of s' (Ptr hB 0) = Some aB ∧
  slots_of s' (Ptr hB 0) = slotsB ∧
  ∀ q e, q ∈ slotsB → payload q ≠ rv →
         record_at (heap s) q = Some e → record_at (heap s') q = Some e.
Proof.
  intros Hne Hdne HhA HpA HdA HhB HpB HdB H.
  destruct (allocate_untouched _ _ _ _ _ HhA H) as [Hr [_ Hd]].
  assert (heap s' !! hB = Some (Some (OHandle aB))) as HhB'.
  { apply Hd; [|done|done]. intros [->|[Hx|Hx]]; [done| |].
    - rewrite HpA in Hx. injection Hx as ->. congruence.
    - apply lookup_lt_Some in HhB. lia. }
  assert (heap s' !! dB = Some (Some (OPool slotsB))) as HdB'.
  { apply Hd; [|done|done]. intros [->|[Hx|Hx]]; [congruence| |].
    - rewrite HpA in Hx. by injection Hx as ->.
    - apply lookup_lt_Some in HdB. lia. }
  assert (handle_of s' (Ptr hB 0) = Some aB) as Hho.
  { unfold handle_of, load. by rewrite HhB'. }
  split; [done|]. split.
  { unfold slots_of. by rewrite Hho, HpB, HdB'. }
  intros q e _. apply Hr.
Qed.

Lemma allocate_isolated_witness :
  ∃ s rv s',
    (do hA <- op_ll_initialize_allocator 8 1 OP_DOUBLING_CHUNK;
     do hB <- op_ll_initialize_allocator 16 2 OP_LINEAR_INDIVIDUAL;
     do p <- op_ll_allocate_object hB;
     op_ll_allocate_object hA) (boot []) = Ret (Data 2 0) s ∧
    0%nat ≠ 3%nat ∧ 1%nat ≠ 4%nat ∧
    heap s !! 0%nat = Some (Some (OHandle (mk_allocator 8 1 1 true false true (Ptr 1 0)))) ∧
    pool (mk_allocator 8 1 1 true false true (Ptr 1 0)) = Ptr 1 0 ∧
    heap s !! 1%nat = Some (Some (OPool [Ptr 2 0])) ∧
    heap s !! 3%nat = Some (Some (OHandle (mk_allocator 16 2 2 false true true (Ptr 4 0)))) ∧
    pool (mk_allocator 16 2 2 false true true (Ptr 4 0)) = Ptr 4 0 ∧
    heap s !! 4%nat = Some (Some (OPool [Ptr 5 0; NULL])) ∧
    op_ll_allocate_object (Ptr 0 0) s = Ret rv s' ∧
    (handle_of s' (Ptr 3 0) = Some (mk_allocator 16 2 2 false true true (Ptr 4 0)) ∧
     slots_of s' (Ptr 3 0) = [Ptr 5 0; NULL] ∧
     ∀ q e, q ∈ [Ptr 5 0; NULL] → payload q ≠ rv →
            record_at (heap s) q = Some e → record_at (heap s') q = Some e).
Proof.
  eexists _, _, _. split; [vm_compute; reflexivity|].
  split; [done|]. split; [done|].
  split; [vm_compute; reflexivity|]. split; [reflexivity|].
  split; [vm_compute; reflexivity|]. split; [vm_compute; reflexivity|].
  split; [reflexivity|]. split; [vm_compute; reflexivity|].
  split; [vm_compute; reflexivity|].
  eapply (allocate_isolated 0 3 _ _ _ (mk_allocator 8 1 1 true false true (Ptr 1 0))
            (mk_allocator 16 2 2 false true true (Ptr 4 0)) 1 4 [Ptr 2 0] [Ptr 5 0; NULL]);
    [done|done|vm_compute; reflexivity|reflexivity|vm_compute; reflexivity
    |vm_compute; reflexivity|reflexivity|vm_compute; reflexivity|vm_compute; reflexivity].
Defined.

(** ** What a release can do *)

Lemma deallocate_scan_Ret n : ∀ i allocator object s u s',
  deallocate_scan n i allocator object s = Ret u s' →
  s' = s ∨
  ∃ b k m es e,
    object = Data b k ∧ heap s !! b = Some (Some (OBlock m es)) ∧ es !! k = Some e ∧
    s' = mk_sys (<[b := Some (OBlock m (<[k := mk_ab NOT_IN_USE (data e)]> es))]> (heap s))
                (plan s) (trace s).
Proof.
  induction n as [|n IH]; intros i allocator object s u s' H; simpl in H.
  { apply ret_Ret in H as [_ <-]. by left. }
  apply bind_Ret in H as (a & s1 & Hl & H).
  apply load_Ret in Hl as (h & -> & Hh & ->).
  apply bind_Ret in H as (p & s1 & Hg & H).
  apply pool_get_Ret in Hg as (d & slots & Hp & Hd & Hi & Hslot & ->).
  apply bind_Ret in H as (q & s1 & Hq & H).
  apply data_of_Ret in Hq as (b & k & -> & -> & ->).
  case_bool_decide as Heq; [|by eapply IH].
  subst object. right. unfold set_in_use in H.
  apply bind_Ret in H as (e & s1 & Hg & H).
  apply ab_get_Ret in Hg as (b' & k' & m & es & [= <- <-] & Hb & Hk & ->).
  apply ab_set_Ret in H as (b' & k' & m' & es' & e0 & [= <- <-] & Hb' & Hk' & ->).
  rewrite Hb in Hb'. injection Hb' as <- <-.
  by exists b, k, m, es, e.
Qed.

(** X14.  Whatever the handle and the pointer, when
    [op_ll_deallocate_object] returns it has done one of three things: it
    has reported a null handle or a null object and nothing else; or it has
    changed nothing at all; or it has cleared the [in_use] flag of the one
    record whose payload address is [object], leaving the payload of that
    record and every other block, the plan and the log as they were.  It
    never releases storage. *)
Theorem deallocate_touches_only_object allocator object s s' :
  op_ll_deallocate_object allocator object s = Ret tt s' →
  ((allocator = NULL ∨ object = NULL) ∧
   s' = log (EvError "Invalid allocator or object while deallocating.") s) ∨
  s' = s ∨
  ∃ b k m es e,
    object = Data b k ∧ heap s !! b = Some (Some (OBlock m es)) ∧ es !! k = Some e ∧
    s' = mk_sys (<[b := Some (OBlock m (<[k := mk_ab NOT_IN_USE (data e)]> es))]> (heap s))
                (plan s) (trace s).
Proof.
  intros H. unfold op_ll_deallocate_object in H.
  case_bool_decide as Ha; simpl in H.
  - case_bool_decide as Ho; simpl in H.
    + right. apply bind_Ret in H as (a & s1 & Hl & H).
      apply load_Ret in Hl as (h & -> & Hh & ->).
      by eapply deallocate_scan_Ret.
    + left. apply op_error_handler_Ret in H as ->. split; [|done].
      right. by destruct (decide (object = NULL)).
  - left. apply op_error_handler_Ret in H as ->. split; [|done].
    left. by destruct (decide (allocator = NULL)).
Qed.

Lemma deallocate_touches_only_object_witness :
  ∃ s0 held s s',
    op_ll_initialize_allocator 8 4 OP_DOUBLING_CHUNK (boot []) = Ret (Ptr 0 0) s0 ∧
    run_successful (Ptr 0 0) (replicate 2 Allocate) [] s0 = Some (held, s) ∧
    op_ll_deallocate_object (Ptr 0 0) (Data 2 1) s = Ret tt s' ∧
    (((Ptr 0 0 = NULL ∨ Data 2 1 = NULL) ∧
      s' = log (EvError "Invalid allocator or object while deallocating.") s) ∨
     s' = s ∨
     ∃ b k m es e,
       Data 2 1 = Data b k ∧ heap s !! b = Some (Some (OBlock m es)) ∧ es !! k = Some e ∧
       s' = mk_sys (<[b := Some (OBlock m (<[k := mk_ab NOT_IN_USE (data e)]> es))]> (heap s))
                   (plan s) (trace s)).
Proof.
  eexists _, _, _, _. split; [vm_compute; reflexivity|].
  split; [vm_compute; reflexivity|].
  split; [vm_compute; reflexivity|].
  eapply (deallocate_touches_only_object (Ptr 0 0) (Data 2 1)).
  vm_compute; reflexivity.
Defined.

(** ** The course of a successful allocation *)





(** ** Allocation when memory is granted *)

Lemma never_refused_drop s s' :
  never_refused s → (plan s' = plan s ∨ plan s' = tail (plan s)) → never_refused s'.
Proof.
  unfold never_refused. intros Hnr [-> | ->]; [done|].
  destruct (plan s); [done|]. by apply Forall_cons in Hnr as [_ ?].
Qed.

(** One growth step, when its requests are granted. *)
Lemma grow_pool_run s h a d backed m :
  pool_inv (heap s) h a d backed m →
  (use_chunks a = true → m = 0%nat) →
  never_refused s →
  let g := if use_linear a then initial_count a else maximum_objects a in
  sizeof_ptr * (maximum_objects a + g) ≤ PTRDIFF_MAX →
  (use_chunks a = true → g * (g * (sizeof_ab_t + object_size a)) ≤ PTRDIFF_MAX) →
  ∃ s', grow_pool (Ptr h 0) s = Ret true s' ∧ quiet s s' ∧ never_refused s'.
Proof.
  intros Hinv Hm Hnr g Hsize Hchunk.
  pose proof Hinv as [Hh Hini Hp Hd Hlen Hcap Hstep Hos Hb Hnd].
  assert (0 < g ≤ maximum_objects a) as Hg.
  { subst g. destruct (use_linear a); lia. }
  unfold PTRDIFF_MAX, sizeof_ptr in Hcap, Hsize.
  assert ((if use_linear a then wrap (maximum_objects a + g)
           else wrap (maximum_objects a * 2)) = maximum_objects a + g) as Hnew.
  { subst g. destruct (use_linear a); rewrite wrap_small; unfold SIZE_MAX; lia. }
  unfold grow_pool.
  rewrite (bind_run _ _ _ _ _ (load_run _ _ _ Hh)).
  fold g. rewrite Hnew.
  replace (maximum_objects a + g - maximum_objects a) with g by lia.
  rewrite (wrap_small (sizeof_ptr * _)) by (unfold SIZE_MAX, sizeof_ptr; lia).
  set (size := sizeof_ptr * (maximum_objects a + g)).
  set (nd := length (heap s)).
  assert (Z.to_nat (size / sizeof_ptr) = (length backed + m + Z.to_nat g)%nat) as Hn.
  { subst size. rewrite Z.mul_comm, Z.div_mul by done. lia. }
  erewrite bind_run; last first.
  { rewrite Hp. unfold realloc, granted. rewrite Hd.
    rewrite (never_refused_hd _ Hnr). rewrite bool_decide_true; [|subst size; unfold sizeof_ptr, PTRDIFF_MAX; lia].
    simpl. rewrite Hn. rewrite take_ge by len.
    replace (length backed + m + Z.to_nat g - length (backed ++ replicate m NULL))%nat
      with (Z.to_nat g) by len.
    reflexivity. }
  fold nd.
  assert (h ≠ d) as Hhd by (intros ->; congruence).
  assert (h < nd)%nat as Hhlt by (by eapply lookup_lt_Some).
  assert (d < nd)%nat as Hdlt by (by eapply lookup_lt_Some).
  set (hp1 := <[d:=None]> (heap s) ++ _).
  assert (length hp1 = S nd) as Hl1 by (subst hp1 nd; len).
  assert (hp1 !! h = Some (Some (OHandle a))) as Hh1.
  { subst hp1. rewrite lookup_app_l by len. by rewrite list_lookup_insert_ne. }
  assert (hp1 !! nd =
    Some (Some (OPool ((backed ++ replicate m NULL) ++ replicate (Z.to_nat g) Wild)))) as Hd1.
  { subst hp1. apply lookup_snoc_at. subst nd. len. }
  clearbody hp1.
  erewrite bind_run by (eapply store_run; simpl; exact Hh1).
  simpl.
  erewrite bind_run; last first.
  { eapply (null_loop_run _ (backed ++ replicate m NULL) (replicate (Z.to_nat g) Wild)); simpl.
    - apply list_lookup_insert_eq. lia.
    - reflexivity.
    - rewrite list_lookup_insert_ne by lia. exact Hd1.
    - rewrite length_replicate. lia.
    - len. }
  simpl.
  erewrite bind_run; last first.
  { eapply load_run. simpl.
    rewrite list_lookup_insert_ne by lia. apply list_lookup_insert_eq. lia. }
  erewrite bind_run; last first.
  { eapply store_run. simpl.
    rewrite list_lookup_insert_ne by lia. apply list_lookup_insert_eq. lia. }
  simpl.
  set (a' := set_maximum_objects _ _).
  set (hp4 := <[h:=Some (OHandle a')]> _).
  assert (length hp4 = S nd) as Hl4 by (subst hp4; len).
  assert (hp4 !! h = Some (Some (OHandle a'))) as Hh4.
  { subst hp4. apply list_lookup_insert_eq. len. }
  assert (hp4 !! nd =
            Some (Some (OPool ((backed ++ replicate m NULL) ++ replicate (Z.to_nat g) NULL))))
    as Hd4.
  { subst hp4. rewrite list_lookup_insert_ne by lia.
    apply list_lookup_insert_eq. len. }
  clearbody hp4.
  assert (never_refused (mk_sys hp4 (tail (plan s)) (trace s ++ [EvRealloc (Ptr d 0) size (Ptr nd 0)])))
    as Hnr4 by (eapply never_refused_drop; [exact Hnr|by right]).
  destruct (use_chunks a) eqn:Hch.
  - specialize (Hm eq_refl). subst m. specialize (Hchunk eq_refl).
    simpl in Hd4. rewrite app_nil_r in Hd4.
    assert (maximum_objects a = Z.of_nat (length backed)) as Hmax by lia.
    replace (fill_chunks (Ptr h 0) (maximum_objects a) g)
      with (fill_chunks (Ptr h 0) (Z.of_nat (length backed)) g) by (by rewrite Hmax).
    erewrite (fill_chunks_run _ h a' nd backed (replicate (Z.to_nat g) NULL));
      [|exact Hh4|reflexivity|exact Hd4|by rewrite length_replicate|lia|done
       |exact (never_refused_hd _ Hnr4)|exact Hchunk|unfold SIZE_MAX; lia].
    eexists. split; [reflexivity|]. split.
    + unfold quiet, tally. simpl. rewrite !List.filter_app, !length_app. simpl. lia.
    + eapply never_refused_drop; [exact Hnr4|by right].
  - eexists. split; [reflexivity|]. split; [|done].
    unfold quiet, tally. simpl. rewrite !List.filter_app, !length_app. simpl. lia.
Qed.

(** The scan on a well-formed pool returns, and reports nothing, when the
    next request for memory is granted. *)
Lemma allocate_scan_run : ∀ rest pre s h a d m,
  pool_inv (heap s) h a d (pre ++ rest) m →
  hd true (plan s) = true →
  sizeof_ab_t + object_size a ≤ PTRDIFF_MAX →
  ∃ rv s',
    allocate_scan (length rest + m) (Z.of_nat (length pre)) (Ptr h 0) s = Ret rv s' ∧
    quiet s s' ∧ (plan s' = plan s ∨ plan s' = tail (plan s)).
Proof.
  induction rest as [|p rest IH]; intros pre s h a d m Hinv Hpl Hsz.
  - rewrite app_nil_r in *. simpl.
    destruct m as [|m]; simpl.
    { exists NULL, s. split; [done|]. split; [done|by left]. }
    pose proof Hinv as [Hh Hini Hp Hd Hlen Hcap Hstep Hos Hb Hnd].
    rewrite (bind_run _ _ _ _ _ (load_run _ _ _ Hh)). rewrite Hp.
    erewrite bind_run; last first.
    { eapply pool_get_run; [exact Hd|lia|].
      rewrite Nat2Z.id, lookup_app_r by lia. by rewrite Nat.sub_diag. }
    cbv beta iota.
    assert (wrap (sizeof_ab_t + object_size a) = sizeof_ab_t + object_size a) as Hw.
    { apply wrap_small. unfold sizeof_ab_t, SIZE_MAX, PTRDIFF_MAX in *. lia. }
    erewrite bind_run; last first.
    { apply calloc_ab_run; [done|rewrite Hw; lia|rewrite Hw; lia]. }
    set (nb := length (heap s)) in *.
    assert (d < nb)%nat as Hdlt by (by eapply lookup_lt_Some).
    erewrite bind_run; last first.
    { eapply pool_set_run; simpl.
      - rewrite lookup_app_l by done. exact Hd.
      - lia.
      - len. }
    cbv beta iota.
    change (@ret ptr (Data nb 0)) with (data_of (Ptr nb 0)).
    erewrite claim_record_run; simpl.
    2:{ rewrite list_lookup_insert_ne by lia. by apply lookup_snoc_at. }
    2:{ done. }
    2:{ simpl. by rewrite length_replicate. }
    eexists _, _. split; [reflexivity|]. split; [|by right].
    unfold quiet, tally. simpl. rewrite List.filter_app, length_app. simpl. lia.
  - pose proof Hinv as [Hh Hini Hp Hd Hlen Hcap Hstep Hos Hb Hnd].
    assert (backed_slot (heap s) (object_size a) p) as (e & He & Hle).
    { rewrite Forall_forall in Hb. apply Hb.
      apply elem_of_app. right. by left. }
    pose proof He as He'.
    apply record_at_block in He' as (b & k & n & es & -> & Hbk & Hk).
    simpl.
    rewrite (bind_run _ _ _ _ _ (load_run _ _ _ Hh)). rewrite Hp.
    erewrite bind_run; last first.
    { eapply pool_get_run; [exact Hd|lia|].
      rewrite Nat2Z.id, <- app_assoc, lookup_app_r by lia.
      by rewrite Nat.sub_diag. }
    cbv beta iota.
    erewrite bind_run by (by eapply ab_get_run).
    destruct (in_use e) eqn:Hu.
    + try change (@ret ptr (Data b k)) with (data_of (Ptr b k)).
      erewrite claim_record_run by done.
      eexists _, _. split; [reflexivity|]. split; [done|by left].
    + replace (Z.of_nat (length pre) + 1) with (Z.of_nat (length (pre ++ [Ptr b k])))
        by len.
      apply (IH _ _ _ a d); [|done|done].
      by rewrite <- app_assoc.
Qed.

(** The passes of [op_ll_allocate_object] on a well-formed pool, when no
    request for memory is refused: the first scan hands a record out, or the
    pool is full, grows once, and the second scan hands one out. *)
Lemma allocate_retry_run s h a d backed m :
  pool_inv (heap s) h a d backed m →
  never_refused s →
  let g := if use_linear a then initial_count a else maximum_objects a in
  sizeof_ab_t + object_size a ≤ PTRDIFF_MAX →
  sizeof_ptr * (maximum_objects a + g) ≤ PTRDIFF_MAX →
  (use_chunks a = true → g * (g * (sizeof_ab_t + object_size a)) ≤ PTRDIFF_MAX) →
  ∃ rv s', allocate_retry (retry_fuel s) (Ptr h 0) s = Ret rv s' ∧
           rv ≠ NULL ∧ quiet s s' ∧ never_refused s'.
Proof.
  intros Hinv Hnr g Hsz Hdir Hchunk.
  pose proof Hinv as [Hh Hini Hp Hd Hlen Hcap Hstep Hos Hb Hnd].
  unfold retry_fuel. rewrite allocate_retry_S.
  rewrite (bind_run _ _ _ _ _ (load_run _ _ _ Hh)).
  rewrite <- Hlen, Nat2Z.id.
  destruct (allocate_scan_run backed [] s h a d m Hinv (never_refused_hd _ Hnr) Hsz)
    as (r1 & s1 & Hscan & Hq1 & Hpl1).
  simpl in Hscan.
  erewrite bind_run by exact Hscan.
  pose proof Hscan as Hscan'.
  apply (allocate_scan_quiet backed [] s h a d m) in Hscan'; [|done|done|done].
  simpl in Hscan'.
  destruct Hscan' as [(-> & -> & -> & Hfull)|Hfound].
  - (* the pool is full *)
    destruct (grow_pool_run s h a d backed 0 Hinv (λ _, eq_refl) Hnr Hdir Hchunk)
      as (s3 & Hgrow & Hq3 & Hnr3).
    erewrite bind_run by exact Hgrow.
    pose proof Hgrow as Hgrow'.
    eapply grow_pool_quiet in Hgrow'; [|exact Hinv|done|done].
    destruct Hgrow' as (_ & Hblk & Huse & Hgrown).
    fold g in Hgrown.
    set (a' := set_maximum_objects _ _) in Hgrown.
    assert (0 < g) as Hg by (subst g; destruct (use_linear a); lia).
    assert (∃ backed2 m2,
              pool_inv (heap s3) h a' (length (heap s)) backed2 m2 ∧
              (m2 ≠ 0%nat ∨ ¬ Forall (λ q, in_use_at (heap s3) q = true) backed2))
      as (backed2 & m2 & Hinv2 & Hroom).
    { destruct (use_chunks a).
      - destruct Hgrown as (Hinv2 & Hnew & Ht).
        eexists _, _. split; [exact Hinv2|].
        right. intros Hall. apply Forall_app in Hall as [_ Hall].
        rewrite Forall_forall in Hall.
        assert (Ptr (S (length (heap s))) 0 ∈ chunk_slots (S (length (heap s))) (Z.to_nat g))
          as Hin by (apply chunk_slots_elem; exists 0%nat; split; [done|lia]).
        specialize (Hall _ Hin). rewrite Huse in Hall.
        unfold in_use_at, record_at in Hall.
        by rewrite lookup_ge_None_2 in Hall by lia.
      - destruct Hgrown as (Hinv2 & Ht).
        eexists _, _. split; [exact Hinv2|]. left. lia. }
    cbv iota.
    rewrite allocate_retry_S.
    pose proof Hinv2 as [Hh2 _ Hp2 _ Hlen2 _ _ _ _ _].
    rewrite (bind_run _ _ _ _ _ (load_run _ _ _ Hh2)).
    rewrite <- Hlen2, Nat2Z.id.
    destruct (allocate_scan_run backed2 [] s3 h a' (length (heap s)) m2 Hinv2 (never_refused_hd _ Hnr3) Hsz)
      as (r2 & s4 & Hscan2 & Hq4 & Hpl4).
    simpl in Hscan2.
    erewrite bind_run by exact Hscan2.
    pose proof Hscan2 as Hscan2'.
    apply (allocate_scan_quiet backed2 [] s3 h a' (length (heap s)) m2) in Hscan2'; [|done|done|done].
    simpl in Hscan2'.
    destruct Hscan2' as [(-> & -> & -> & Hfull2)|Hfound].
    { exfalso. destruct Hroom; done. }
    pose proof (found_not_null _ _ _ _ _ _ _ _ Hfound) as Hr2.
    exists r2, s4.
    split; [by destruct r2|]. split; [done|]. split.
    + unfold quiet in *. lia.
    + by eapply never_refused_drop.
  - (* a slot was free *)
    pose proof (found_not_null _ _ _ _ _ _ _ _ Hfound) as Hr1.
    exists r1, s1.
    split; [by destruct r1|]. split; [done|]. split; [done|].
    by eapply never_refused_drop.
Qed.


(** ** Releasing a pool with individual layout *)














(** ** A chunk that is refused *)

Lemma calloc_ab_refused nmemb size count os s :
  hd true (plan s) = false →
  calloc_ab nmemb size count os s =
    Ret NULL (mk_sys (heap s) (tail (plan s)) (trace s ++ [EvCalloc nmemb size NULL])).
Proof.
  intros Hp. unfold calloc_ab, bind, calloc, granted. by rewrite Hp.
Qed.

(** The scan of a pool whose slots are all in use comes back empty-handed
    and leaves the state as it is. *)
Lemma allocate_scan_full : ∀ rest pre s h a d,
  pool_inv (heap s) h a d (pre ++ rest) 0 →
  Forall (λ p, in_use_at (heap s) p = true) rest →
  allocate_scan (length rest + 0) (Z.of_nat (length pre)) (Ptr h 0) s = Ret NULL s.
Proof.
  induction rest as [|p rest IH]; intros pre s h a d Hinv Hfull; [done|].
  pose proof Hinv as [Hh Hini Hp Hd Hlen Hcap Hstep Hos Hb Hnd].
  apply Forall_cons in Hfull as [Hu Hfull].
  unfold in_use_at in Hu.
  destruct (record_at (heap s) p) as [e|] eqn:He; [|done].
  destruct (in_use e) eqn:Hue; [done|].
  apply record_at_block in He as (b & k & n & es & -> & Hbk & Hk).
  simpl.
  rewrite (bind_run _ _ _ _ _ (load_run _ _ _ Hh)). rewrite Hp.
  erewrite bind_run; last first.
  { eapply pool_get_run; [exact Hd|lia|].
    rewrite app_nil_r, Nat2Z.id, lookup_app_r by lia. by rewrite Nat.sub_diag. }
  cbv beta iota.
  erewrite bind_run by (by eapply ab_get_run).
  rewrite Hue.
  replace (Z.of_nat (length pre) + 1) with (Z.of_nat (length (pre ++ [Ptr b k]))) by len.
  apply (IH _ _ _ a d); [|done].
  by rewrite <- app_assoc.
Qed.

(** Growth of a chunked pool when [realloc] grants the larger directory and
    [calloc] refuses the chunk: the step reports the failure and returns
    false, and the handle keeps the larger directory, whose new slots are
    null. *)
Lemma grow_pool_chunk_refused s h a d backed pl :
  pool_inv (heap s) h a d backed 0 →
  use_chunks a = true →
  plan s = true :: false :: pl →
  let g := if use_linear a then initial_count a else maximum_objects a in
  let nd := length (heap s) in
  sizeof_ptr * (maximum_objects a + g) ≤ PTRDIFF_MAX →
  ∃ s', grow_pool (Ptr h 0) s = Ret false s' ∧
        tally is_error s' = S (tally is_error s) ∧ plan s' = pl ∧
        pool_inv (heap s') h (grown a nd) nd backed (Z.to_nat g) ∧
        heap s' !! d = Some None ∧
        (∀ q, in_use_at (heap s') q = in_use_at (heap s) q).
Proof.
  intros Hinv Hch Hpl g nd Hsize.
  pose proof Hinv as [Hh Hini Hp Hd Hlen Hcap Hstep Hos Hb Hnd].
  assert (nd = length (heap s)) as Hndl by done. clearbody nd.
  assert (0 < g ≤ maximum_objects a) as Hg.
  { subst g. destruct (use_linear a); lia. }
  unfold PTRDIFF_MAX, sizeof_ptr in Hcap, Hsize.
  assert ((if use_linear a then wrap (maximum_objects a + g)
           else wrap (maximum_objects a * 2)) = maximum_objects a + g) as Hnew.
  { subst g. destruct (use_linear a); rewrite wrap_small; unfold SIZE_MAX; lia. }
  unfold grown. fold g.
  set (a' := set_maximum_objects _ _).
  unfold grow_pool.
  rewrite (bind_run _ _ _ _ _ (load_run _ _ _ Hh)).
  fold g. rewrite Hnew.
  replace (maximum_objects a + g - maximum_objects a) with g by lia.
  rewrite (wrap_small (sizeof_ptr * _)) by (unfold SIZE_MAX, sizeof_ptr; lia).
  set (size := sizeof_ptr * (maximum_objects a + g)).
  assert (Z.to_nat (size / sizeof_ptr) = (length backed + 0 + Z.to_nat g)%nat) as Hn.
  { subst size. rewrite Z.mul_comm, Z.div_mul by done. lia. }
  erewrite bind_run; last first.
  { rewrite Hp. unfold realloc, granted. rewrite Hd, Hpl.
    rewrite bool_decide_true; [|subst size; unfold sizeof_ptr, PTRDIFF_MAX; lia].
    simpl. rewrite Hn. rewrite take_ge by len.
    replace (length backed + 0 + Z.to_nat g - length (backed ++ []))%nat
      with (Z.to_nat g) by len.
    reflexivity. }
  rewrite <- Hndl.
  assert (h ≠ d) as Hhd by (intros ->; congruence).
  assert (h < nd)%nat as Hhlt by (rewrite Hndl; by eapply lookup_lt_Some).
  assert (d < nd)%nat as Hdlt by (rewrite Hndl; by eapply lookup_lt_Some).
  set (hp1 := <[d:=None]> (heap s) ++ _).
  assert (length hp1 = S nd) as Hl1 by (subst hp1; len).
  assert (hp1 !! h = Some (Some (OHandle a))) as Hh1.
  { subst hp1. rewrite lookup_app_l by len. by rewrite list_lookup_insert_ne. }
  assert (hp1 !! nd =
    Some (Some (OPool ((backed ++ []) ++ replicate (Z.to_nat g) Wild)))) as Hd1.
  { subst hp1. apply lookup_snoc_at. len. }
  assert (∀ b, b < nd → b ≠ d → hp1 !! b = heap s !! b)%nat as Hf1.
  { intros b Hblt Hbd. subst hp1.
    rewrite lookup_app_l by len. by rewrite list_lookup_insert_ne. }
  assert (hp1 !! d = Some None) as Hdead1.
  { subst hp1. rewrite lookup_app_l by len. apply list_lookup_insert_eq. lia. }
  clearbody hp1.
  erewrite bind_run by (eapply store_run; simpl; exact Hh1).
  simpl.
  erewrite bind_run; last first.
  { eapply (null_loop_run _ (backed ++ []) (replicate (Z.to_nat g) Wild)); simpl.
    - apply list_lookup_insert_eq. lia.
    - reflexivity.
    - rewrite list_lookup_insert_ne by lia. exact Hd1.
    - rewrite length_replicate. lia.
    - len. }
  simpl.
  erewrite bind_run; last first.
  { eapply load_run. simpl.
    rewrite list_lookup_insert_ne by lia. apply list_lookup_insert_eq. lia. }
  erewrite bind_run; last first.
  { eapply store_run. simpl.
    rewrite list_lookup_insert_ne by lia. apply list_lookup_insert_eq. lia. }
  simpl. fold a'.
  set (hp4 := <[h:=Some (OHandle a')]> _).
  assert (length hp4 = S nd) as Hl4 by (subst hp4; len).
  assert (hp4 !! h = Some (Some (OHandle a'))) as Hh4.
  { subst hp4. apply list_lookup_insert_eq. len. }
  assert (hp4 !! nd = Some (Some (OPool (backed ++ replicate (Z.to_nat g) NULL))))
    as Hd4.
  { subst hp4. rewrite list_lookup_insert_ne by lia.
    rewrite app_nil_r. apply list_lookup_insert_eq. len. }
  assert (∀ b, b < nd → b ≠ d → b ≠ h → hp4 !! b = heap s !! b)%nat as Hf4.
  { intros b Hblt Hbd Hbh. subst hp4.
    rewrite !list_lookup_insert_ne by lia. eauto. }
  assert (hp4 !! d = Some None) as Hdead4.
  { subst hp4. by rewrite !list_lookup_insert_ne by lia. }
  clearbody hp4.
  rewrite Hch.
  unfold fill_chunks.
  erewrite bind_run by (by apply load_run).
  erewrite bind_run by (by apply calloc_ab_refused).
  eexists. split; [reflexivity|]. simpl.
  split.
  { unfold tally. simpl. rewrite !List.filter_app, !length_app. simpl. lia. }
  split; [done|].
  assert (∀ b n es, heap s !! b = Some (Some (OBlock n es)) →
                    hp4 !! b = Some (Some (OBlock n es))) as Hblk.
  { intros b n es Hbk.
    assert (b < nd)%nat by (rewrite Hndl; by eapply lookup_lt_Some).
    rewrite Hf4; [done|lia|..]; intros ->; congruence. }
  split; [|split; [done|]].
  - split; simpl; try done.
    + lia.
    + lia.
    + eapply Forall_impl; [exact Hb|]. intros p (e & He & Hle).
      exists e. split; [|done]. eapply record_at_frame; [exact He|]. done.
  - intros q. destruct q as [|b k| |]; try done.
    unfold in_use_at, record_at.
    destruct (decide (b = nd)) as [->|Hbn].
    { rewrite Hd4. by rewrite (lookup_ge_None_2 (heap s) nd) by lia. }
    destruct (decide (b = h)) as [->|Hbh]; [by rewrite Hh4, Hh|].
    destruct (decide (b = d)) as [->|Hbd]; [by rewrite Hdead4, Hd|].
    destruct (decide (b < nd)%nat); [by rewrite Hf4 by lia|].
    by rewrite !lookup_ge_None_2 by lia.
Qed.

(** X18.  A chunked pool whose slots are all in use, when [realloc] grants
    the larger directory and [calloc] then refuses the new chunk:
    [op_ll_allocate_object] returns null after three calls of the error
    hook, and the growth is not undone.  The handle stays well formed with
    the larger [maximum_objects]; its directory is the old one followed by
    null slots, and no object has changed its state. *)
Theorem allocate_chunk_refused s allocator a pl :
  initialized_handle s allocator → handle_of s allocator = Some a →
  use_chunks a = true →
  Forall (λ p, in_use_at (heap s) p = true) (slots_of s allocator) →
  plan s = true :: false :: pl →
  let g := if use_linear a then initial_count a else maximum_objects a in
  sizeof_ptr * (maximum_objects a + g) ≤ PTRDIFF_MAX →
  ∃ s' a',
    op_ll_allocate_object allocator s = Ret NULL s' ∧
    tally is_error s' = (3 + tally is_error s)%nat ∧
    plan s' = pl ∧
    initialized_handle s' allocator ∧
    handle_of s' allocator = Some a' ∧
    maximum_objects a' = maximum_objects a + g ∧ use_chunks a' = true ∧
    slots_of s' allocator = slots_of s allocator ++ replicate (Z.to_nat g) NULL ∧
    live_objects s' allocator = live_objects s allocator.
Proof.
  intros (h & a0 & d & backed & m & -> & Hinv) Ha Hch Hfull Hpl g Hsize.
  pose proof Hinv as [Hh Hini Hp Hd Hlen Hcap Hstep Hos Hb Hnd].
  assert (a0 = a) as ->.
  { unfold handle_of in Ha. rewrite (load_run _ _ _ Hh) in Ha. congruence. }
  rewrite (pool_inv_slots_of _ _ _ _ _ _ Hinv) in Hfull |- *.
  apply Forall_app in Hfull as [Hfull Hnull].
  assert (m = 0%nat) as ->.
  { destruct m as [|m]; [done|]. by apply Forall_cons in Hnull as [? _]. }
  destruct (grow_pool_chunk_refused _ _ _ _ _ _ Hinv Hch Hpl Hsize)
    as (s3 & Hgrow & Herr & Hpl3 & Hinv3 & _ & Huse).
  eexists _, _. split.
  { unfold op_ll_allocate_object.
    erewrite bind_run; last first.
    { rewrite (bind_run _ _ _ _ _ (load_run _ _ _ Hh)). rewrite Hini.
      unfold retry_fuel. rewrite allocate_retry_S.
      rewrite (bind_run _ _ _ _ _ (load_run _ _ _ Hh)).
      rewrite <- Hlen, Nat2Z.id.
      erewrite bind_run by (by apply (allocate_scan_full backed [] s h a d)).
      cbv iota.
      erewrite bind_run by exact Hgrow.
      reflexivity. }
    reflexivity. }
  simpl.
  split.
  { unfold tally in *. simpl. rewrite !List.filter_app, !length_app. simpl. lia. }
  split; [done|].
  split; [by eexists _, _, _, _, _|].
  split; [by eapply pool_inv_handle_of|].
  split; [done|]. split; [done|].
  assert (slots_of (log (EvError "Could not allocate desired object.")
                      (log (EvError "Unable to grow allocation pool.") s3)) (Ptr h 0) =
          backed ++ replicate (Z.to_nat g) NULL) as Hsl
    by (by eapply pool_inv_slots_of).
  split; [by rewrite Hsl, app_nil_r|].
  unfold live_objects. rewrite Hsl, (pool_inv_slots_of _ _ _ _ _ _ Hinv).
  f_equal. simpl. rewrite app_nil_r, active_app, active_nulls, app_nil_r.
  unfold active. apply list_filter_iff. intros q. by rewrite Huse.
Qed.

Lemma allocate_chunk_refused_witness :
  ∃ s0 held s a,
    op_ll_initialize_allocator 8 1 OP_DOUBLING_CHUNK (boot [true; true; true; true; false])
      = Ret (Ptr 0 0) s0 ∧
    run_successful (Ptr 0 0) [Allocate] [] s0 = Some (held, s) ∧
    handle_of s (Ptr 0 0) = Some a ∧
    ∃ s' a',
      op_ll_allocate_object (Ptr 0 0) s = Ret NULL s' ∧
      tally is_error s' = (3 + tally is_error s)%nat ∧
      plan s' = [] ∧
      initialized_handle s' (Ptr 0 0) ∧
      handle_of s' (Ptr 0 0) = Some a' ∧
      maximum_objects a' = maximum_objects a + 1 ∧ use_chunks a' = true ∧
      slots_of s' (Ptr 0 0) = slots_of s (Ptr 0 0) ++ replicate 1 NULL ∧
      live_objects s' (Ptr 0 0) = live_objects s (Ptr 0 0).
Proof.
  eexists _, _, _, _. split; [vm_compute; reflexivity|].
  split; [vm_compute; reflexivity|]. split; [vm_compute; reflexivity|].
  match goal with |- ∃ s' a', op_ll_allocate_object _ ?s = _ ∧ _ => set (s1 := s) end.
  eapply (allocate_chunk_refused s1 (Ptr 0 0)
            (mk_allocator 8 1 1 true false true (Ptr 1 0)) []);
    [|vm_compute; reflexivity|done|repeat constructor|vm_compute; reflexivity|by vm_compute].
  eapply (run_successful_initialized 8 1 OP_DOUBLING_CHUNK
            (boot [true; true; true; true; false]) (Ptr 0 0) _ [Allocate]);
    [lia|lia|vm_compute; reflexivity|done|vm_compute; reflexivity].
Defined.
(** ** Initializing through the macro interface *)

(** The first pass through [allocate_##TYPE]: the flag is clear, whatever
    the static handle holds. *)
Lemma allocate_TYPE_fresh sz COUNT MODE g s :
  allocate_TYPE_initialized g = false →
  allocate_TYPE sz COUNT MODE g s =
    match op_ll_initialize_allocator sz COUNT MODE s with
    | Ret h s1 =>
        match op_ll_allocate_object h s1 with
        | Ret rv s2 => Ret (rv, mk_statics h true) s2
        | Fault => Fault
        | Spin => Spin
        end
    | Fault => Fault
    | Spin => Spin
    end.
Proof.
  intros Hg. unfold allocate_TYPE, initialize_TYPE_allocator, bind, ret.
  rewrite Hg. simpl.
  by destruct (op_ll_initialize_allocator sz COUNT MODE s).
Qed.

(** X19.  [initialize_##TYPE##_allocator] does not set the flag that
    [allocate_##TYPE] tests: when it is called first and succeeds, the first
    [allocate_##TYPE] initializes once more and stores the new handle over
    the old one.  The pool of the explicit call is still there afterwards,
    its handle record initialized and its directory allocated, but the static
    handle no longer refers to it. *)
Theorem initialize_TYPE_then_allocate sz COUNT MODE s g1 s1 r s2 :
  0 < COUNT → 0 ≤ sz →
  initialize_TYPE_allocator sz COUNT MODE statics_0 s = Ret g1 s1 →
  TYPE_allocator g1 ≠ NULL →
  allocate_TYPE sz COUNT MODE g1 s1 = Ret r s2 →
  TYPE_allocator r.2 ≠ NULL →
  allocate_TYPE_initialized g1 = false ∧
  allocate_TYPE_initialized r.2 = true ∧
  TYPE_allocator r.2 ≠ TYPE_allocator g1 ∧
  ∃ a1 d1 slots,
    handle_of s1 (TYPE_allocator g1) = Some a1 ∧
    handle_of s2 (TYPE_allocator g1) = Some a1 ∧
    initialized a1 = true ∧ pool a1 = Ptr d1 0 ∧
    heap s1 !! d1 = Some (Some (OPool slots)) ∧
    heap s2 !! d1 = Some (Some (OPool slots)).
Proof.
  intros HC Hsz Hini Hg1 Hcall Hg2.
  unfold initialize_TYPE_allocator in Hini.
  apply bind_Ret in Hini as (hd1 & s1' & Hini & Hret).
  apply ret_Ret in Hret as [Hg Hs]. subst g1 s1'. simpl in *.
  destruct (initialize_tracks _ _ _ _ _ _ HC Hsz Hini Hg1)
    as (h1 & a1 & d1 & backed1 & m1 & -> & Hinv1 & _).
  pose proof Hinv1 as [Hh1 Hinit1 Hp1 Hd1 _ _ _ _ _ _].
  rewrite allocate_TYPE_fresh in Hcall by done.
  destruct (op_ll_initialize_allocator sz COUNT MODE s1) as [hd2 s3| |] eqn:Hini2;
    [|done|done].
  destruct (op_ll_allocate_object hd2 s3) as [rv s4| |] eqn:Hcall2; [|done|done].
  injection Hcall as <- <-. simpl in *.
  destruct (initialize_ok _ _ _ _ _ _ HC Hsz Hini2 Hg2) as (-> & _ & Hold & _ & _ & Hshape).
  set (h2 := length (heap s1)) in *.
  assert (∃ a2 backed2 m2, pool_inv (heap s3) h2 a2 (S h2) backed2 m2)
    as (a2 & backed2 & m2 & Hinv2).
  { destruct (mode_flags MODE).1; destruct Hshape as [Hinv2 _]; eauto. }
  pose proof Hinv2 as [Hh2 _ Hp2 Hd2 _ _ _ _ _ _].
  pose proof (lookup_lt_Some _ _ _ Hh1) as Hlt1.
  pose proof (lookup_lt_Some _ _ _ Hd1) as Hltd1.
  assert (heap s3 !! h1 = Some (Some (OHandle a1))) as Hh1' by (by rewrite Hold).
  assert (heap s3 !! d1 = Some (Some (OPool (backed1 ++ replicate m1 NULL)))) as Hd1'
    by (by rewrite Hold).
  destruct (allocate_untouched _ _ _ _ _ Hh2 Hcall2) as [_ [_ Hkept]].
  pose proof (lookup_lt_Some _ _ _ Hh1') as Hlt1'.
  pose proof (lookup_lt_Some _ _ _ Hd1') as Hltd1'.
  assert (heap s4 !! h1 = Some (Some (OHandle a1))) as Hh1''.
  { apply Hkept; [|done|done]. intros [Hx|[Hx|Hx]]; [lia| |lia].
    rewrite Hp2 in Hx. injection Hx as <-. congruence. }
  assert (heap s4 !! d1 = Some (Some (OPool (backed1 ++ replicate m1 NULL)))) as Hd1''.
  { apply Hkept; [|done|done]. intros [Hx|[Hx|Hx]]; [lia| |lia].
    rewrite Hp2 in Hx. injection Hx as <-. lia. }
  split; [done|]. split; [done|].
  split; [intros [= Hx]; lia|].
  exists a1, d1, (backed1 ++ replicate m1 NULL).
  unfold handle_of, load. rewrite Hh1, Hh1''. done.
Qed.

Lemma initialize_TYPE_then_allocate_witness :
  ∃ g1 s1 r s2,
    initialize_TYPE_allocator 8 2 OP_DOUBLING_CHUNK statics_0 (boot []) = Ret g1 s1 ∧
    allocate_TYPE 8 2 OP_DOUBLING_CHUNK g1 s1 = Ret r s2 ∧
    allocate_TYPE_initialized g1 = false ∧
    allocate_TYPE_initialized r.2 = true ∧
    TYPE_allocator r.2 ≠ TYPE_allocator g1 ∧
    ∃ a1 d1 slots,
      handle_of s1 (TYPE_allocator g1) = Some a1 ∧
      handle_of s2 (TYPE_allocator g1) = Some a1 ∧
      initialized a1 = true ∧ pool a1 = Ptr d1 0 ∧
      heap s1 !! d1 = Some (Some (OPool slots)) ∧
      heap s2 !! d1 = Some (Some (OPool slots)).
Proof.
  eexists _, _, _, _. split; [vm_compute; reflexivity|].
  split; [vm_compute; reflexivity|].
  match goal with |- allocate_TYPE_initialized ?g = _ ∧ _ ∧ TYPE_allocator ?r.2 ≠ _ ∧ _ =>
    set (g1 := g); set (r1 := r) end.
  match goal with |- context [handle_of ?s (TYPE_allocator g1) = Some _ ∧
                              handle_of ?s' _ = _ ∧ _] =>
    set (s1 := s); set (s2 := s') end.
  eapply (initialize_TYPE_then_allocate 8 2 OP_DOUBLING_CHUNK (boot []) g1 s1 r1 s2);
    [lia|lia|vm_compute; reflexivity|done|vm_compute; reflexivity|done].
Defined.
(** ** Growth of a pool that is full *)

(** X22.  For each of the four modes, after initialization with capacity
    [C > 0], as long as no more than [C] allocations have been made, none
    of which reported an error, the directory has not been resized and
    [maximum_objects] is still [C].  Once [C] objects are out, a further
    allocation that reports no error has resized the directory exactly once,
    to [C + C] slots; and when no request for memory is refused and the
    sizes requested are admissible, the further allocation does return an
    object without reporting an error. *)
Theorem growth_only_when_full os C mode s0 allocator s k held s1 :
  0 < C → 0 ≤ os →
  op_ll_initialize_allocator os C mode s0 = Ret allocator s →
  allocator ≠ NULL →
  (k ≤ Z.to_nat C)%nat →
  run_successful allocator (replicate k Allocate) [] s = Some (held, s1) →
  (∃ a1, handle_of s1 allocator = Some a1 ∧ maximum_objects a1 = C) ∧
  tally is_realloc s1 = tally is_realloc s ∧
  (k = Z.to_nat C →
   (∀ rv s2, op_ll_allocate_object allocator s1 = Ret rv s2 → quiet s1 s2 →
      tally is_realloc s2 = S (tally is_realloc s1) ∧
      ∃ a2, handle_of s2 allocator = Some a2 ∧ maximum_objects a2 = C + C) ∧
   (never_refused s1 →
    sizeof_ab_t + os ≤ PTRDIFF_MAX →
    sizeof_ptr * (C + C) ≤ PTRDIFF_MAX →
    ((mode_flags mode).1 = true → C * (C * (sizeof_ab_t + os)) ≤ PTRDIFF_MAX) →
    ∃ rv s2, op_ll_allocate_object allocator s1 = Ret rv s2 ∧ rv ≠ NULL ∧
             quiet s1 s2)).
Proof.
  intros HC Hos Hini Hhd Hk Hrun.
  destruct (initialize_tracks _ _ _ _ _ _ HC Hos Hini Hhd)
    as (h & a & d & backed & m & -> & Hinv & Hact & Hmax & Hic & Hsz & Hchunks & _ & _ & _).
  assert (length (active (heap s) backed) + k ≤ Z.to_nat (maximum_objects a))%nat
    as Hroom by (rewrite Hact, Hmax; simpl; lia).
  destruct (fill_without_growth (Ptr h 0) k [] s held s1 h a d backed m
              eq_refl Hinv Hroom Hrun)
    as (backed1 & m1 & Hinv1 & Hcount & Hre).
  rewrite Hact in Hcount. simpl in Hcount.
  split; [exists a; split; [by eapply pool_inv_handle_of|done]|].
  split; [done|].
  intros ->. split.
  - intros rv s2 Hcall Hq.
    destruct (allocate_quiet_count _ _ _ _ _ _ _ _ Hinv1 Hcall Hq)
      as (a' & d' & backed' & m' & Hinv' & Hcount' & [(-> & -> & Hre')|(-> & Hre' & _)]).
    + exfalso. pose proof (length_active_le (heap s2) backed').
      destruct Hinv' as [_ _ _ _ Hlen _ _ _ _ _]. lia.
    + split; [done|]. eexists. split; [by eapply pool_inv_handle_of|].
      simpl. rewrite Hmax, Hic. by destruct (use_linear a).
  - intros Hnr Hrec Hdir Hchunk.
    assert ((if use_linear a then initial_count a else maximum_objects a) = C) as Hg
      by (rewrite Hmax, Hic; by destruct (use_linear a)).
    destruct (allocate_retry_run s1 h a d backed1 m1 Hinv1 Hnr)
      as (rv & s2 & Hretry & Hrv & Hq & _).
    + by rewrite Hsz.
    + by rewrite Hg, Hmax.
    + intros Hch. rewrite Hg, Hsz. apply Hchunk. by rewrite <- Hchunks.
    + exists rv, s2. split; [|done].
      pose proof Hinv1 as [Hh1 Hini1 _ _ _ _ _ _ _ _].
      unfold op_ll_allocate_object.
      erewrite bind_run; last first.
      { rewrite (bind_run _ _ _ _ _ (load_run _ _ _ Hh1)). rewrite Hini1. exact Hretry. }
      by destruct rv.
Qed.

Lemma growth_only_when_full_witness :
  ∃ s held s1 rv s2 a2,
    op_ll_initialize_allocator 8 2 OP_LINEAR_CHUNK (boot []) = Ret (Ptr 0 0) s ∧
    run_successful (Ptr 0 0) (replicate 2 Allocate) [] s = Some (held, s1) ∧
    (∃ a1, handle_of s1 (Ptr 0 0) = Some a1 ∧ maximum_objects a1 = 2) ∧
    tally is_realloc s1 = tally is_realloc s ∧
    op_ll_allocate_object (Ptr 0 0) s1 = Ret rv s2 ∧ rv ≠ NULL ∧ quiet s1 s2 ∧
    tally is_realloc s2 = S (tally is_realloc s1) ∧
    handle_of s2 (Ptr 0 0) = Some a2 ∧ maximum_objects a2 = 2 + 2.
Proof.
  eexists _, _, _.
  match goal with |- ∃ rv s2 a2, ?A ∧ ?B ∧ _ =>
    assert A as Hini by (vm_compute; reflexivity);
    assert B as Hrun by (vm_compute; reflexivity) end.
  destruct (growth_only_when_full 8 2 OP_LINEAR_CHUNK (boot []) (Ptr 0 0) _ 2%nat _ _
              ltac:(lia) ltac:(lia) Hini ltac:(done) ltac:(simpl; lia) Hrun)
    as (Hcap & Hre & Hnext).
  destruct (Hnext eq_refl) as [Hone Htotal].
  destruct Htotal as (rv & s2 & Hcall & Hrv & Hq);
    [by constructor|by vm_compute|by vm_compute|intros _; by vm_compute|].
  destruct (Hone rv s2 Hcall Hq) as (Hre2 & a2 & Ha2 & Hmax2).
  exists rv, s2, a2.
  exact (conj Hini (conj Hrun (conj Hcap (conj Hre (conj Hcall (conj Hrv
           (conj Hq (conj Hre2 (conj Ha2 Hmax2))))))))).
Defined.
